(** * User-Flow-Mapper: noise classification, importance scoring and
      flow-graph assembly

    A shallow embedding of the analysis core of the backend
    (UrlUtils, NoiseReducer, FlowAnalyzer) and of its output stage
    (TextFlowGenerator, FlowFormatter), with the properties of the core
    that the design document states and further properties of both.

    Conventions of the embedding.
    - A JavaScript string is a [string]; the primitives below follow the
      platform on ASCII text (case mapping touches the letters A-Z / a-z
      only, a length is a number of characters).
    - A JavaScript [Map<string, V>] is an insertion-ordered association list
      with unique keys ([OrderedMap]); a [Set<string>] is an insertion-ordered
      list without repetition ([OrderedSet]).  Iteration order is the list
      order, as on the platform.
    - A JavaScript number holding a count is a [nat]; one that holds a
      fraction or a score is the exact rational [Q] that the double stands
      for.  The thresholds (0.85, 0.9, 0.75, 0.7, 0.1, 0.3) are compared with
      ratios of counts, on which the exact comparison and the one on doubles
      give the same answer; a score is a sum of integers, multiplied by 0.7
      for some pages, and the rounding of that product is left out.  No
      statement below depends on how two scores compare.
    - Console output is not modelled. *)

From Stdlib Require Import String Ascii List Bool Arith ZArith QArith Qround Lia.
From Stdlib Require Import Permutation Sorted Decimal DecimalNat DecimalN.
From Stdlib Require Import DecimalString.
Import ListNotations.

Open Scope string_scope.
Open Scope nat_scope.
Open Scope list_scope.

(* ================================================================== *)
(** ** String primitives of the platform *)

Module JsString.

Definition isUpper (c : ascii) : bool :=
  let n := nat_of_ascii c in (65 <=? n) && (n <=? 90).

Definition isLower (c : ascii) : bool :=
  let n := nat_of_ascii c in (97 <=? n) && (n <=? 122).

Definition lowerChar (c : ascii) : ascii :=
  if isUpper c then ascii_of_nat (nat_of_ascii c + 32) else c.

Definition upperChar (c : ascii) : ascii :=
  if isLower c then ascii_of_nat (nat_of_ascii c - 32) else c.

(** [s.toLowerCase()] *)
Fixpoint toLowerCase (s : string) : string :=
  match s with
  | EmptyString => EmptyString
  | String c r => String (lowerChar c) (toLowerCase r)
  end.

(** [s.toUpperCase()] *)
Fixpoint toUpperCase (s : string) : string :=
  match s with
  | EmptyString => EmptyString
  | String c r => String (upperChar c) (toUpperCase r)
  end.

(** [s.startsWith(p)] *)
Fixpoint startsWith (p s : string) : bool :=
  match p, s with
  | EmptyString, _ => true
  | String _ _, EmptyString => false
  | String a p', String b s' => Ascii.eqb a b && startsWith p' s'
  end.

(** [s.includes(p)] *)
Fixpoint includes (p s : string) : bool :=
  startsWith p s ||
  match s with
  | EmptyString => false
  | String _ r => includes p r
  end.

(** [s.endsWith(p)] *)
Fixpoint endsWith (p s : string) : bool :=
  String.eqb p s ||
  match s with
  | EmptyString => false
  | String _ r => endsWith p r
  end.

(** [s.slice(0, -1)] *)
Fixpoint dropLast (s : string) : string :=
  match s with
  | EmptyString => EmptyString
  | String _ EmptyString => EmptyString
  | String c r => String c (dropLast r)
  end.

(** [s.split(sep)] for a non-empty separator: the pieces between the
    occurrences of [sep], found from the left and not overlapping.
    [skip] counts the characters of a matched separator still to pass,
    [cur] is the piece being read. *)
Fixpoint splitFrom (sep s : string) (skip : nat) (cur : string)
  : list string :=
  match s with
  | EmptyString => [cur]
  | String c r =>
      match skip with
      | S k => splitFrom sep r k cur
      | O =>
          if startsWith sep s
          then cur :: splitFrom sep r (String.length sep - 1) EmptyString
          else splitFrom sep r 0 (cur ++ String c EmptyString)%string
      end
  end.

Definition split (sep s : string) : list string := splitFrom sep s 0 "".

(** [parts.join(sep)] *)
Fixpoint join (sep : string) (parts : list string) : string :=
  match parts with
  | [] => ""
  | [p] => p
  | p :: ps => (p ++ sep ++ join sep ps)%string
  end.

Definition isSpace (c : ascii) : bool :=
  let n := nat_of_ascii c in
  (n =? 32) || ((9 <=? n) && (n <=? 13)).

Fixpoint trimStart (s : string) : string :=
  match s with
  | EmptyString => EmptyString
  | String c r => if isSpace c then trimStart r else s
  end.

Fixpoint trimEnd (s : string) : string :=
  match s with
  | EmptyString => EmptyString
  | String c r =>
      match trimEnd r with
      | EmptyString => if isSpace c then EmptyString else String c EmptyString
      | r' => String c r'
      end
  end.

(** [s.trim()] *)
Definition trim (s : string) : string := trimEnd (trimStart s).

(** Truthiness of a string: the empty string is falsy. *)
Definition truthy (s : string) : bool := negb (String.eqb s "").

(** A regular expression that is an alternation of literals, unanchored:
    [/(a|b|c)/.test(s)] with an optional literal prefix. *)
Definition matchesAny (pre : string) (alts : list string) (s : string)
  : bool :=
  existsb (fun a => includes (pre ++ a)%string s) alts.

(** The same alternation anchored at the end of the input:
    [/pre(a|b|c)$/]. *)
Definition matchesAnyAtEnd (pre : string) (alts : list string) (s : string)
  : bool :=
  existsb (fun a => endsWith (pre ++ a)%string s) alts.

End JsString.

(* ================================================================== *)
(** ** Insertion-ordered sets and maps keyed by strings *)

Module OrderedSet.

Definition t := list string.

Definition empty : t := [].

Definition has (x : string) (s : t) : bool := existsb (String.eqb x) s.

(** [s.add(x)]: a new element goes last, a present one changes nothing. *)
Definition add (x : string) (s : t) : t :=
  if has x s then s else s ++ [x].

Definition size (s : t) : nat := List.length s.

(** [new Set(xs)] and [xs.forEach(x => s.add(x))] *)
Definition addAll (xs : list string) (s : t) : t :=
  fold_left (fun acc x => add x acc) xs s.

Definition ofList (xs : list string) : t := addAll xs empty.

End OrderedSet.

Module OrderedMap.

Definition t (V : Type) := list (string * V).

Definition empty {V} : t V := [].

Fixpoint get {V} (k : string) (m : t V) : option V :=
  match m with
  | [] => None
  | (k', v) :: r => if String.eqb k k' then Some v else get k r
  end.

Definition has {V} (k : string) (m : t V) : bool :=
  match get k m with Some _ => true | None => false end.

(** [m.set(k, v)]: a present key keeps its place and takes the new value,
    a new key goes last. *)
Fixpoint set {V} (k : string) (v : V) (m : t V) : t V :=
  match m with
  | [] => [(k, v)]
  | (k', v') :: r =>
      if String.eqb k k' then (k', v) :: r else (k', v') :: set k v r
  end.

(** In-place mutation of the value stored under [k], as in
    [m.get(k)!.push(x)]. *)
Fixpoint modify {V} (k : string) (f : V -> V) (m : t V) : t V :=
  match m with
  | [] => []
  | (k', v') :: r =>
      if String.eqb k k' then (k', f v') :: r else (k', v') :: modify k f r
  end.

Definition keys {V} (m : t V) : list string := map fst m.

Definition values {V} (m : t V) : list V := map snd m.

Definition size {V} (m : t V) : nat := List.length m.

End OrderedMap.

(** The number held by a count. *)
Definition num (n : nat) : Q := inject_Z (Z.of_nat n).

(** A stable sort, as [Array.prototype.sort] is: [after x y] says that the
    comparator is positive on [(x, y)], so that [x] has to come after [y].
    Elements the comparator does not separate keep their order. *)
Section StableSort.
Context {A : Type} (after : A -> A -> bool).

Fixpoint insertSorted (x : A) (l : list A) : list A :=
  match l with
  | [] => [x]
  | y :: r => if after x y then y :: insertSorted x r else x :: y :: r
  end.

Definition stableSort (l : list A) : list A :=
  fold_right insertSorted [] l.
End StableSort.

(* ================================================================== *)
(** ** Crawler records *)

(** Modelled from the spec: the module [crawler/types] declaring
    [LinkPosition], [Link] and [PageMetadata] is not among the sources; the
    three types follow the data model of the design document (section 3)
    and the fields the analyser reads.  [LinkPosition] is its enumeration of
    page regions. *)
Inductive LinkPosition : Type :=
| HEADER | NAVIGATION | CONTENT | FOOTER | SIDEBAR.

Definition LinkPosition_eqb (a b : LinkPosition) : bool :=
  match a, b with
  | HEADER, HEADER | NAVIGATION, NAVIGATION | CONTENT, CONTENT
  | FOOTER, FOOTER | SIDEBAR, SIDEBAR => true
  | _, _ => false
  end.

(** Modelled from the spec: a link record of [crawler/types], with the
    fields [href], [text], [position] and [context] of the data model. *)
Record Link : Type := mkLink {
  href : string;
  text : string;
  position : LinkPosition;
  context : string
}.

(** Modelled from the spec: a page record of [crawler/types], with the
    fields [url], [title], [depth], [outgoingLinks] and [timestamp] of the
    data model. *)
Record PageMetadata : Type := mkPage {
  url : string;
  title : string;
  depth : Z;
  outgoingLinks : list Link;
  timestamp : Z
}.

(** [{...page, outgoingLinks: links}] *)
Definition withOutgoingLinks (page : PageMetadata) (links : list Link)
  : PageMetadata :=
  mkPage (url page) (title page) (depth page) links (timestamp page).

(** The crawl result: pages keyed by their URL, in discovery order. *)
Definition Pages := OrderedMap.t PageMetadata.

(* ================================================================== *)
(** ** The platform's URL class

    [new URL(s)] is modelled on the addresses of the shape

      [http://host:port/path?query#fragment]  or  [https://...]

    with a lower-case scheme and no user information.  The host is made of
    dot-separated labels of letters, digits and inner single hyphens, the
    last label starting with a letter (no address literal, no encoded
    label); its capitals are lowered, as the platform does.  The port, if
    any, is a decimal number up to 65535, dropped when it is the default of
    the scheme.  The path is made of the characters that the platform
    neither escapes nor rewrites, [%] among them, and has no dot segment.
    The query is printable ASCII that the platform does not escape, and
    its names and values decode to ASCII text.  On these the functions
    below are the platform's.  On every other string [parse] answers
    [None]: that is the platform's answer where the platform rejects the
    string, and the boundary of the model elsewhere. *)
Module URL.

Record t : Type := mk {
  scheme : string;
  host : string;
  port : option N;
  path : string;
  query : option string;
  fragment : option string
}.

Definition isDigit (c : ascii) : bool :=
  let n := nat_of_ascii c in (48 <=? n) && (n <=? 57).

Definition isAlnum (c : ascii) : bool :=
  JsString.isLower c || JsString.isUpper c || isDigit c.

Definition inString (c : ascii) (s : string) : bool :=
  existsb (Ascii.eqb c) (list_ascii_of_string s).

Definition hostLabelOk (l : string) : bool :=
  negb (String.eqb l "")
  && forallb (fun c => JsString.isLower c || isDigit c || Ascii.eqb c "-")
             (list_ascii_of_string l)
  && negb (JsString.startsWith "-" l)
  && negb (JsString.endsWith "-" l)
  && negb (JsString.includes "--" l).

Definition hostOk (h : string) : bool :=
  let labels := JsString.split "." h in
  forallb hostLabelOk labels &&
  match last labels "" with
  | String c _ => JsString.isLower c
  | EmptyString => false
  end.

Definition pathCharOk (c : ascii) : bool :=
  isAlnum c || inString c "/-._~:@!$&'()*+,;=%".

(** The segments that the platform resolves instead of keeping: [.] and
    [..], also with an encoded dot. *)
Definition dotSegment (seg : string) : bool :=
  existsb (String.eqb (JsString.toLowerCase seg))
          [ "."; ".."; "%2e"; ".%2e"; "%2e."; "%2e%2e" ].

Definition pathOk (p : string) : bool :=
  forallb pathCharOk (list_ascii_of_string p) &&
  forallb (fun seg => negb (dotSegment seg)) (JsString.split "/" p).

(** Printable ASCII without the characters that the platform escapes in a
    query (space, double quote, [#], ['], [<], [>]). *)
Definition queryCharOk (c : ascii) : bool :=
  let n := nat_of_ascii c in
  (33 <=? n) && (n <=? 126)
  && negb (existsb (Nat.eqb n) [34; 35; 39; 60; 62]).

(** The part of [s] before the first character of [stops], and the rest
    (the stop character included). *)
Fixpoint upTo (stops : string) (s : string) : string * string :=
  match s with
  | EmptyString => (EmptyString, EmptyString)
  | String c r =>
      if inString c stops then (EmptyString, s)
      else let '(a, b) := upTo stops r in (String c a, b)
  end.

(** The value of a hexadecimal digit. *)
Definition hexValue (c : ascii) : option nat :=
  let n := nat_of_ascii c in
  if isDigit c then Some (n - 48)
  else if (97 <=? n) && (n <=? 102) then Some (n - 87)
  else if (65 <=? n) && (n <=? 70) then Some (n - 55)
  else None.

(** Percent-decoding: [%] and two hexadecimal digits stand for a byte, any
    other [%] for itself. *)
Fixpoint percentDecode (s : string) : string :=
  match s with
  | EmptyString => EmptyString
  | String c r =>
      if Ascii.eqb c "%" then
        match r with
        | String h (String l r') =>
            match hexValue h, hexValue l with
            | Some x, Some y =>
                String (ascii_of_nat (16 * x + y)) (percentDecode r')
            | _, _ => String c (percentDecode r)
            end
        | _ => String c (percentDecode r)
        end
      else String c (percentDecode r)
  end.

Fixpoint plusToSpace (s : string) : string :=
  match s with
  | EmptyString => EmptyString
  | String c r =>
      String (if Ascii.eqb c "+" then " "%char else c) (plusToSpace r)
  end.

(** A name or a value of a query, decoded as the form encoding has it. *)
Definition formDecode (s : string) : string :=
  percentDecode (plusToSpace s).

Definition hexDigit (n : nat) : ascii :=
  if n <? 10 then ascii_of_nat (48 + n) else ascii_of_nat (55 + n).

(** The characters that the form encoding leaves as they are. *)
Definition formSafe (c : ascii) : bool :=
  isAlnum c || inString c "*-._".

Definition formEncodeChar (c : ascii) : string :=
  if formSafe c then String c ""
  else if Ascii.eqb c " " then "+"
  else
    let n := nat_of_ascii c in
    String "%" (String (hexDigit (n / 16)) (String (hexDigit (n mod 16)) "")).

(** A name or a value written in the form encoding. *)
Fixpoint formEncode (s : string) : string :=
  match s with
  | EmptyString => EmptyString
  | String c r => (formEncodeChar c ++ formEncode r)%string
  end.

Definition isAscii (s : string) : bool :=
  forallb (fun c => nat_of_ascii c <? 128) (list_ascii_of_string s).

(** One [name=value] piece of a query; a piece without [=] has an empty
    value. *)
Definition parsePair (piece : string) : string * string :=
  let '(k, r) := upTo "=" piece in
  match r with
  | String _ v => (formDecode k, formDecode v)
  | EmptyString => (formDecode k, "")
  end.

Definition queryOk (q : string) : bool :=
  forallb queryCharOk (list_ascii_of_string q) &&
  forallb (fun piece =>
             isAscii (fst (parsePair piece))
             && isAscii (snd (parsePair piece)))
          (JsString.split "&" q).

Definition stripScheme (s : string) : option (string * string) :=
  if JsString.startsWith "https://" s
  then Some ("https", String.substring 8 (String.length s - 8) s)
  else if JsString.startsWith "http://" s
  then Some ("http", String.substring 7 (String.length s - 7) s)
  else None.

Definition defaultPort (sch : string) : N :=
  if String.eqb sch "http" then 80%N else 443%N.

(** The decimal digits of a port. *)
Definition portDigits (n : N) : string :=
  NilEmpty.string_of_uint (N.to_uint n).

(** The port written after the host: [portPart] is empty or starts with
    the colon.  [None] stands for a failure, [Some None] for no port. *)
Definition parsePort (sch portPart : string) : option (option N) :=
  match portPart with
  | EmptyString => Some None
  | String _ EmptyString => Some None
  | String _ digits =>
      match NilEmpty.uint_of_string digits with
      | None => None
      | Some d =>
          let n := N.of_uint d in
          if (65535 <? n)%N then None
          else Some (if (n =? defaultPort sch)%N then None else Some n)
      end
  end.

(** [new URL(s)]; [None] stands for the [TypeError] it throws. *)
Definition parse (s : string) : option t :=
  match stripScheme s with
  | None => None
  | Some (sch, rest) =>
      let '(authority, afterHost) := upTo "/?#" rest in
      let '(hostPart, portPart) := upTo ":" authority in
      let h := JsString.toLowerCase hostPart in
      let '(p, afterPath) := upTo "?#" afterHost in
      let '(q, frag) :=
        match afterPath with
        | String "?" r =>
            let '(q, f) := upTo "#" r in (Some q, f)
        | _ => (None, afterPath)
        end in
      let f :=
        match frag with
        | String "#" r => Some r
        | _ => None
        end in
      let qOk := match q with Some q => queryOk q | None => true end in
      match parsePort sch portPart with
      | None => None
      | Some prt =>
          if hostOk h && pathOk p && qOk
          then Some (mk sch h prt (if String.eqb p "" then "/" else p) q f)
          else None
      end
  end.

(** [u.pathname] *)
Definition pathname (u : t) : string := path u.

(** [u.pathname = p]: the new path is parsed from its leading slash. *)
Definition setPathname (p : string) (u : t) : t :=
  mk (scheme u) (host u) (port u)
     (if JsString.startsWith "/" p then p else ("/" ++ p)%string)
     (query u) (fragment u).

(** [u.hash = ""] *)
Definition clearHash (u : t) : t :=
  mk (scheme u) (host u) (port u) (path u) (query u) None.

(** [u.search = ""]: the query goes and with it every search parameter. *)
Definition clearSearch (u : t) : t :=
  mk (scheme u) (host u) (port u) (path u) None (fragment u).

(** [Array.from(u.searchParams.entries())] *)
Definition searchParams (u : t) : list (string * string) :=
  match query u with
  | None => []
  | Some q =>
      map parsePair
          (filter (fun piece => negb (String.eqb piece ""))
                  (JsString.split "&" q))
  end.

Definition serializeParams (ps : list (string * string)) : string :=
  JsString.join
    "&" (map (fun kv => (formEncode (fst kv) ++ "=" ++ formEncode (snd kv))
                          %string)
             ps).

(** [u.searchParams.append(k, v)]: the pair is added last and the query
    of the URL is rewritten from the list. *)
Definition appendParam (k v : string) (u : t) : t :=
  mk (scheme u) (host u) (port u) (path u)
     (Some (serializeParams (searchParams u ++ [(k, v)])))
     (fragment u).

(** [u.href] *)
Definition href (u : t) : string :=
  (scheme u ++ "://" ++ host u
     ++ match port u with Some n => ":" ++ portDigits n | None => "" end
     ++ path u
     ++ match query u with Some q => "?" ++ q | None => "" end
     ++ match fragment u with Some f => "#" ++ f | None => "" end)%string.


(** [u.hostname] *)
Definition hostname (u : t) : string := host u.

End URL.

(* ================================================================== *)
(** ** UrlUtils *)

Module UrlUtils.

Section Normalize.
(** [a.localeCompare(b)], the collation of the platform's locale. *)
Variable localeCompare : string -> string -> comparison.

Definition keyAfter (a b : string * string) : bool :=
  match localeCompare (fst a) (fst b) with
  | Gt => true
  | _ => false
  end.

Definition normalize (url : string) : string :=
  match URL.parse url with
  | None => url
  | Some parsed =>
      (* Remove fragment *)
      let parsed := URL.clearHash parsed in
      (* Sort query parameters for consistency *)
      let sortedParams := stableSort keyAfter (URL.searchParams parsed) in
      let parsed := URL.clearSearch parsed in
      let parsed :=
        fold_left (fun u kv => URL.appendParam (fst kv) (snd kv) u)
                  sortedParams parsed in
      (* Remove trailing slash *)
      let pathname := URL.pathname parsed in
      let pathname :=
        if JsString.endsWith "/" pathname
           && (1 <? String.length pathname)
        then JsString.dropLast pathname
        else pathname in
      let parsed := URL.setPathname pathname parsed in
      URL.href parsed
  end.
End Normalize.

(** Check if URL is internal to the base domain *)
Definition isInternal (url baseDomain : string) : bool :=
  match URL.parse url with
  | None => false
  | Some urlObj =>
      match URL.parse baseDomain with
      | None => false
      | Some baseObj =>
          String.eqb (URL.hostname urlObj) (URL.hostname baseObj)
      end
  end.


(** Extract path segments for categorization *)
Definition getPathSegments (url : string) : list string :=
  match URL.parse url with
  | None => []
  | Some urlObj =>
      filter (fun segment => 0 <? String.length segment)
             (JsString.split "/" (URL.pathname urlObj))
  end.

End UrlUtils.

(* ================================================================== *)
(** ** NoiseReducer *)

(** Information about a navigation link *)
Record NavigationInfo : Type := mkNavigationInfo {
  nav_url : string;
  frequency : Q;
  appearingOnPages : nat;
  nav_totalPages : nat;
  linkText : string;
  positions : list LinkPosition;
  isStructural : bool;
  isGlobalNav : bool
}.

(** Result of noise reduction *)
Record NoiseReductionResult : Type := mkNoiseReductionResult {
  cleanedPages : Pages;
  noiseLinks : OrderedSet.t;
  noiseCategories : OrderedMap.t (list string);
  globalNavigation : OrderedMap.t NavigationInfo;
  hubPages : OrderedSet.t
}.

Module NoiseReducer.

Definition GLOBAL_NAV_THRESHOLD : Q := 0.85.
Definition HIGH_FREQUENCY_THRESHOLD : Q := 0.75.
Definition HUB_PAGE_THRESHOLD : Q := 0.9.

(** The three maps the first loop of [identifyGlobalNavigation] fills. *)
Record LinkStats : Type := mkLinkStats {
  linkFrequency : OrderedMap.t OrderedSet.t;
  linkTextMap : OrderedMap.t string;
  linkPositionMap : OrderedMap.t (list LinkPosition)
}.

Definition noLinkStats : LinkStats :=
  mkLinkStats OrderedMap.empty OrderedMap.empty OrderedMap.empty.

(** Body of [page.outgoingLinks.forEach] in [identifyGlobalNavigation]:
    the state is the three maps and the [seenLinks] of the page. *)
Definition recordLink (pageUrl : string)
           (st : LinkStats * OrderedSet.t) (link : Link)
  : LinkStats * OrderedSet.t :=
  let '(stats, seenLinks) := st in
  if negb (OrderedSet.has (href link) seenLinks) then
    let seenLinks := OrderedSet.add (href link) seenLinks in
    let '(freq, pos) :=
      if negb (OrderedMap.has (href link) (linkFrequency stats))
      then (OrderedMap.set (href link) OrderedSet.empty
                           (linkFrequency stats),
            OrderedMap.set (href link) [] (linkPositionMap stats))
      else (linkFrequency stats, linkPositionMap stats) in
    let freq := OrderedMap.modify (href link) (OrderedSet.add pageUrl) freq in
    let pos :=
      OrderedMap.modify (href link) (fun ps => ps ++ [position link]) pos in
    (* Track most common link text *)
    let txt :=
      if negb (OrderedMap.has (href link) (linkTextMap stats))
         && JsString.truthy (text link)
      then OrderedMap.set (href link) (text link) (linkTextMap stats)
      else linkTextMap stats in
    (mkLinkStats freq txt pos, seenLinks)
  else st.

Definition recordPage (stats : LinkStats) (entry : string * PageMetadata)
  : LinkStats :=
  let '(pageUrl, page) := entry in
  fst (fold_left (recordLink pageUrl) (outgoingLinks page)
                 (stats, OrderedSet.empty)).

Definition isStructuralPosition (pos : LinkPosition) : bool :=
  existsb (LinkPosition_eqb pos) [HEADER; NAVIGATION; FOOTER; SIDEBAR].

(** Check if link positions indicate structural navigation *)
Definition isStructuralNavigation (positions : list LinkPosition) : bool :=
  let structuralCount :=
    List.length (filter isStructuralPosition positions) in
  (* >70% in structural positions *)
  negb (Qle_bool (num structuralCount / num (List.length positions)) 0.7).

(** Identify global navigation links that appear across most pages *)
Definition identifyGlobalNavigation (pages : Pages)
  : OrderedMap.t NavigationInfo :=
  let totalPages := OrderedMap.size pages in
  let stats := fold_left recordPage pages noLinkStats in
  fold_left
    (fun globalNavLinks (entry : string * OrderedSet.t) =>
       let '(link, appearingOn) := entry in
       let frequency := (num (OrderedSet.size appearingOn)
                         / num totalPages)%Q in
       if Qle_bool GLOBAL_NAV_THRESHOLD frequency then
         let positions :=
           match OrderedMap.get link (linkPositionMap stats) with
           | Some ps => ps
           | None => []
           end in
         let isStructural := isStructuralNavigation positions in
         OrderedMap.set link
           (mkNavigationInfo link frequency (OrderedSet.size appearingOn)
              totalPages
              (match OrderedMap.get link (linkTextMap stats) with
               | Some t => if JsString.truthy t then t else ""
               | None => ""
               end)
              positions isStructural true)
           globalNavLinks
       else globalNavLinks)
    (linkFrequency stats) OrderedMap.empty.

(** Identify hub pages that are heavily linked *)
Definition identifyHubPages (pages : Pages) : OrderedSet.t :=
  let totalPages := OrderedMap.size pages in
  let incomingLinks : OrderedMap.t OrderedSet.t :=
    fold_left
      (fun incoming (entry : string * PageMetadata) =>
         let '(sourceUrl, page) := entry in
         fold_left
           (fun incoming (link : Link) =>
              let incoming :=
                if negb (OrderedMap.has (href link) incoming)
                then OrderedMap.set (href link) OrderedSet.empty incoming
                else incoming in
              OrderedMap.modify (href link) (OrderedSet.add sourceUrl)
                                incoming)
           (outgoingLinks page) incoming)
      pages OrderedMap.empty in
  fold_left
    (fun hubPages (entry : string * OrderedSet.t) =>
       let '(targetUrl, sources) := entry in
       let linkFrequency := (num (OrderedSet.size sources)
                             / num totalPages)%Q in
       if Qle_bool HUB_PAGE_THRESHOLD linkFrequency
       then OrderedSet.add targetUrl hubPages
       else hubPages)
    incomingLinks OrderedSet.empty.

(** [noisePositions]: only footer *)
Definition noisePositions : list LinkPosition := [FOOTER].

(** Identify structural noise links (footer only, keep header for now) *)
Definition identifyStructuralNoise (pages : Pages) : OrderedSet.t :=
  fold_left
    (fun structuralLinks (page : PageMetadata) =>
       OrderedSet.addAll
         (map href
              (filter (fun link =>
                         existsb (LinkPosition_eqb (position link))
                                 noisePositions)
                      (outgoingLinks page)))
         structuralLinks)
    (OrderedMap.values pages) OrderedSet.empty.

(** The table [lowValuePatterns], one test per regular expression. *)
Definition lowValuePatterns : list (string -> bool) :=
  [ (fun h => JsString.includes "logout" (JsString.toLowerCase h));
    (fun h => let l := JsString.toLowerCase h in
              JsString.includes "signout" l || JsString.includes "sign-out" l);
    (fun h => let l := JsString.toLowerCase h in
              JsString.includes "logout" l || JsString.includes "log-out" l);
    JsString.includes "twitter.com";
    JsString.includes "facebook.com";
    JsString.includes "linkedin.com";
    JsString.includes "instagram.com";
    JsString.includes "youtube.com";
    JsString.includes "t.co/";
    JsString.endsWith "#";
    JsString.includes "javascript:";
    JsString.includes "mailto:";
    JsString.includes "tel:";
    JsString.endsWith ".rss";
    JsString.endsWith ".xml";
    JsString.includes "/feed" ].

(** Identify low-value links that don't contribute to user flows *)
Definition identifyLowValueLinks (pages : Pages) : OrderedSet.t :=
  fold_left
    (fun lowValueLinks (page : PageMetadata) =>
       OrderedSet.addAll
         (map href
              (filter (fun link =>
                         existsb (fun pattern => pattern (href link))
                                 lowValuePatterns)
                      (outgoingLinks page)))
         lowValueLinks)
    (OrderedMap.values pages) OrderedSet.empty.

(** Identify links with repetitive text patterns (likely navigation) *)
Definition identifyRepetitiveLinks (pages : Pages) : OrderedSet.t :=
  let totalPages := OrderedMap.size pages in
  let linkTextFrequency : OrderedMap.t OrderedSet.t :=
    fold_left
      (fun freq (page : PageMetadata) =>
         fold_left
           (fun freq (link : Link) =>
              let normalizedText :=
                JsString.trim (JsString.toLowerCase (text link)) in
              if negb (JsString.truthy normalizedText)
                 || (String.length normalizedText <? 3)
              then freq
              else
                let freq :=
                  if negb (OrderedMap.has normalizedText freq)
                  then OrderedMap.set normalizedText OrderedSet.empty freq
                  else freq in
                OrderedMap.modify normalizedText
                                  (OrderedSet.add (href link)) freq)
           (outgoingLinks page) freq)
      (OrderedMap.values pages) OrderedMap.empty in
  fold_left
    (fun repetitiveLinks (entry : string * OrderedSet.t) =>
       let '(_, urls) := entry in
       let frequency := (num (OrderedSet.size urls) / num totalPages)%Q in
       if Qle_bool HIGH_FREQUENCY_THRESHOLD frequency
       then OrderedSet.addAll urls repetitiveLinks
       else repetitiveLinks)
    linkTextFrequency OrderedSet.empty.

(** [categories.get(link)!.push(tag)], the list being created when the
    link has none yet. *)
Definition pushCategory (tag : string)
           (categories : OrderedMap.t (list string)) (link : string)
  : OrderedMap.t (list string) :=
  let categories :=
    if negb (OrderedMap.has link categories)
    then OrderedMap.set link [] categories
    else categories in
  OrderedMap.modify link (fun tags => tags ++ [tag]) categories.

(** [pages] with every link whose href is in [noise] taken out. *)
Definition removeLinks (noise : OrderedSet.t) (pages : Pages) : Pages :=
  fold_left
    (fun cleaned (entry : string * PageMetadata) =>
       let '(url, page) := entry in
       let cleanedLinks :=
         filter (fun link => negb (OrderedSet.has (href link) noise))
                (outgoingLinks page) in
       OrderedMap.set url (withOutgoingLinks page cleanedLinks) cleaned)
    pages OrderedMap.empty.

(** [Array.from(pages.values()).reduce((sum, p) =>
      sum + p.outgoingLinks.length, 0)] *)
Definition totalLinks (pages : Pages) : nat :=
  fold_left (fun sum p => sum + List.length (outgoingLinks p))
            (OrderedMap.values pages) 0.

(** The test of the safety check: [totalLinksAfter < totalLinksBefore * 0.1] *)
Definition tooAggressive (totalLinksBefore totalLinksAfter : nat) : bool :=
  negb (Qle_bool (num totalLinksBefore * 0.1) (num totalLinksAfter)).

(** Main noise reduction function - combines all heuristics with safety
    checks *)
Definition reduceNoise (pages : Pages) : NoiseReductionResult :=
  (* Gather all noise categories *)
  let globalNav := identifyGlobalNavigation pages in
  let hubPages := identifyHubPages pages in
  let structuralNoise := identifyStructuralNoise pages in
  let lowValueLinks := identifyLowValueLinks pages in
  let repetitiveLinks := identifyRepetitiveLinks pages in
  (* More conservative: only combine certain noise types *)
  let allNoiseLinks :=
    OrderedSet.ofList
      (OrderedMap.keys globalNav ++ structuralNoise ++ lowValueLinks) in
  (* For debugging/analysis, categorize noise *)
  let noiseCategories :=
    fold_left (pushCategory "global_navigation")
              (OrderedMap.keys globalNav) OrderedMap.empty in
  let noiseCategories :=
    fold_left (pushCategory "structural") structuralNoise noiseCategories in
  let noiseCategories :=
    fold_left (pushCategory "low_value") lowValueLinks noiseCategories in
  (* Create cleaned pages with noise removed *)
  let cleanedPages := removeLinks allNoiseLinks pages in
  let totalLinksBefore := totalLinks pages in
  let totalLinksAfter := totalLinks cleanedPages in
  (* Safety check: if we removed too much (>90%), be less aggressive *)
  if tooAggressive totalLinksBefore totalLinksAfter then
    (* Only remove low value links *)
    let conservativeNoise := OrderedSet.ofList lowValueLinks in
    let conservativeCleanedPages := removeLinks conservativeNoise pages in
    mkNoiseReductionResult conservativeCleanedPages conservativeNoise
                           noiseCategories globalNav hubPages
  else
    mkNoiseReductionResult cleanedPages allNoiseLinks
                           noiseCategories globalNav hubPages.

End NoiseReducer.

(* ================================================================== *)
(** ** Flow graph records *)

Module NodeType.
Inductive t : Type :=
| ENTRY | CONTENT | FORM | TRANSACTION | EXIT.
End NodeType.

Record NodeMetadata : Type := mkNodeMetadata {
  node_depth : Z;
  pageTitle : string;
  pathSegments : list string
}.

Record FlowNode : Type := mkFlowNode {
  id : string;
  label : string;
  node_url : string;
  type : NodeType.t;
  metadata : NodeMetadata
}.

Record FlowEdge : Type := mkFlowEdge {
  source : string;
  target : string;
  weight : nat;
  edge_label : string
}.

Record FlowMetadata : Type := mkFlowMetadata {
  startUrl : string;
  totalPages : nat;
  noiseFiltered : nat;
  crawlTimestamp : Z
}.

Record UserFlow : Type := mkUserFlow {
  nodes : list FlowNode;
  edges : list FlowEdge;
  flow_metadata : FlowMetadata
}.

(* ================================================================== *)
(** ** FlowAnalyzer *)

Module FlowAnalyzer.

Definition MAX_NODES_IN_FLOW : Z := 30.

Local Open Scope Q_scope.

(** [if (hit) score += points;] *)
Definition addIf (hit : bool) (points : Q) (score : Q) : Q :=
  if hit then score + points else score.

(** Calculate page importance based on multiple factors *)
Definition calculatePageImportance
           (url : string) (page : PageMetadata) (allPages : Pages)
           (incomingLinks : OrderedMap.t nat)
           (noiseResult : NoiseReductionResult) : Q :=
  let score : Q := 0 in
  (* Factor 1: Incoming links (popularity) - but not if it's a hub page *)
  let incoming : nat :=
    match OrderedMap.get url incomingLinks with
    | Some n => n
    | None => 0%nat
    end in
  let score :=
    if negb (OrderedSet.has url (hubPages noiseResult))
    then score + num incoming * 15
    else score + 40 in
  (* Factor 2: Low depth (closer to home) - higher weight *)
  let score := score + inject_Z (6 - Z.min (depth page) 6) * 10 in
  (* Factor 3: Number of meaningful outgoing links (not noise) *)
  let score :=
    match OrderedMap.get url (cleanedPages noiseResult) with
    | Some cleanedPage =>
        if (0 <? List.length (outgoingLinks cleanedPage))%nat
        then score
             + num (Nat.min (List.length (outgoingLinks cleanedPage)) 15) * 4
        else score
    | None => score
    end in
  (* Factor 4: URL patterns indicating importance - higher weights *)
  let urlLower := JsString.toLowerCase url in
  let score :=
    addIf (JsString.matchesAnyAtEnd
             "/" ["home"; "index"; "dashboard"; "main"] urlLower) 100 score in
  let score :=
    addIf (JsString.matchesAny
             "/" ["login"; "signup"; "register"; "auth"] urlLower) 80 score in
  let score :=
    addIf (JsString.matchesAny
             "/" ["checkout"; "cart"; "payment"; "order"] urlLower) 80 score in
  let score :=
    addIf (JsString.matchesAny
             "/" ["product"; "item"; "detail"] urlLower) 60 score in
  let score :=
    addIf (JsString.matchesAny
             "/" ["contact"; "support"; "help"] urlLower) 50 score in
  let score :=
    addIf (JsString.matchesAny
             "/" ["profile"; "account"; "settings"] urlLower) 60 score in
  let score :=
    addIf (JsString.matchesAny "/" ["search"; "results"] urlLower) 50 score in
  let score :=
    addIf (JsString.matchesAny
             "/" ["category"; "collection"; "browse"] urlLower) 45 score in
  let score :=
    addIf (JsString.matchesAny "/" ["about"; "info"] urlLower) 35 score in
  (* Factor 5: Page title keywords *)
  let titleLower := JsString.toLowerCase (title page) in
  let score :=
    addIf (JsString.matchesAny
             "" ["home"; "dashboard"; "main"; "overview"] titleLower)
          40 score in
  let score :=
    addIf (JsString.matchesAny
             "" ["login"; "sign in"; "register"; "sign up"] titleLower)
          40 score in
  let score :=
    addIf (JsString.matchesAny
             "" ["checkout"; "cart"; "payment"] titleLower) 40 score in
  let score :=
    addIf (JsString.matchesAny
             "" ["product"; "item"; "detail"] titleLower) 30 score in
  let score :=
    addIf (JsString.matchesAny "" ["category"; "collection"] titleLower)
          25 score in
  (* Factor 6: Less penalty for being in global nav *)
  let score :=
    if OrderedMap.has url (globalNavigation noiseResult)
    then score * 0.7
    else score in
  (* Base score for all pages *)
  let score := score + 10 in
  score.

Local Close Scope Q_scope.

(** Body of [page.outgoingLinks.forEach] in [buildIncomingLinksMap]. *)
Definition countLink (globalNav : OrderedMap.t NavigationInfo)
           (incomingLinks : OrderedMap.t nat) (link : Link)
  : OrderedMap.t nat :=
  (* Don't count links to global navigation pages *)
  if negb (OrderedMap.has (href link) globalNav)
  then
    OrderedMap.set
      (href link)
      (match OrderedMap.get (href link) incomingLinks with
       | Some n => n
       | None => 0
       end + 1)
      incomingLinks
  else incomingLinks.

(** Build incoming links map (excluding global navigation) *)
Definition buildIncomingLinksMap
           (pages : Pages) (noiseResult : NoiseReductionResult)
  : OrderedMap.t nat :=
  (* Use cleaned pages (without noise) *)
  fold_left
    (fun incomingLinks (page : PageMetadata) =>
       fold_left (countLink (globalNavigation noiseResult))
                 (outgoingLinks page) incomingLinks)
    (OrderedMap.values (cleanedPages noiseResult)) OrderedMap.empty.

(** The comparator [(a, b) => b[1] - a[1]] is positive when [a] scores
    less than [b]. *)
Definition scoreAfter (a b : string * Q) : bool :=
  negb (Qle_bool (snd b) (snd a)).

(** The scored pages, best first. *)
Definition sortedPages (pages : Pages) (noiseResult : NoiseReductionResult)
           (incomingLinks : OrderedMap.t nat) : list (string * Q) :=
  (* Calculate importance for each page *)
  let pageScores : OrderedMap.t Q :=
    fold_left
      (fun pageScores (entry : string * PageMetadata) =>
         let '(url, page) := entry in
         let score :=
           calculatePageImportance url page pages incomingLinks
                                   noiseResult in
         OrderedMap.set url score pageScores)
      pages OrderedMap.empty in
  (* Sort by score *)
  stableSort scoreAfter pageScores.

(** [Math.max(minNodes, Math.min(MAX_NODES_IN_FLOW,
      Math.ceil(pages.size * 0.3)))] *)
Definition targetNodeCount (size : nat) : nat :=
  let minNodes := 10%Z in
  Z.to_nat
    (Z.max minNodes
           (Z.min MAX_NODES_IN_FLOW (Qceiling (num size * 0.3)%Q))).

(** The key pages as they stand when the safety check is reached: the top
    pages and the start page. *)
Definition selectedPages (pages : Pages) (noiseResult : NoiseReductionResult)
           (incomingLinks : OrderedMap.t nat) : OrderedSet.t :=
  let sorted := sortedPages pages noiseResult incomingLinks in
  let keyPages := OrderedSet.empty in
  let topPages := firstn (targetNodeCount (OrderedMap.size pages)) sorted in
  let keyPages := OrderedSet.addAll (map fst topPages) keyPages in
  (* Always include start page *)
  match hd_error (OrderedMap.keys pages) with
  | Some startPage =>
      if JsString.truthy startPage
      then OrderedSet.add startPage keyPages
      else keyPages
  | None => keyPages
  end.

(** The test of the safety check. *)
Definition tooFewKeyPages (keyPages : OrderedSet.t) (pages : Pages) : bool :=
  (OrderedSet.size keyPages <? 5) && (5 <=? OrderedMap.size pages).

(** Identify key pages that should be in the flow *)
Definition identifyKeyPages (pages : Pages)
           (noiseResult : NoiseReductionResult)
           (incomingLinks : OrderedMap.t nat) : OrderedSet.t :=
  let sorted := sortedPages pages noiseResult incomingLinks in
  let keyPages := selectedPages pages noiseResult incomingLinks in
  (* Safety check: ensure we have at least some pages *)
  if tooFewKeyPages keyPages pages
  then
    OrderedSet.addAll
      (map fst (firstn (Nat.min 15 (OrderedMap.size pages)) sorted))
      keyPages
  else keyPages.

(** Infer node type based on URL patterns and content *)
Definition inferNodeType (url : string) (pageTitle : string) : NodeType.t :=
  let urlLower := JsString.toLowerCase url in
  (* Entry points *)
  if JsString.endsWith "/" urlLower
     || JsString.includes "/home" urlLower
     || JsString.includes "/index" urlLower
     || JsString.includes "/dashboard" urlLower
  then NodeType.ENTRY
  (* Forms and interactions *)
  else if JsString.includes "/login" urlLower
          || JsString.includes "/signup" urlLower
          || JsString.includes "/register" urlLower
          || JsString.includes "/contact" urlLower
  then NodeType.FORM
  (* Transaction pages *)
  else if JsString.includes "/checkout" urlLower
          || JsString.includes "/payment" urlLower
          || JsString.includes "/cart" urlLower
          || JsString.includes "/order" urlLower
  then NodeType.TRANSACTION
  (* Exit pages *)
  else if JsString.includes "/thank" urlLower
          || JsString.includes "/success" urlLower
          || JsString.includes "/confirm" urlLower
          || JsString.includes "/complete" urlLower
  then NodeType.EXIT
  (* Default to content *)
  else NodeType.CONTENT.

(** [word.charAt(0).toUpperCase() + word.slice(1)] *)
Definition capitalize (word : string) : string :=
  match word with
  | EmptyString => EmptyString
  | String c r => String (JsString.upperChar c) r
  end.

(** Generate human-readable label for a node *)
Definition generateNodeLabel (url : string) (pageTitle : string) : string :=
  (* Prefer page title if meaningful *)
  if JsString.truthy pageTitle
     && (0 <? String.length pageTitle)
     && (String.length pageTitle <? 50)
  then pageTitle
  else
    (* Fallback to URL-based label *)
    let segments := UrlUtils.getPathSegments url in
    match segments with
    | [] => "Home"
    | _ =>
        (* Use last meaningful segment *)
        let lastSegment := last segments "" in
        JsString.join " " (map capitalize (JsString.split "-" lastSegment))
    end.

(** Build flow nodes from key pages only *)
Definition buildNodes (pages : Pages) (keyPages : OrderedSet.t)
  : OrderedMap.t FlowNode :=
  fold_left
    (fun nodes (url : string) =>
       match OrderedMap.get url pages with
       | None => nodes
       | Some page =>
           let nodeId := url in
           let label := generateNodeLabel url (title page) in
           let type := inferNodeType url (title page) in
           let pathSegments := UrlUtils.getPathSegments url in
           OrderedMap.set nodeId
             (mkFlowNode nodeId label url type
                (mkNodeMetadata (depth page) (title page) pathSegments))
             nodes
       end)
    keyPages OrderedMap.empty.

(** The value kept per edge key while the links are read. *)
Record EdgeData : Type := mkEdgeData {
  count : nat;
  data_label : string
}.

(** Body of [page.outgoingLinks.forEach] in [buildEdges]. *)
Definition recordEdge (keyPages : OrderedSet.t) (sourceUrl : string)
           (edgeMap : OrderedMap.t EdgeData) (link : Link)
  : OrderedMap.t EdgeData :=
  (* Only create edges between key pages *)
  if negb (OrderedSet.has (href link) keyPages) then edgeMap
  else
    let edgeKey := (sourceUrl ++ "::" ++ href link)%string in
    let edgeMap :=
      if negb (OrderedMap.has edgeKey edgeMap)
      then OrderedMap.set edgeKey (mkEdgeData 0 (text link)) edgeMap
      else edgeMap in
    OrderedMap.modify edgeKey
      (fun edge =>
         let count := count edge + 1 in
         (* Prefer shorter, more meaningful labels *)
         if JsString.truthy (text link)
            && (0 <? String.length (text link))
            && (String.length (text link) <? String.length (data_label edge))
         then mkEdgeData count (text link)
         else mkEdgeData count (data_label edge))
      edgeMap.

(** The map from edge key to count and label that [buildEdges] fills. *)
Definition buildEdgeMap (keyPages : OrderedSet.t)
           (noiseResult : NoiseReductionResult) : OrderedMap.t EdgeData :=
  (* Use cleaned pages (global nav already removed) *)
  fold_left
    (fun edgeMap (entry : string * PageMetadata) =>
       let '(sourceUrl, page) := entry in
       if negb (OrderedSet.has sourceUrl keyPages) then edgeMap
       else fold_left (recordEdge keyPages sourceUrl)
                      (outgoingLinks page) edgeMap)
    (cleanedPages noiseResult) OrderedMap.empty.

(** Build edges only between key pages (no global nav edges) *)
Definition buildEdges (pages : Pages) (keyPages : OrderedSet.t)
           (noiseResult : NoiseReductionResult) : list FlowEdge :=
  let edgeMap := buildEdgeMap keyPages noiseResult in
  (* Convert to edge array *)
  map (fun entry : string * EdgeData =>
         let '(key, data) := entry in
         (* [const [source, target] = key.split("::")]; every key holds
            the separator, so both pieces exist *)
         let parts := JsString.split "::" key in
         mkFlowEdge (nth 0 parts "") (nth 1 parts "")
                    (count data) (data_label data))
      edgeMap.

(** Main analysis function - extract meaningful flows.  [now] is the
    value of [Date.now()]. *)
Definition analyze (now : Z) (pages : Pages) (startUrl : string) : UserFlow :=
  (* Step 1: Apply noise reduction with global nav detection *)
  let noiseResult := NoiseReducer.reduceNoise pages in
  (* Step 2: Build incoming links map (excluding noise) *)
  let incomingLinks := buildIncomingLinksMap pages noiseResult in
  (* Step 3: Identify key pages (excluding global nav) *)
  let keyPages := identifyKeyPages pages noiseResult incomingLinks in
  (* Step 4: Build flow graph with only key pages, no global nav edges *)
  let nodes := buildNodes pages keyPages in
  let edges := buildEdges pages keyPages noiseResult in
  mkUserFlow (OrderedMap.values nodes) edges
             (mkFlowMetadata startUrl (OrderedMap.size pages)
                             (OrderedSet.size (noiseLinks noiseResult)) now).

End FlowAnalyzer.

(* ================================================================== *)
(** ** Vocabulary of the design document *)

(** Every recorded occurrence of a link to [h]: the links with that href on
    all the pages, in page order. *)
Definition occurrences (h : string) (pages : Pages) : list Link :=
  filter (fun link => String.eqb (href link) h)
         (flat_map outgoingLinks (OrderedMap.values pages)).

Definition inFooter (link : Link) : bool :=
  LinkPosition_eqb (position link) FOOTER.

(** The pages other than [u] that hold at least one link to [u]. *)
Definition linkingPages (u : string) (pages : Pages)
  : list (string * PageMetadata) :=
  filter (fun entry : string * PageMetadata =>
            negb (String.eqb (fst entry) u)
            && existsb (fun link => String.eqb (href link) u)
                       (outgoingLinks (snd entry)))
         pages.

(** [incomingLinks.get(url) || 0] *)
Definition incomingCount (u : string) (incomingLinks : OrderedMap.t nat)
  : nat :=
  match OrderedMap.get u incomingLinks with
  | Some n => n
  | None => 0
  end.

(** The factors of the importance score as the design document tabulates
    them (section 4.3), each on its own. *)
Module ScoreTable.

Local Open Scope Q_scope.

Definition popularity (u : string) (incomingLinks : OrderedMap.t nat)
           (noiseResult : NoiseReductionResult) : Q :=
  if OrderedSet.has u (hubPages noiseResult) then 40
  else 15 * num (incomingCount u incomingLinks).

Definition depthFactor (page : PageMetadata) : Q :=
  10 * inject_Z (6 - Z.min (depth page) 6).

Definition outgoingRichness (u : string) (noiseResult : NoiseReductionResult)
  : Q :=
  let cleanedOutgoingLinkCount :=
    match OrderedMap.get u (cleanedPages noiseResult) with
    | Some cleanedPage => List.length (outgoingLinks cleanedPage)
    | None => 0%nat
    end in
  4 * num (Nat.min cleanedOutgoingLinkCount 15).

(** A table of (matches, points); every matching row contributes. *)
Definition sumOfMatches (rows : list (bool * Q)%type) : Q :=
  fold_right (fun (row : (bool * Q)%type) acc => (if fst row then snd row else 0) + acc) 0 rows.

Definition urlPattern (u : string) : Q :=
  let path := JsString.toLowerCase u in
  sumOfMatches
    [ (JsString.matchesAnyAtEnd
         "/" ["home"; "index"; "dashboard"; "main"] path, 100);
      (JsString.matchesAny "/" ["login"; "signup"; "register"; "auth"] path,
       80);
      (JsString.matchesAny "/" ["checkout"; "cart"; "payment"; "order"] path,
       80);
      (JsString.matchesAny "/" ["product"; "item"; "detail"] path, 60);
      (JsString.matchesAny "/" ["profile"; "account"; "settings"] path, 60);
      (JsString.matchesAny "/" ["contact"; "support"; "help"] path, 50);
      (JsString.matchesAny "/" ["search"; "results"] path, 50);
      (JsString.matchesAny "/" ["category"; "collection"; "browse"] path, 45);
      (JsString.matchesAny "/" ["about"; "info"] path, 35) ].

Definition titleKeywords (page : PageMetadata) : Q :=
  let t := JsString.toLowerCase (title page) in
  sumOfMatches
    [ (JsString.matchesAny "" ["home"; "dashboard"; "main"; "overview"] t,
       40);
      (JsString.matchesAny "" ["login"; "sign in"; "register"; "sign up"] t,
       40);
      (JsString.matchesAny "" ["checkout"; "cart"; "payment"] t, 40);
      (JsString.matchesAny "" ["product"; "item"; "detail"] t, 30);
      (JsString.matchesAny "" ["category"; "collection"] t, 25) ].

Definition base : Q := 10.

(** The additive factors other than the base. *)
Definition additiveFactors (u : string) (page : PageMetadata)
           (incomingLinks : OrderedMap.t nat)
           (noiseResult : NoiseReductionResult) : Q :=
  popularity u incomingLinks noiseResult
  + depthFactor page
  + outgoingRichness u noiseResult
  + urlPattern u
  + titleKeywords page.

End ScoreTable.

(** The key pages of a crawl, as [analyze] computes them. *)
Definition keyPagesOf (pages : Pages) : OrderedSet.t :=
  let noiseResult := NoiseReducer.reduceNoise pages in
  FlowAnalyzer.identifyKeyPages
    pages noiseResult (FlowAnalyzer.buildIncomingLinksMap pages noiseResult).

(* ================================================================== *)
(** ** Sample crawls *)

Module Samples.

Definition link (h t : string) (pos : LinkPosition) : Link :=
  mkLink h t pos "".

Definition page (u t : string) (d : Z) (links : list Link)
  : string * PageMetadata :=
  (u, mkPage u t d links 0).

(** A two-page site whose pages both link to the about page. *)
Definition aboutSite : Pages :=
  [ page "https://a.com/about" "About us" 1
         [link "https://a.com/about" "About" HEADER];
    page "https://a.com/team" "Team" 1
         [link "https://a.com/about" "About" HEADER] ].

(** One page naming the same target in its footer and in its content. *)
Definition footerAndContent : Pages :=
  [ page "https://a.com/" "Welcome" 0
         [link "https://a.com/terms" "Terms" FOOTER;
          link "https://a.com/terms" "our terms" CONTENT] ].

(** A page that links twice to another one and once to itself. *)
Definition repeatedLinks : Pages :=
  [ page "https://a.com/" "Welcome" 0
         [link "https://a.com/shop" "Shop" CONTENT;
          link "https://a.com/shop" "Shop now" CONTENT;
          link "https://a.com/" "Top" CONTENT];
    page "https://a.com/shop" "Shop" 1 [] ].

(** A shop whose front page reaches the catalogue through an image link
    without text and through a text link. *)
Definition imageLinkShop : Pages :=
  [ page "https://shop.com/" "Welcome" 0
         [link "https://shop.com/products" "" CONTENT;
          link "https://shop.com/products" "Shop" CONTENT];
    page "https://shop.com/products" "Products" 1 [] ].

(** A documentation site whose page names hold a double colon. *)
Definition moduleDocs : Pages :=
  [ page "https://metacpan.org/" "Search the CPAN" 0
         [link "https://metacpan.org/pod/Moose::Manual" "Moose" CONTENT];
    page "https://metacpan.org/pod/Moose::Manual" "Moose::Manual" 1 [] ].

Fixpoint repeatChar (c : ascii) (n : nat) : string :=
  match n with
  | O => EmptyString
  | S k => String c (repeatChar c k)
  end.

(** [n] pages at depth 0 without links, [https://a.com/x], [.../xx], ... *)
Definition shallowPages (n : nat) : Pages :=
  map (fun i => let u := ("https://a.com/" ++ repeatChar "x" i)%string in
                page u "" 0 [])
      (seq 1 n).

(** A crawl of 97 pages that starts on a deep page. *)
Definition deepStart : Pages :=
  page "https://a.com/start" "" 6 [] :: shallowPages 96.

(** Forty pages, the start page the best of them. *)
Definition fortyPages : Pages :=
  page "https://a.com/home" "Home" 0 [] :: shallowPages 39.

End Samples.

(* ================================================================== *)
(** ** More sample crawls *)

Module Fixtures.

(** A front page with a content link, a mail link and a footer link, and
    the two pages it leads to. *)
Definition contactSite : Pages :=
  [ Samples.page "https://a.com/" "Welcome" 0
      [ Samples.link "https://a.com/blog" "Blog" CONTENT;
        Samples.link "mailto:team@a.com" "Write to us" CONTENT;
        Samples.link "https://a.com/blog" "Read the blog" CONTENT;
        Samples.link "https://a.com/imprint" "Imprint" FOOTER;
        Samples.link "https://a.com/pricing" "Pricing" CONTENT ];
    Samples.page "https://a.com/blog" "Blog" 1
      [ Samples.link "https://a.com/" "Home" HEADER;
        Samples.link "https://a.com/pricing" "See the prices" CONTENT ];
    Samples.page "https://a.com/pricing" "Pricing" 1
      [ Samples.link "https://a.com/" "Home" HEADER;
        Samples.link "https://a.com/" "Back" CONTENT ] ].

End Fixtures.

(* ================================================================== *)
(** ** Vocabulary for the flow graph *)

(** The node [buildNodes] makes for the page stored under [u]. *)
Definition nodeFor (u : string) (page : PageMetadata) : FlowNode :=
  mkFlowNode u (FlowAnalyzer.generateNodeLabel u (title page)) u
             (FlowAnalyzer.inferNodeType u (title page))
             (mkNodeMetadata (depth page) (title page)
                             (UrlUtils.getPathSegments u)).

(** What one key page contributes to the node map of [buildNodes]. *)
Definition nodeEntries (pages : Pages) (u : string)
  : list (string * FlowNode) :=
  match OrderedMap.get u pages with
  | Some page => [(u, nodeFor u page)]
  | None => []
  end.

(** The key under which [buildEdges] counts the links from [sourceUrl] to
    [target]. *)
Definition edgeKey (sourceUrl target : string) : string :=
  (sourceUrl ++ "::" ++ target)%string.

(** The link occurrences that make edges, in the order [buildEdges] reads
    them: the links of the cleaned pages that are key pages, to key pages,
    each with the url of its page. *)
Definition qualifyingLinks (keyPages : OrderedSet.t) (cleaned : Pages)
  : list (string * Link) :=
  flat_map
    (fun entry : string * PageMetadata =>
       if OrderedSet.has (fst entry) keyPages
       then map (pair (fst entry))
                (filter (fun link => OrderedSet.has (href link) keyPages)
                        (outgoingLinks (snd entry)))
       else [])
    cleaned.

(** The anchor texts of the qualifying links counted under [key], in
    reading order. *)
Definition textsFor (key : string) (links : list (string * Link))
  : list string :=
  map (fun e => text (snd e))
      (filter (fun e => String.eqb (edgeKey (fst e) (href (snd e))) key)
              links).

(** The label kept when a further link with text [t] is read. *)
Definition keepLabel (current t : string) : string :=
  if JsString.truthy t
     && (0 <? String.length t)
     && (String.length t <? String.length current)
  then t
  else current.

(** The label of an edge whose links carry [texts], first link first. *)
Definition pickLabel (texts : list string) : string :=
  match texts with
  | [] => ""
  | t :: later => fold_left keepLabel later t
  end.

(** The sum of the weights of a list of edges. *)
Definition totalWeight (es : list FlowEdge) : nat :=
  fold_right (fun e sum => weight e + sum) 0 es.

(** The sum of the counts kept in an edge map. *)
Definition totalCount (m : OrderedMap.t FlowAnalyzer.EdgeData) : nat :=
  fold_right (fun e sum => FlowAnalyzer.count (snd e) + sum) 0 m.

(* ================================================================== *)
(** ** Vocabulary for link frequencies *)

(** The pages that hold at least one link to [h] (a page that links to
    itself included). *)
Definition pagesLinkingTo (h : string) (pages : Pages)
  : list (string * PageMetadata) :=
  filter (fun entry : string * PageMetadata =>
            existsb (fun link => String.eqb (href link) h)
                    (outgoingLinks (snd entry)))
         pages.

(** [if (!m.has(k)) m.set(k, new Set()); m.get(k)!.add(x)], the step both
    [identifyHubPages] and [identifyGlobalNavigation] take per link. *)
Definition addTo (k x : string) (m : OrderedMap.t OrderedSet.t)
  : OrderedMap.t OrderedSet.t :=
  OrderedMap.modify
    k (OrderedSet.add x)
    (if negb (OrderedMap.has k m)
     then OrderedMap.set k OrderedSet.empty m
     else m).

(** Every link of the crawl as a pair (target href, url of its page), in
    reading order. *)
Definition linkPairs (pages : Pages) : list (string * string) :=
  flat_map (fun entry : string * PageMetadata =>
              map (fun link => (href link, fst entry))
                  (outgoingLinks (snd entry)))
           pages.

(** The map from each href to the set of pages that link to it. *)
Definition linkSources (pages : Pages) : OrderedMap.t OrderedSet.t :=
  fold_left (fun m (e : string * string) => addTo (fst e) (snd e) m)
            (linkPairs pages) OrderedMap.empty.

(** The links already seen on a page have the page among their sources. *)
Definition seenAreCounted (pageUrl : string) (seen : OrderedSet.t)
           (freq : OrderedMap.t OrderedSet.t) : Prop :=
  forall k, In k seen ->
            exists s, OrderedMap.get k freq = Some s /\ In pageUrl s.

(* ================================================================== *)
(** ** TextFlowGenerator *)

(** [`${n}`] for a count: its decimal digits. *)
Definition natToString (n : nat) : string :=
  NilEmpty.string_of_uint (Nat.to_uint n).

(** The value of the enumeration [NodeType], as the flow carries it. *)
Definition nodeTypeName (t : NodeType.t) : string :=
  match t with
  | NodeType.ENTRY => "entry"
  | NodeType.CONTENT => "content"
  | NodeType.FORM => "form"
  | NodeType.TRANSACTION => "transaction"
  | NodeType.EXIT => "exit"
  end.

Module TextFlowGenerator.

(** [s.repeat(n)] *)
Fixpoint repeatString (s : string) (n : nat) : string :=
  match n with
  | O => ""
  | S k => (s ++ repeatString s k)%string
  end.

(** The array [lines] and the set [visited] that the trace shares with its
    recursive calls. *)
Definition TraceState : Type := (list string * OrderedSet.t)%type.

(** Helper: Trace path from a node recursively.  The recursion of the
    source is bounded by the set [visited] only; here [fuel] bounds its
    depth and [None] says that the fuel ran out. *)
Fixpoint tracePathFromNode (fuel : nat) (flow : UserFlow) (node : FlowNode)
         (indent : nat) (st : TraceState) : option TraceState :=
  match fuel with
  | O => None
  | S fuel' =>
      let '(lines, visited) := st in
      if OrderedSet.has (id node) visited then Some st
      else
        let visited := OrderedSet.add (id node) visited in
        let outgoing :=
          filter (fun e => String.eqb (source e) (id node)) (edges flow) in
        fold_left
          (fun (acc : option TraceState) (edge : FlowEdge) =>
             match acc with
             | None => None
             | Some (lines, visited) =>
                 match find (fun n => String.eqb (id n) (target edge))
                            (nodes flow) with
                 | Some target =>
                     let targetLabel := label target in
                     let prefix :=
                       (repeatString "  " indent ++ "↓")%string in
                     let label :=
                       if JsString.truthy (edge_label edge)
                       then (" [" ++ edge_label edge ++ "]")%string
                       else ""%string in
                     tracePathFromNode
                       fuel' flow target (indent + 1)
                       (lines ++ [(prefix ++ " " ++ targetLabel
                                     ++ label)%string],
                        visited)
                 | None => Some (lines, visited)
                 end
             end)
          outgoing (Some (lines, visited))
  end.

(** The lines that open every outline. *)
Definition headerLines (flow : UserFlow) : list string :=
  [ "═══════════════════════════════════════════════";
    "         INTELLIGENT USER FLOW MAP";
    "═══════════════════════════════════════════════";
    "";
    ("Total Nodes: " ++ natToString (List.length (nodes flow)))%string;
    ("Total Edges: " ++ natToString (List.length (edges flow)))%string;
    ("Start URL: " ++ startUrl (flow_metadata flow))%string;
    "";
    "───────────────────────────────────────────────";
    "USER FLOWS:";
    "───────────────────────────────────────────────";
    "" ]%string.

(** Find entry points *)
Definition entryNodes (flow : UserFlow) : list FlowNode :=
  filter (fun n => String.eqb (nodeTypeName (type n)) "entry") (nodes flow).

(** Body of [entryNodes.forEach((entry, index) => ...)]: the state is the
    array [lines] and the index of the entry. *)
Definition traceEntry (fuel : nat) (flow : UserFlow)
           (acc : option (list string * nat)) (entry : FlowNode)
  : option (list string * nat) :=
  match acc with
  | None => None
  | Some (lines, index) =>
      let lines :=
        lines ++ [("Flow " ++ natToString (index + 1) ++ ": "
                     ++ label entry)%string] in
      match tracePathFromNode fuel flow entry 1 (lines, OrderedSet.empty) with
      | None => None
      | Some (lines, _) => Some (lines ++ [""%string], index + 1)
      end
  end.

(** The lines of the outline, with the recursion bounded by [fuel]. *)
Definition outlineLines (fuel : nat) (flow : UserFlow)
  : option (list string) :=
  match fold_left (traceEntry fuel flow) (entryNodes flow)
                  (Some (headerLines flow, 0)) with
  | None => None
  | Some (lines, _) => Some lines
  end.

Definition newline : string := String (ascii_of_nat 10) "".

(** Generate simple text outline.  A trace enters a node at most once, so
    one more unit of fuel than there are nodes is enough. *)
Definition generateTextOutline (flow : UserFlow) : option string :=
  match outlineLines (S (List.length (nodes flow))) flow with
  | None => None
  | Some lines => Some (JsString.join newline lines)
  end.

(** Helper: Get icon for node type *)
Definition getNodeIcon (type : string) : string :=
  if String.eqb type "entry" then "🏠"
  else if String.eqb type "form" then "📝"
  else if String.eqb type "transaction" then "💳"
  else if String.eqb type "exit" then "✓"
  else "📄".

(** [s.replace(/[^a-zA-Z0-9]/g, "_")] *)
Fixpoint replaceNonAlphanumeric (s : string) : string :=
  match s with
  | EmptyString => EmptyString
  | String c r =>
      String (if URL.isAlnum c then c else "_"%char)
             (replaceNonAlphanumeric r)
  end.

(** Helper: Sanitize ID for diagram formats *)
Definition sanitizeId (id : string) : string :=
  ("node_" ++ String.substring 0 30 (replaceNonAlphanumeric id))%string.

End TextFlowGenerator.

(* ================================================================== *)
(** ** FlowFormatter *)

Record VisualizationNode : Type := mkVisualizationNode {
  vis_id : string;
  vis_label : string;
  vis_url : string;
  vis_type : string;
  vis_depth : Z;
  vis_pageTitle : string
}.

Record VisualizationEdge : Type := mkVisualizationEdge {
  vis_edge_id : string;
  vis_source : string;
  vis_target : string;
  vis_weight : nat;
  vis_edge_label : string
}.

Record VisualizationMetadata : Type := mkVisualizationMetadata {
  vis_startUrl : string;
  vis_totalPages : nat;
  vis_noiseFiltered : nat;
  vis_crawlTimestamp : string;
  crawlDuration : Z
}.

Record Statistics : Type := mkStatistics {
  nodesByType : OrderedMap.t nat;
  averageDepth : Q;
  maxDepth : Z;
  totalEdges : nat
}.

Record FlowVisualizationOutput : Type := mkFlowVisualizationOutput {
  graph_nodes : list VisualizationNode;
  graph_edges : list VisualizationEdge;
  vis_metadata : VisualizationMetadata;
  statistics : Statistics
}.

Module FlowFormatter.

(** [xs.map((x, index) => f(x, index))] *)
Fixpoint mapWithIndex {A B : Type} (f : A -> nat -> B) (index : nat)
         (xs : list A) : list B :=
  match xs with
  | [] => []
  | x :: r => f x index :: mapWithIndex f (S index) r
  end.

(** The three running values of the statistics loop. *)
Record DepthStats : Type := mkDepthStats {
  byType : OrderedMap.t nat;
  totalDepth : Z;
  runningMaxDepth : Z
}.

(** Body of [flow.nodes.forEach] in [format]. *)
Definition countNode (st : DepthStats) (node : FlowNode) : DepthStats :=
  let typeName := nodeTypeName (type node) in
  mkDepthStats
    (OrderedMap.set typeName
                    (match OrderedMap.get typeName (byType st) with
                     | Some n => n
                     | None => 0
                     end + 1)
                    (byType st))
    (totalDepth st + node_depth (metadata node))
    (Z.max (runningMaxDepth st) (node_depth (metadata node))).

Section Format.
(** [new Date(t).toISOString()] *)
Variable toISOString : Z -> string.
(** [Math.round((totalDepth / count) * 100) / 100], the average depth
    rounded to two decimals in the arithmetic of the platform. *)
Variable roundedAverage : Z -> nat -> Q.

(** Convert internal user flow to visualization-friendly format *)
Definition format (flow : UserFlow) (crawlDuration : Z)
  : FlowVisualizationOutput :=
  let flowNodes := nodes flow in
  let nodes :=
    map (fun node =>
           mkVisualizationNode (id node) (label node) (node_url node)
                               (nodeTypeName (type node))
                               (node_depth (metadata node))
                               (pageTitle (metadata node)))
        flowNodes in
  let edges :=
    mapWithIndex
      (fun edge index =>
         mkVisualizationEdge ("edge-" ++ natToString index)%string
                             (source edge) (target edge) (weight edge)
                             (edge_label edge))
      0 (edges flow) in
  (* Calculate statistics *)
  let stats := fold_left countNode flowNodes (mkDepthStats [] 0 0) in
  let averageDepth :=
    if 0 <? List.length flowNodes
    then roundedAverage (totalDepth stats) (List.length flowNodes)
    else 0%Q in
  mkFlowVisualizationOutput
    nodes edges
    (mkVisualizationMetadata
       (startUrl (flow_metadata flow))
       (totalPages (flow_metadata flow))
       (noiseFiltered (flow_metadata flow))
       (toISOString (crawlTimestamp (flow_metadata flow)))
       crawlDuration)
    (mkStatistics (byType stats) averageDepth (runningMaxDepth stats)
                  (List.length edges)).
End Format.

End FlowFormatter.

(* ================================================================== *)
(** ** Vocabulary for the text outline *)

(** The nodes of the flow that a trace has not entered yet. *)
Definition unvisited (flow : UserFlow) (visited : OrderedSet.t) : nat :=
  List.length
    (filter (fun n => negb (OrderedSet.has (id n) visited)) (nodes flow)).

(** The edges of the flow that leave an entered node. *)
Definition edgesFrom (flow : UserFlow) (visited : OrderedSet.t) : nat :=
  List.length
    (filter (fun e => OrderedSet.has (source e) visited) (edges flow)).

(* ================================================================== *)
(** ** Vocabulary for the formatter *)

(** [byType[name] || 0] *)
Definition typeCount (name : string) (byType : OrderedMap.t nat) : nat :=
  match OrderedMap.get name byType with
  | Some n => n
  | None => 0
  end.

(** The nodes whose type has the name [name]. *)
Definition nodesNamed (name : string) (ns : list FlowNode) : list FlowNode :=
  filter (fun n => String.eqb (nodeTypeName (type n)) name) ns.

(** What the formatter copies from an edge. *)
Definition edgeContent (e : FlowEdge) : string * string * nat * string :=
  (source e, target e, weight e, edge_label e).

Definition visEdgeContent (e : VisualizationEdge)
  : string * string * nat * string :=
  (vis_source e, vis_target e, vis_weight e, vis_edge_label e).

(** [noiseCategories.get(h) || []] *)
Definition categoriesOf (h : string) (categories : OrderedMap.t (list string))
  : list string :=
  match OrderedMap.get h categories with
  | Some tags => tags
  | None => []
  end.

(* ------------------------------------------------------------------ *)
(** *** Vocabulary for the URL utilities *)

(** Every character of [s] passes [ok]. *)
Definition allChars (ok : ascii -> bool) (s : string) : bool :=
  forallb ok (list_ascii_of_string s).

(** The character is none of [stops]. *)
Definition noneOf (stops : string) (c : ascii) : bool :=
  negb (URL.inString c stops).

(** The characters of a host. *)
Definition hostChar (c : ascii) : bool :=
  JsString.isLower c || URL.isDigit c || Ascii.eqb c "-" || Ascii.eqb c ".".

(** The characters that the form encoding writes. *)
Definition formChar (c : ascii) : bool :=
  URL.isAlnum c || URL.inString c "*-._+%".

(** The records that [URL.parse] returns. *)
Definition wellFormed (u : URL.t) : bool :=
  (String.eqb (URL.scheme u) "http" || String.eqb (URL.scheme u) "https")
  && URL.hostOk (URL.host u)
  && match URL.port u with
     | Some n =>
         (n <=? 65535)%N && negb (n =? URL.defaultPort (URL.scheme u))%N
     | None => true
     end
  && URL.pathOk (URL.path u)
  && JsString.startsWith "/" (URL.path u)
  && match URL.query u with
     | Some q => URL.queryOk q
     | None => true
     end.

(** A name and a value of ASCII text. *)
Definition asciiPair (kv : string * string) : bool :=
  URL.isAscii (fst kv) && URL.isAscii (snd kv).

(** The query written from a list of parameters: none for no parameter. *)
Definition queryOf (ps : list (string * string)) : option string :=
  match ps with
  | [] => None
  | _ => Some (URL.serializeParams ps)
  end.

(** The path without its trailing slash. *)
Definition trimmedPath (p : string) : string :=
  if JsString.endsWith "/" p && (1 <? String.length p)
  then JsString.dropLast p
  else p.

(** The URL whose href [normalize] returns for a parsed URL [u]. *)
Definition normalized (localeCompare : string -> string -> comparison)
           (u : URL.t) : URL.t :=
  URL.mk (URL.scheme u) (URL.host u) (URL.port u)
         (trimmedPath (URL.path u))
         (queryOf (stableSort (UrlUtils.keyAfter localeCompare)
                              (URL.searchParams u)))
         None.

(* ------------------------------------------------------------------ *)
(** *** Vocabulary for the repetitive links *)

(** [link.text.toLowerCase().trim()] *)
Definition normalizedText (link : Link) : string :=
  JsString.trim (JsString.toLowerCase (text link)).

(** The texts that [identifyRepetitiveLinks] passes over: the empty one and
    those of fewer than three characters. *)
Definition shortText (t : string) : bool :=
  negb (JsString.truthy t) || (String.length t <? 3).

(** Every link of the crawl whose text is not passed over, as a pair
    (normalized text, href), in reading order. *)
Definition textPairs (pages : Pages) : list (string * string) :=
  flat_map (fun page : PageMetadata =>
              map (fun link => (normalizedText link, href link))
                  (filter (fun link => negb (shortText (normalizedText link)))
                          (outgoingLinks page)))
           (OrderedMap.values pages).

(** The hrefs that carry the text [t], each once. *)
Definition hrefsWithText (t : string) (pages : Pages) : OrderedSet.t :=
  OrderedSet.ofList
    (map snd (filter (fun e : string * string => String.eqb (fst e) t)
                     (textPairs pages))).

(* ================================================================== *)
(** ** Crawl configuration

    A number of a configuration is a JavaScript number: a finite value (the
    rational that the double stands for), an infinity or NaN; a difference
    is taken exactly, as it is on the integer milliseconds of a clock.  An
    optional property of an object is absent, present with the value
    [undefined], or present with a value, and values are taken at their
    TypeScript types.  A regular expression is its [test] function, for an
    expression without the [g] and [y] flags, on which [test] keeps no
    state. *)

Module JsNumber.

Inductive t : Type :=
| Finite (q : Q)
| Infinity (negative : bool)
| NaN.

(** Truthiness of a number: [0] and [NaN] are falsy. *)
Definition truthy (n : t) : bool :=
  match n with
  | Finite q => negb (Qeq_bool q 0)
  | Infinity _ => true
  | NaN => false
  end.

(** [a < b] *)
Definition lt (a b : t) : bool :=
  match a, b with
  | NaN, _ | _, NaN => false
  | Finite x, Finite y => negb (Qle_bool y x)
  | Finite _, Infinity negative => negb negative
  | Infinity negative, Finite _ => negative
  | Infinity n1, Infinity n2 => n1 && negb n2
  end.

(** [a > b] *)
Definition gt (a b : t) : bool := lt b a.

(** [a - b] *)
Definition sub (a b : t) : t :=
  match a, b with
  | NaN, _ | _, NaN => NaN
  | Finite x, Finite y => Finite (x - y)
  | Finite _, Infinity negative => Infinity (negb negative)
  | Infinity negative, Finite _ => Infinity negative
  | Infinity n1, Infinity n2 => if Bool.eqb n1 n2 then NaN else Infinity n1
  end.

Definition ofZ (z : Z) : t := Finite (inject_Z z).

End JsNumber.

(** An optional property of an object. *)
Inductive Field (X : Type) : Type :=
| Absent
| Undefined
| Value (x : X).
Arguments Absent {X}.
Arguments Undefined {X}.
Arguments Value {X} x.

(** [o.p]: [undefined] unless the property holds a value. *)
Definition read {X : Type} (f : Field X) : option X :=
  match f with
  | Value x => Some x
  | _ => None
  end.

(** The property [p] of [{...defaults, ...given}]. *)
Definition spread {X : Type} (default given : Field X) : Field X :=
  match given with
  | Absent => default
  | _ => given
  end.

(** The property [p] of [{p: given.p ?? fallback}]. *)
Definition orElse {X : Type} (given : Field X) (fallback : X) : Field X :=
  match read given with
  | Some x => Value x
  | None => Value fallback
  end.

(** The property [p] of [{p: given.p}]: present, whatever [given] holds. *)
Definition copied {X : Type} (given : Field X) : Field X :=
  match read given with
  | Some x => Value x
  | None => Undefined
  end.

(** [pattern.test] *)
Definition RegExp : Type := string -> bool.

Module Credentials.
Record t : Type := mk {
  username : string;
  password : string;
  loginUrl : Field string;
  usernameSelector : Field string;
  passwordSelector : Field string;
  submitSelector : Field string
}.
End Credentials.

Module Viewport.
Record t : Type := mk {
  width : JsNumber.t;
  height : JsNumber.t
}.
End Viewport.

Module Constraints.
Record t : Type := mk {
  (* Time constraints *)
  maxCrawlDurationMs : Field JsNumber.t;
  requestTimeoutMs : Field JsNumber.t;
  navigationTimeoutMs : Field JsNumber.t;
  (* Rate limiting *)
  maxConcurrency : Field JsNumber.t;
  minTimeBetweenRequestsMs : Field JsNumber.t;
  maxRequestsPerMinute : Field JsNumber.t;
  (* URL filtering *)
  allowedDomains : Field (list string);
  blockedDomains : Field (list string);
  allowedPathPatterns : Field (list RegExp);
  blockedPathPatterns : Field (list RegExp);
  (* Content filtering *)
  excludeFileExtensions : Field (list string);
  includeOnlyContentTypes : Field (list string);
  (* Link filtering *)
  maxLinksPerPage : Field JsNumber.t;
  followExternalLinks : Field bool;
  (* Browser behavior *)
  headless : Field bool;
  userAgent : Field string;
  viewport : Field Viewport.t;
  (* Retry behavior *)
  maxRetries : Field JsNumber.t;
  retryStatusCodes : Field (list JsNumber.t)
}.
End Constraints.

(** [Partial<CrawlConfig>]; a [CrawlConfig] is one whose [startUrl],
    [maxDepth] and [maxPages] hold a value. *)
Module CrawlConfig.
Record t : Type := mk {
  startUrl : Field string;
  maxDepth : Field JsNumber.t;
  maxPages : Field JsNumber.t;
  credentials : Field Credentials.t;
  (* Advanced constraints *)
  constraints : Field Constraints.t;
  (* Legacy fields for backward compatibility *)
  timeout : Field JsNumber.t;
  userAgent : Field string;
  respectRobotsTxt : Field bool
}.
End CrawlConfig.

Module CrawlConfigValidator.

Definition DEFAULT_CONSTRAINTS : Constraints.t :=
  Constraints.mk
    (Value (JsNumber.ofZ 300000))       (* 5 minutes *)
    (Value (JsNumber.ofZ 30000))        (* 30 seconds *)
    (Value (JsNumber.ofZ 30000))        (* 30 seconds *)
    (Value (JsNumber.ofZ 3))
    (Value (JsNumber.ofZ 100))
    (Value (JsNumber.ofZ 60))
    Absent
    Absent
    Absent
    Absent
    (Value [ ".pdf"; ".zip"; ".exe"; ".dmg"; ".jpg"; ".jpeg"; ".png";
             ".gif"; ".svg"; ".ico" ])
    Absent
    (Value (JsNumber.ofZ 50))
    (Value false)
    (Value true)
    Absent
    Absent
    (Value (JsNumber.ofZ 2))
    (Value (map JsNumber.ofZ [429; 500; 502; 503; 504]%Z)).

(** [{...defaults, ...given}] *)
Definition spreadConstraints (defaults given : Constraints.t)
  : Constraints.t :=
  Constraints.mk
    (spread (Constraints.maxCrawlDurationMs defaults)
            (Constraints.maxCrawlDurationMs given))
    (spread (Constraints.requestTimeoutMs defaults)
            (Constraints.requestTimeoutMs given))
    (spread (Constraints.navigationTimeoutMs defaults)
            (Constraints.navigationTimeoutMs given))
    (spread (Constraints.maxConcurrency defaults)
            (Constraints.maxConcurrency given))
    (spread (Constraints.minTimeBetweenRequestsMs defaults)
            (Constraints.minTimeBetweenRequestsMs given))
    (spread (Constraints.maxRequestsPerMinute defaults)
            (Constraints.maxRequestsPerMinute given))
    (spread (Constraints.allowedDomains defaults)
            (Constraints.allowedDomains given))
    (spread (Constraints.blockedDomains defaults)
            (Constraints.blockedDomains given))
    (spread (Constraints.allowedPathPatterns defaults)
            (Constraints.allowedPathPatterns given))
    (spread (Constraints.blockedPathPatterns defaults)
            (Constraints.blockedPathPatterns given))
    (spread (Constraints.excludeFileExtensions defaults)
            (Constraints.excludeFileExtensions given))
    (spread (Constraints.includeOnlyContentTypes defaults)
            (Constraints.includeOnlyContentTypes given))
    (spread (Constraints.maxLinksPerPage defaults)
            (Constraints.maxLinksPerPage given))
    (spread (Constraints.followExternalLinks defaults)
            (Constraints.followExternalLinks given))
    (spread (Constraints.headless defaults)
            (Constraints.headless given))
    (spread (Constraints.userAgent defaults)
            (Constraints.userAgent given))
    (spread (Constraints.viewport defaults)
            (Constraints.viewport given))
    (spread (Constraints.maxRetries defaults)
            (Constraints.maxRetries given))
    (spread (Constraints.retryStatusCodes defaults)
            (Constraints.retryStatusCodes given)).

(** [limit && limit < bound] *)
Definition below (limit : Field JsNumber.t) (bound : Z) : bool :=
  match read limit with
  | Some n => JsNumber.truthy n && JsNumber.lt n (JsNumber.ofZ bound)
  | None => false
  end.

(** [validateConstraints]: the message of the error it throws, if any. *)
Definition validateConstraints (constraints : Constraints.t)
  : option string :=
  if below (Constraints.maxConcurrency constraints) 1
  then Some "maxConcurrency must be at least 1"
  else if below (Constraints.maxCrawlDurationMs constraints) 1000
  then Some "maxCrawlDurationMs must be at least 1000ms (1 second)"
  else if below (Constraints.maxLinksPerPage constraints) 1
  then Some "maxLinksPerPage must be at least 1"
  else None.

(** [validate]: the validated configuration, or on the left the message of
    the error thrown. *)
Definition validate (config : CrawlConfig.t) : string + CrawlConfig.t :=
  match read (CrawlConfig.startUrl config) with
  | None => inl "startUrl is required"
  | Some startUrl =>
      if negb (JsString.truthy startUrl)
      then inl "startUrl is required"
      else
        match URL.parse startUrl with
        | None => inl "startUrl must be a valid URL"
        | Some _ =>
            let merged :=
              match read (CrawlConfig.constraints config) with
              | Some given => spreadConstraints DEFAULT_CONSTRAINTS given
              | None => DEFAULT_CONSTRAINTS
              end in
            let validated :=
              CrawlConfig.mk
                (Value startUrl)
                (orElse (CrawlConfig.maxDepth config) (JsNumber.ofZ 3))
                (orElse (CrawlConfig.maxPages config) (JsNumber.ofZ 50))
                (copied (CrawlConfig.credentials config))
                (Value merged)
                (orElse (CrawlConfig.timeout config) (JsNumber.ofZ 30000))
                (orElse (CrawlConfig.userAgent config)
                        "IntelligentUserFlowMapper/1.0")
                (orElse (CrawlConfig.respectRobotsTxt config) true) in
            (* Validate constraints *)
            match validateConstraints merged with
            | Some message => inl message
            | None => inr validated
            end
        end
  end.

End CrawlConfigValidator.

Module CrawlConstraintsImpl.

(** [hostname === domain || hostname.endsWith("." + domain)] *)
Definition underDomain (hostname domain : string) : bool :=
  String.eqb hostname domain
  || JsString.endsWith ("." ++ domain)%string hostname.

(** [!flag] for an optional boolean. *)
Definition falsy (flag : option bool) : bool :=
  match flag with
  | Some b => negb b
  | None => true
  end.

Definition shouldCrawlUrl (config : CrawlConfig.t) (url : string) : bool :=
  match read (CrawlConfig.constraints config) with
  | None => true
  | Some constraints =>
      match URL.parse url with
      | None => false
      | Some urlObj =>
          (* Check file extensions *)
          let hasExcludedExtension :=
            match read (Constraints.excludeFileExtensions constraints) with
            | Some extensions =>
                existsb
                  (fun ext =>
                     JsString.endsWith
                       (JsString.toLowerCase ext)
                       (JsString.toLowerCase (URL.pathname urlObj)))
                  extensions
            | None => false
            end in
          if hasExcludedExtension then false
          else
            (* Check allowed domains *)
            let notAllowed :=
              match read (Constraints.allowedDomains constraints) with
              | Some domains =>
                  (0 <? List.length domains)
                  && negb (existsb (underDomain (URL.hostname urlObj))
                                   domains)
              | None => false
              end in
            if notAllowed then false
            else
              (* Check blocked domains *)
              let isBlocked :=
                match read (Constraints.blockedDomains constraints) with
                | Some domains =>
                    existsb (underDomain (URL.hostname urlObj)) domains
                | None => false
                end in
              if isBlocked then false
              else
                (* Check allowed path patterns *)
                let noAllowedPattern :=
                  match
                    read (Constraints.allowedPathPatterns constraints)
                  with
                  | Some patterns =>
                      (0 <? List.length patterns)
                      && negb (existsb
                                 (fun pattern : RegExp =>
                                    pattern (URL.pathname urlObj))
                                 patterns)
                  | None => false
                  end in
                if noAllowedPattern then false
                else
                  (* Check blocked path patterns *)
                  let matchesBlocked :=
                    match
                      read (Constraints.blockedPathPatterns constraints)
                    with
                    | Some patterns =>
                        existsb (fun pattern : RegExp =>
                                   pattern (URL.pathname urlObj))
                                patterns
                    | None => false
                    end in
                  if matchesBlocked then false else true
      end
  end.

Definition shouldFollowLink (config : CrawlConfig.t)
           (link fromUrl : string) : bool :=
  match read (CrawlConfig.constraints config) with
  | None => true
  | Some constraints =>
      match URL.parse link with
      | None => false
      | Some linkUrl =>
          match URL.parse fromUrl with
          | None => false
          | Some fromUrlObj =>
              (* Check if external link *)
              if falsy (read (Constraints.followExternalLinks constraints))
                 && negb (String.eqb (URL.hostname linkUrl)
                                     (URL.hostname fromUrlObj))
              then false
              else shouldCrawlUrl config link
          end
      end
  end.

Definition getRequestDelay (config : CrawlConfig.t) : JsNumber.t :=
  match read (CrawlConfig.constraints config) with
  | None => JsNumber.ofZ 0
  | Some constraints =>
      match read (Constraints.minTimeBetweenRequestsMs constraints) with
      | None => JsNumber.ofZ 0
      | Some delay =>
          if negb (JsNumber.truthy delay) then JsNumber.ofZ 0 else delay
      end
  end.

(** [now] is the value of [Date.now()]. *)
Definition hasExceededTimeLimit (config : CrawlConfig.t) (now : Z)
           (startTime : JsNumber.t) : bool :=
  match read (CrawlConfig.constraints config) with
  | None => false
  | Some constraints =>
      match read (Constraints.maxCrawlDurationMs constraints) with
      | None => false
      | Some limit =>
          if negb (JsNumber.truthy limit) then false
          else JsNumber.gt (JsNumber.sub (JsNumber.ofZ now) startTime) limit
      end
  end.

End CrawlConstraintsImpl.

(** The labels of [domain] end the labels of [hostname]: the host is the
    domain or one of its subdomains. *)
Definition labelSuffix (domain hostname : string) : Prop :=
  exists labels,
    JsString.split "." hostname = labels ++ JsString.split "." domain.

Module ConfigSamples.

(** The default constraints with one allowed and one blocked domain. *)
Definition docsRules : Constraints.t :=
  CrawlConfigValidator.spreadConstraints
    CrawlConfigValidator.DEFAULT_CONSTRAINTS
    (Constraints.mk Absent Absent Absent Absent Absent Absent
                    (Value ["a.com"]) (Value ["ads.a.com"])
                    Absent Absent Absent Absent Absent Absent Absent Absent
                    Absent Absent Absent).

Definition docsOnly : CrawlConfig.t :=
  CrawlConfig.mk (Value "https://a.com/") (Value (JsNumber.ofZ 3))
                 (Value (JsNumber.ofZ 50)) Undefined (Value docsRules)
                 (Value (JsNumber.ofZ 30000))
                 (Value "IntelligentUserFlowMapper/1.0") (Value true).

(** What a caller passes who only sets the start address and asks for no
    concurrency at all. *)
Definition noConcurrency : CrawlConfig.t :=
  CrawlConfig.mk (Value "https://a.com/") Absent Absent Absent
                 (Value
                    (Constraints.mk Absent Absent Absent
                                    (Value (JsNumber.ofZ 0))
                                    Absent Absent Absent Absent Absent Absent
                                    Absent Absent Absent Absent Absent Absent
                                    Absent Absent Absent))
                 Absent Absent Absent.

End ConfigSamples.

(* ------------------------------------------------------------------ *)
(** *** Vocabulary for the cleaned pages *)

(** The links of a page whose href is not in the noise set. *)
Definition keptLinks (noise : OrderedSet.t) (page : PageMetadata)
  : list Link :=
  filter (fun link => negb (OrderedSet.has (href link) noise))
         (outgoingLinks page).

(** The page map without the links of a noise set: every page under its
    key and in its place, with its other links in their order. *)
Definition withoutLinks (noise : OrderedSet.t) (pages : Pages) : Pages :=
  map (fun e : string * PageMetadata =>
         (fst e, withOutgoingLinks (snd e) (keptLinks noise (snd e))))
      pages.

(** The number of outgoing links of all pages. *)
Definition linkTotal (pages : Pages) : nat :=
  list_sum (map (fun e : string * PageMetadata =>
                   List.length (outgoingLinks (snd e)))
                pages).

(* ------------------------------------------------------------------ *)
(** *** Vocabulary for the node labels *)



(* ================================================================== *)
(** * Properties *)

(** ** Ordered sets *)

Lemma OrderedSet_has_In (x : string) (s : OrderedSet.t) :
  OrderedSet.has x s = true <-> In x s.
Proof.
  unfold OrderedSet.has. rewrite existsb_exists. split.
  - intros [y [Hy Heq]]. apply String.eqb_eq in Heq. now subst.
  - intros H. exists x. split; [assumption | apply String.eqb_refl].
Qed.

Lemma OrderedSet_has_not_In (x : string) (s : OrderedSet.t) :
  OrderedSet.has x s = false <-> ~ In x s.
Proof.
  rewrite <- OrderedSet_has_In. destruct (OrderedSet.has x s); intuition congruence.
Qed.

Lemma OrderedSet_add_In (x y : string) (s : OrderedSet.t) :
  In y (OrderedSet.add x s) <-> y = x \/ In y s.
Proof.
  unfold OrderedSet.add. destruct (OrderedSet.has x s) eqn:E.
  - apply OrderedSet_has_In in E. split; [tauto | intros [-> | H]; assumption].
  - rewrite in_app_iff. simpl. intuition.
Qed.

Lemma OrderedSet_addAll_In (xs : list string) (y : string) (s : OrderedSet.t) :
  In y (OrderedSet.addAll xs s) <-> In y s \/ In y xs.
Proof.
  unfold OrderedSet.addAll. revert s.
  induction xs as [| x xs IH]; intros s; simpl.
  - tauto.
  - rewrite IH, OrderedSet_add_In. intuition.
Qed.

Lemma OrderedSet_add_NoDup (x : string) (s : OrderedSet.t) :
  NoDup s -> NoDup (OrderedSet.add x s).
Proof.
  intros H. unfold OrderedSet.add. destruct (OrderedSet.has x s) eqn:E.
  - assumption.
  - apply OrderedSet_has_not_In in E.
    apply NoDup_app; [assumption | repeat constructor; simpl; tauto |].
    intros a Ha [<- | []]. exact (E Ha).
Qed.

Lemma OrderedSet_addAll_NoDup (xs : list string) (s : OrderedSet.t) :
  NoDup s -> NoDup (OrderedSet.addAll xs s).
Proof.
  unfold OrderedSet.addAll. revert s.
  induction xs as [| x xs IH]; intros s H; simpl.
  - assumption.
  - apply IH, OrderedSet_add_NoDup, H.
Qed.

(** Adding elements that are new and distinct appends them in order. *)
Lemma OrderedSet_addAll_fresh (xs : list string) (s : OrderedSet.t) :
  NoDup (s ++ xs) -> OrderedSet.addAll xs s = s ++ xs.
Proof.
  unfold OrderedSet.addAll. revert s.
  induction xs as [| x xs IH]; intros s H; simpl.
  - now rewrite app_nil_r.
  - assert (Hx : OrderedSet.has x s = false).
    { apply OrderedSet_has_not_In. intros Hin.
      apply NoDup_remove_2 in H. apply H. apply in_or_app. now left. }
    unfold OrderedSet.add at 2. rewrite Hx.
    rewrite IH; rewrite <- app_assoc; simpl; [reflexivity | assumption].
Qed.

Lemma OrderedSet_ofList_NoDup (xs : list string) :
  NoDup xs -> OrderedSet.ofList xs = xs.
Proof.
  intros H. unfold OrderedSet.ofList, OrderedSet.empty.
  now rewrite OrderedSet_addAll_fresh.
Qed.

Lemma OrderedSet_add_size (x : string) (s : OrderedSet.t) :
  OrderedSet.size s <= OrderedSet.size (OrderedSet.add x s)
  /\ OrderedSet.size (OrderedSet.add x s) <= S (OrderedSet.size s).
Proof.
  unfold OrderedSet.add, OrderedSet.size.
  destruct (OrderedSet.has x s); [lia |].
  rewrite length_app. simpl. lia.
Qed.

(** A set filled page by page holds what the pages contribute. *)
Lemma In_fold_addAll {A : Type} (f : A -> list string) (ps : list A)
      (s : OrderedSet.t) (h : string) :
  In h (fold_left (fun acc p => OrderedSet.addAll (f p) acc) ps s)
  <-> In h s \/ In h (flat_map f ps).
Proof.
  revert s. induction ps as [| p ps IH]; intros s; simpl.
  - tauto.
  - rewrite IH, OrderedSet_addAll_In, in_app_iff. tauto.
Qed.

Lemma NoDup_fold_addAll {A : Type} (f : A -> list string) (ps : list A)
      (s : OrderedSet.t) :
  NoDup s -> NoDup (fold_left (fun acc p => OrderedSet.addAll (f p) acc) ps s).
Proof.
  revert s. induction ps as [| p ps IH]; intros s H; simpl.
  - assumption.
  - apply IH, OrderedSet_addAll_NoDup, H.
Qed.

(** ** Ordered maps *)

Lemma OrderedMap_get_set {V : Type} (k k' : string) (v : V)
      (m : OrderedMap.t V) :
  OrderedMap.get k (OrderedMap.set k' v m)
  = if String.eqb k k' then Some v else OrderedMap.get k m.
Proof.
  induction m as [| [k0 v0] m IH]; simpl.
  - reflexivity.
  - destruct (String.eqb k' k0) eqn:E0; simpl.
    + apply String.eqb_eq in E0. subst k0.
      destruct (String.eqb k k'); reflexivity.
    + rewrite IH. destruct (String.eqb k k0) eqn:E1; [| reflexivity].
      apply String.eqb_eq in E1. subst k0.
      destruct (String.eqb k k') eqn:E2; [| reflexivity].
      apply String.eqb_eq in E2. subst k'.
      rewrite String.eqb_refl in E0. discriminate.
Qed.

Lemma OrderedMap_get_None {V : Type} (k : string) (m : OrderedMap.t V) :
  OrderedMap.get k m = None <-> ~ In k (OrderedMap.keys m).
Proof.
  induction m as [| [k0 v0] m IH]; simpl.
  - tauto.
  - destruct (String.eqb k k0) eqn:E.
    + apply String.eqb_eq in E. subst. split; [discriminate | tauto].
    + apply String.eqb_neq in E. rewrite IH. intuition congruence.
Qed.

(** A new key goes last. *)
Lemma OrderedMap_set_fresh {V : Type} (k : string) (v : V)
      (m : OrderedMap.t V) :
  ~ In k (OrderedMap.keys m) -> OrderedMap.set k v m = m ++ [(k, v)].
Proof.
  induction m as [| [k0 v0] m IH]; simpl; intros H.
  - reflexivity.
  - destruct (String.eqb k k0) eqn:E.
    + apply String.eqb_eq in E. subst. tauto.
    + rewrite IH; [reflexivity | tauto].
Qed.

(** Filling a map from entries with distinct keys keeps them all, in order. *)
Lemma OrderedMap_fill {A V : Type} (f : string * A -> V)
      (step : OrderedMap.t V -> string * A -> OrderedMap.t V)
      (entries : list (string * A)) (m : OrderedMap.t V) :
  (forall acc e, step acc e = OrderedMap.set (fst e) (f e) acc) ->
  NoDup (OrderedMap.keys m ++ map fst entries) ->
  fold_left step entries m = m ++ map (fun e => (fst e, f e)) entries.
Proof.
  intros Hstep. revert m.
  induction entries as [| e entries IH]; intros m H; simpl.
  - now rewrite app_nil_r.
  - rewrite Hstep, OrderedMap_set_fresh.
    + rewrite IH.
      * now rewrite <- app_assoc.
      * unfold OrderedMap.keys in *. rewrite map_app. simpl.
        rewrite <- app_assoc. exact H.
    + simpl in H. apply NoDup_remove_2 in H.
      intros Hin. apply H. apply in_or_app. now left.
Qed.

(** ** Stable sort *)

Lemma insertSorted_Permutation {A : Type} (after : A -> A -> bool)
      (x : A) (l : list A) :
  Permutation (insertSorted after x l) (x :: l).
Proof.
  induction l as [| y l IH]; simpl.
  - apply Permutation_refl.
  - destruct (after x y).
    + apply perm_trans with (y :: x :: l).
      * apply perm_skip, IH.
      * apply perm_swap.
    + apply Permutation_refl.
Qed.

Lemma stableSort_Permutation {A : Type} (after : A -> A -> bool)
      (l : list A) :
  Permutation (stableSort after l) l.
Proof.
  induction l as [| x l IH]; simpl.
  - apply perm_nil.
  - apply perm_trans with (x :: stableSort after l).
    + apply insertSorted_Permutation.
    + apply perm_skip, IH.
Qed.

Lemma NoDup_firstn {A : Type} (n : nat) (l : list A) :
  NoDup l -> NoDup (firstn n l).
Proof.
  intros H. rewrite <- (firstn_skipn n l) in H.
  now apply NoDup_app_remove_r in H.
Qed.

(* ================================================================== *)
(** ** Importance score *)

Lemma addIf_sum (hit : bool) (points score : Q) :
  FlowAnalyzer.addIf hit points score == score + (if hit then points else 0).
Proof.
  unfold FlowAnalyzer.addIf. destruct hit; ring.
Qed.

(** C1, as the code has it: the score of a page is the sum of its additive
    factors (popularity, depth, outgoing richness, URL pattern, title
    keywords), multiplied by 0.7 when the page's url is classified as global
    navigation and left as it is otherwise, plus the base of 10, which is
    added after the multiplication and is not reduced by it. *)
Theorem calculatePageImportance_formula
        (u : string) (page : PageMetadata) (allPages : Pages)
        (incomingLinks : OrderedMap.t nat)
        (noiseResult : NoiseReductionResult) :
  FlowAnalyzer.calculatePageImportance u page allPages incomingLinks noiseResult
  == if OrderedMap.has u (globalNavigation noiseResult)
     then ScoreTable.additiveFactors u page incomingLinks noiseResult * 0.7
          + ScoreTable.base
     else ScoreTable.additiveFactors u page incomingLinks noiseResult
          + ScoreTable.base.
Proof.
  unfold FlowAnalyzer.calculatePageImportance, ScoreTable.additiveFactors,
    ScoreTable.popularity, ScoreTable.depthFactor,
    ScoreTable.outgoingRichness, ScoreTable.urlPattern,
    ScoreTable.titleKeywords, ScoreTable.base, ScoreTable.sumOfMatches,
    incomingCount.
  cbv zeta. cbn [fold_right fst snd].
  destruct (OrderedMap.has u (globalNavigation noiseResult));
    destruct (OrderedSet.has u (hubPages noiseResult)); cbn [negb];
    (destruct (OrderedMap.get u (cleanedPages noiseResult)) as [cp |];
     [ destruct (0 <? List.length (outgoingLinks cp))%nat eqn:E;
       [| apply Nat.ltb_ge in E;
          replace (List.length (outgoingLinks cp)) with 0%nat by lia;
          change (num (Nat.min 0 15)) with 0%Q ]
     | change (num (Nat.min 0 15)) with 0%Q ]);
    rewrite !addIf_sum; ring.
Qed.

(** C1, as the claim words it, fails: on the two-page site whose pages both
    link to the about page, that page is global navigation and its score is
    not 0.7 times the sum that includes the base. *)
Lemma penalty_spares_base_counterexample :
  ~ (forall (u : string) (page : PageMetadata) (allPages : Pages)
            (incomingLinks : OrderedMap.t nat)
            (noiseResult : NoiseReductionResult),
        OrderedMap.has u (globalNavigation noiseResult) = true ->
        FlowAnalyzer.calculatePageImportance
          u page allPages incomingLinks noiseResult
        == (ScoreTable.additiveFactors u page incomingLinks noiseResult
            + ScoreTable.base) * 0.7).
Proof.
  intros H.
  pose (nr := NoiseReducer.reduceNoise Samples.aboutSite).
  specialize (H "https://a.com/about"%string
                (mkPage "https://a.com/about" "About us" 1 [] 0)
                Samples.aboutSite
                (FlowAnalyzer.buildIncomingLinksMap Samples.aboutSite nr)
                nr eq_refl).
  vm_compute in H. discriminate H.
Qed.

(* ================================================================== *)
(** ** Structural noise *)

Lemma existsb_occurrences (P : Link -> bool) (h : string) (pages : Pages) :
  existsb P (occurrences h pages) = true
  <-> exists page link,
      In page (OrderedMap.values pages)
      /\ In link (outgoingLinks page)
      /\ href link = h /\ P link = true.
Proof.
  unfold occurrences. rewrite existsb_exists. split.
  - intros [link [Hin HP]]. apply filter_In in Hin. destruct Hin as [Hin Hh].
    apply in_flat_map in Hin. destruct Hin as [page [Hp Hl]].
    apply String.eqb_eq in Hh. now exists page, link.
  - intros [page [link [Hp [Hl [Hh HP]]]]]. exists link. split; [| assumption].
    apply filter_In. split.
    + apply in_flat_map. now exists page.
    + now apply String.eqb_eq.
Qed.

(** C2, as the code has it: the structural-noise set holds exactly the hrefs
    with at least one recorded occurrence in FOOTER position; an href none
    of whose occurrences is in the footer is never in it. *)
Theorem identifyStructuralNoise_footer_occurrence
        (pages : Pages) (h : string) :
  OrderedSet.has h (NoiseReducer.identifyStructuralNoise pages) = true
  <-> existsb inFooter (occurrences h pages) = true.
Proof.
  rewrite OrderedSet_has_In, existsb_occurrences.
  unfold NoiseReducer.identifyStructuralNoise.
  rewrite (In_fold_addAll
             (fun page : PageMetadata =>
                map href
                    (filter (fun link =>
                               existsb (LinkPosition_eqb (position link))
                                       NoiseReducer.noisePositions)
                            (outgoingLinks page)))).
  unfold OrderedSet.empty, NoiseReducer.noisePositions, inFooter. simpl.
  rewrite in_flat_map. split.
  - intros [[] | [page [Hp Hin]]].
    apply in_map_iff in Hin. destruct Hin as [link [Hh Hin]].
    apply filter_In in Hin. destruct Hin as [Hl Hpos].
    rewrite orb_false_r in Hpos. now exists page, link.
  - intros [page [link [Hp [Hl [Hh Hpos]]]]]. right. exists page.
    split; [assumption |]. apply in_map_iff. exists link.
    split; [assumption |]. apply filter_In. split; [assumption |].
    now rewrite orb_false_r.
Qed.

(** C2, as the claim words it, fails: a target named once in the footer and
    once in the content of a page is structural noise although not every
    occurrence of it is in the footer. *)
Lemma structuralNoise_every_occurrence_counterexample :
  ~ (forall (pages : Pages) (h : string),
        OrderedSet.has h (NoiseReducer.identifyStructuralNoise pages) = true
        <-> (occurrences h pages <> []
             /\ forallb inFooter (occurrences h pages) = true)).
Proof.
  intros H.
  destruct (H Samples.footerAndContent "https://a.com/terms"%string)
    as [Hnoise _].
  destruct (Hnoise eq_refl) as [_ Hall].
  vm_compute in Hall. discriminate Hall.
Qed.

(* ================================================================== *)
(** ** Safety fallback of the noise reduction *)

(** The test of the safety check, on the two counts. *)
Lemma tooAggressive_iff (totalLinksBefore totalLinksAfter : nat) :
  NoiseReducer.tooAggressive totalLinksBefore totalLinksAfter = true
  <-> (num totalLinksAfter < 0.1 * num totalLinksBefore)%Q.
Proof.
  unfold NoiseReducer.tooAggressive. rewrite negb_true_iff.
  rewrite <- not_true_iff_false, Qle_bool_iff. split.
  - intros H. apply Qnot_le_lt.
    intros Hle. apply H. rewrite Qmult_comm. exact Hle.
  - intros H Hle. apply (Qlt_not_le _ _ H).
    rewrite Qmult_comm. exact Hle.
Qed.

Lemma tooAggressive_count (totalLinksBefore totalLinksAfter : nat) :
  NoiseReducer.tooAggressive totalLinksBefore totalLinksAfter = true
  <-> 10 * totalLinksAfter < totalLinksBefore.
Proof.
  rewrite tooAggressive_iff. unfold Qlt, num.
  cbn -[Z.mul Z.of_nat Nat.mul]. lia.
Qed.

Lemma identifyLowValueLinks_NoDup (pages : Pages) :
  NoDup (NoiseReducer.identifyLowValueLinks pages).
Proof.
  unfold NoiseReducer.identifyLowValueLinks.
  apply (NoDup_fold_addAll
           (fun page : PageMetadata =>
              map href
                  (filter (fun link =>
                             existsb (fun pattern => pattern (href link))
                                     NoiseReducer.lowValuePatterns)
                          (outgoingLinks page)))).
  constructor.
Qed.

(** Cleaning a page map keeps every page in its place and filters its
    links. *)
Lemma removeLinks_entries (noise : OrderedSet.t) (pages : Pages) :
  NoDup (OrderedMap.keys pages) ->
  NoiseReducer.removeLinks noise pages
  = map (fun e : string * PageMetadata =>
           (fst e,
            withOutgoingLinks
              (snd e)
              (filter (fun link => negb (OrderedSet.has (href link) noise))
                      (outgoingLinks (snd e)))))
        pages.
Proof.
  intros Hwf. unfold NoiseReducer.removeLinks.
  rewrite (OrderedMap_fill
             (fun e : string * PageMetadata =>
                withOutgoingLinks
                  (snd e)
                  (filter (fun link => negb (OrderedSet.has (href link) noise))
                          (outgoingLinks (snd e))))).
  - reflexivity.
  - intros acc [u p]. reflexivity.
  - exact Hwf.
Qed.

Lemma totalLinks_linkTotal (pages : Pages) :
  NoiseReducer.totalLinks pages = linkTotal pages.
Proof.
  unfold NoiseReducer.totalLinks, linkTotal, OrderedMap.values.
  assert (Hgen : forall (ps : Pages) (n : nat),
             fold_left (fun sum p => sum + List.length (outgoingLinks p))
                       (map snd ps) n
             = n + list_sum (map (fun e : string * PageMetadata =>
                                    List.length (outgoingLinks (snd e))) ps)).
  { induction ps as [| e ps IH]; intros n; simpl; [lia |].
    rewrite IH. lia. }
  now rewrite Hgen.
Qed.

Lemma removeLinks_withoutLinks (noise : OrderedSet.t) (pages : Pages) :
  NoDup (OrderedMap.keys pages) ->
  NoiseReducer.removeLinks noise pages = withoutLinks noise pages.
Proof. intros Hwf. now rewrite removeLinks_entries. Qed.

(** C3: the safety fallback.  [totalLinksBefore] is the number of outgoing
    links of all pages and [totalLinksAfter] the number of those whose href
    is in none of the three noise categories.  The fallback is taken exactly
    when [totalLinksAfter < 0.10 * totalLinksBefore].  When it is taken the
    returned noise set is the low-value set and the cleaned pages are the
    input pages, each under its key, with every link whose href is not
    low-value back in its place; the global navigation map and the hub
    pages are the ones computed first.  When it is not taken the aggressive
    noise set is returned and the cleaned pages are the input pages without
    the links of that set. *)
Theorem reduceNoise_safety_fallback (pages : Pages) :
  NoDup (OrderedMap.keys pages) ->
  let lowValueLinks := NoiseReducer.identifyLowValueLinks pages in
  let allNoiseLinks :=
    OrderedSet.ofList
      (OrderedMap.keys (NoiseReducer.identifyGlobalNavigation pages)
       ++ NoiseReducer.identifyStructuralNoise pages ++ lowValueLinks) in
  let totalLinksBefore := linkTotal pages in
  let totalLinksAfter := linkTotal (withoutLinks allNoiseLinks pages) in
  let result := NoiseReducer.reduceNoise pages in
  globalNavigation result = NoiseReducer.identifyGlobalNavigation pages
  /\ hubPages result = NoiseReducer.identifyHubPages pages
  /\ ((num totalLinksAfter < 0.1 * num totalLinksBefore)%Q ->
      noiseLinks result = lowValueLinks
      /\ cleanedPages result = withoutLinks lowValueLinks pages)
  /\ (~ (num totalLinksAfter < 0.1 * num totalLinksBefore)%Q ->
      noiseLinks result = allNoiseLinks
      /\ cleanedPages result = withoutLinks allNoiseLinks pages).
Proof.
  intros Hwf lowValueLinks allNoiseLinks totalLinksBefore totalLinksAfter
         result.
  assert (Hlow : OrderedSet.ofList lowValueLinks = lowValueLinks)
    by apply OrderedSet_ofList_NoDup, identifyLowValueLinks_NoDup.
  subst result. unfold NoiseReducer.reduceNoise.
  fold lowValueLinks. fold allNoiseLinks.
  rewrite !totalLinks_linkTotal, Hlow.
  rewrite !(removeLinks_withoutLinks _ pages Hwf).
  fold totalLinksBefore. fold totalLinksAfter.
  destruct (NoiseReducer.tooAggressive totalLinksBefore totalLinksAfter) eqn:E;
    cbn [globalNavigation hubPages noiseLinks cleanedPages].
  - apply tooAggressive_iff in E. tauto.
  - assert (Hnot : ~ (num totalLinksAfter < 0.1 * num totalLinksBefore)%Q).
    { intros H. apply tooAggressive_iff in H. congruence. }
    tauto.
Qed.

(** On the site whose only links are global navigation the fallback is
    taken: both links come back. *)
Lemma reduceNoise_safety_fallback_witness :
  noiseLinks (NoiseReducer.reduceNoise Samples.aboutSite)
  = NoiseReducer.identifyLowValueLinks Samples.aboutSite
  /\ cleanedPages (NoiseReducer.reduceNoise Samples.aboutSite)
     = withoutLinks (NoiseReducer.identifyLowValueLinks Samples.aboutSite)
                    Samples.aboutSite.
Proof.
  assert (Hwf : NoDup (OrderedMap.keys Samples.aboutSite))
    by (repeat constructor; simpl; intuition discriminate).
  apply (proj1 (proj2 (proj2 (reduceNoise_safety_fallback
                                Samples.aboutSite Hwf)))).
  vm_compute. reflexivity.
Defined.

(* ================================================================== *)
(** ** Incoming link counts *)

Section IncomingLinks.
Variable globalNav : OrderedMap.t NavigationInfo.

Lemma incomingCount_countLink (u : string) (m : OrderedMap.t nat)
      (link : Link) :
  incomingCount u (FlowAnalyzer.countLink globalNav m link)
  = incomingCount u m
    + if OrderedMap.has u globalNav then 0
      else if String.eqb (href link) u then 1 else 0.
Proof.
  unfold FlowAnalyzer.countLink, incomingCount.
  destruct (String.eqb (href link) u) eqn:E.
  - apply String.eqb_eq in E. subst u.
    destruct (OrderedMap.has (href link) globalNav); cbn [negb].
    + lia.
    + rewrite OrderedMap_get_set, String.eqb_refl. reflexivity.
  - destruct (OrderedMap.has (href link) globalNav); cbn [negb].
    + destruct (OrderedMap.has u globalNav); lia.
    + rewrite OrderedMap_get_set, String.eqb_sym, E.
      destruct (OrderedMap.has u globalNav); lia.
Qed.

Lemma incomingCount_links (u : string) (links : list Link)
      (m : OrderedMap.t nat) :
  incomingCount u (fold_left (FlowAnalyzer.countLink globalNav) links m)
  = incomingCount u m
    + if OrderedMap.has u globalNav then 0
      else List.length (filter (fun link => String.eqb (href link) u) links).
Proof.
  revert m. induction links as [| link links IH]; intros m; simpl.
  - destruct (OrderedMap.has u globalNav); lia.
  - rewrite IH, incomingCount_countLink.
    destruct (OrderedMap.has u globalNav); [lia |].
    destruct (String.eqb (href link) u); simpl; lia.
Qed.

Lemma fold_pages_links (ps : list PageMetadata) (m : OrderedMap.t nat) :
  fold_left (fun acc (page : PageMetadata) =>
               fold_left (FlowAnalyzer.countLink globalNav) (outgoingLinks page) acc) ps m
  = fold_left (FlowAnalyzer.countLink globalNav) (flat_map outgoingLinks ps) m.
Proof.
  revert m. induction ps as [| p ps IH]; intros m; simpl.
  - reflexivity.
  - now rewrite IH, fold_left_app.
Qed.
End IncomingLinks.

(** C5, as the code has it: the count kept for a url is the number of link
    occurrences with that href on the cleaned pages, every occurrence
    counted (repeated links from one page and a page's links to itself
    included); a url classified as global navigation has no count. *)
Theorem buildIncomingLinksMap_counts_occurrences
        (pages : Pages) (noiseResult : NoiseReductionResult) (u : string) :
  incomingCount u (FlowAnalyzer.buildIncomingLinksMap pages noiseResult)
  = if OrderedMap.has u (globalNavigation noiseResult) then 0
    else List.length (occurrences u (cleanedPages noiseResult)).
Proof.
  unfold FlowAnalyzer.buildIncomingLinksMap, occurrences.
  rewrite (fold_pages_links (globalNavigation noiseResult)).
  rewrite incomingCount_links. reflexivity.
Qed.

(** C5, as the claim words it, fails: a page that links twice to the shop
    gives the shop a count of 2, and its link to itself gives it a count of
    1, where the pages other than the target that link to it number 1 and
    0. *)
Lemma incoming_distinct_pages_counterexample :
  ~ (forall (pages : Pages) (noiseResult : NoiseReductionResult) (u : string),
        incomingCount u (FlowAnalyzer.buildIncomingLinksMap pages noiseResult)
        = if OrderedMap.has u (globalNavigation noiseResult) then 0
          else List.length (linkingPages u (cleanedPages noiseResult))).
Proof.
  intros H.
  specialize (H Samples.repeatedLinks
                (NoiseReducer.reduceNoise Samples.repeatedLinks)
                "https://a.com/shop"%string).
  vm_compute in H. discriminate H.
Qed.

(* ================================================================== *)
(** ** Key-page selection *)

Section KeyPages.
Variable pages : Pages.
Variable noiseResult : NoiseReductionResult.
Variable incomingLinks : OrderedMap.t nat.

Lemma targetNodeCount_bounds (size : nat) :
  10 <= FlowAnalyzer.targetNodeCount size <= 30.
Proof.
  unfold FlowAnalyzer.targetNodeCount, FlowAnalyzer.MAX_NODES_IN_FLOW. lia.
Qed.

(** The sorted pages are the pages, each once. *)
Lemma sortedPages_keys :
  NoDup (OrderedMap.keys pages) ->
  Permutation
    (map fst (FlowAnalyzer.sortedPages pages noiseResult incomingLinks))
    (OrderedMap.keys pages).
Proof.
  intros Hwf. unfold FlowAnalyzer.sortedPages.
  eapply perm_trans.
  - apply Permutation_map, stableSort_Permutation.
  - rewrite (OrderedMap_fill
               (fun e : string * PageMetadata =>
                  FlowAnalyzer.calculatePageImportance
                    (fst e) (snd e) pages incomingLinks noiseResult)).
    + simpl. rewrite map_map. simpl. apply Permutation_refl.
    + intros acc [u p]. reflexivity.
    + exact Hwf.
Qed.

Lemma sortedPages_NoDup :
  NoDup (OrderedMap.keys pages) ->
  NoDup (map fst (FlowAnalyzer.sortedPages pages noiseResult incomingLinks)).
Proof.
  intros Hwf. eapply Permutation_NoDup; [| exact Hwf].
  apply Permutation_sym, sortedPages_keys, Hwf.
Qed.

Lemma sortedPages_length :
  NoDup (OrderedMap.keys pages) ->
  List.length (FlowAnalyzer.sortedPages pages noiseResult incomingLinks)
  = OrderedMap.size pages.
Proof.
  intros Hwf. unfold OrderedMap.size.
  rewrite <- (length_map fst), <- (length_map fst pages).
  apply Permutation_length, sortedPages_keys, Hwf.
Qed.

(** The key-page set after the top pages went in: they are all there, each
    once. *)
Lemma topPages_size (n : nat) :
  NoDup (OrderedMap.keys pages) ->
  OrderedSet.size
    (OrderedSet.addAll
       (map fst
            (firstn n (FlowAnalyzer.sortedPages pages noiseResult
                                                incomingLinks)))
       OrderedSet.empty)
  = Nat.min n (OrderedMap.size pages).
Proof.
  intros Hwf. rewrite OrderedSet_addAll_fresh.
  - unfold OrderedSet.empty, OrderedSet.size. simpl.
    rewrite length_map, length_firstn, sortedPages_length; [reflexivity | exact Hwf].
  - unfold OrderedSet.empty. simpl. rewrite <- firstn_map.
    apply NoDup_firstn, sortedPages_NoDup, Hwf.
Qed.

Lemma selectedPages_size :
  NoDup (OrderedMap.keys pages) ->
  let top := Nat.min (FlowAnalyzer.targetNodeCount (OrderedMap.size pages))
                     (OrderedMap.size pages) in
  top <= OrderedSet.size
           (FlowAnalyzer.selectedPages pages noiseResult incomingLinks)
  <= S top.
Proof.
  intros Hwf top. unfold FlowAnalyzer.selectedPages.
  pose proof (topPages_size
                (FlowAnalyzer.targetNodeCount (OrderedMap.size pages)) Hwf)
    as Htop.
  fold top in Htop.
  destruct (hd_error (OrderedMap.keys pages)) as [startPage |];
    [destruct (JsString.truthy startPage) |]; try lia.
  match goal with
  | |- context [OrderedSet.add ?x ?s] =>
      pose proof (OrderedSet_add_size x s) as Hadd
  end.
  lia.
Qed.

Lemma tooFewKeyPages_false :
  NoDup (OrderedMap.keys pages) ->
  FlowAnalyzer.tooFewKeyPages
    (FlowAnalyzer.selectedPages pages noiseResult incomingLinks) pages
  = false.
Proof.
  intros Hwf. pose proof (selectedPages_size Hwf) as H. simpl in H.
  pose proof (targetNodeCount_bounds (OrderedMap.size pages)) as Ht.
  unfold FlowAnalyzer.tooFewKeyPages.
  apply andb_false_iff.
  destruct (Nat.leb_spec 5 (OrderedMap.size pages)) as [Hn | Hn];
    [left | now right].
  apply Nat.ltb_ge. lia.
Qed.

(** The selector returns between the top pages and one more than them; with
    34 pages or more that is between 10 and 31 pages. *)
Lemma identifyKeyPages_size_bounds :
  NoDup (OrderedMap.keys pages) ->
  34 <= OrderedMap.size pages ->
  10 <= OrderedSet.size
          (FlowAnalyzer.identifyKeyPages pages noiseResult incomingLinks)
  <= 31.
Proof.
  intros Hwf Hn. unfold FlowAnalyzer.identifyKeyPages.
  rewrite (tooFewKeyPages_false Hwf).
  pose proof (selectedPages_size Hwf) as H. simpl in H.
  pose proof (targetNodeCount_bounds (OrderedMap.size pages)) as Ht.
  lia.
Qed.
End KeyPages.

(** C10: with the keys of the page map distinct, the set selected before the
    safety check holds at least [min(totalPages, 10)] pages, so the test
    [keyPages.size < 5 && pages.size >= 5] is false on every input and the
    selector never widens to the top [min(15, totalPages)] pages: what it
    returns is the set it had selected. *)
Theorem safety_check_never_widens
        (pages : Pages) (noiseResult : NoiseReductionResult)
        (incomingLinks : OrderedMap.t nat) :
  NoDup (OrderedMap.keys pages) ->
  Nat.min (OrderedMap.size pages) 10
  <= OrderedSet.size
       (FlowAnalyzer.selectedPages pages noiseResult incomingLinks)
  /\ FlowAnalyzer.tooFewKeyPages
       (FlowAnalyzer.selectedPages pages noiseResult incomingLinks) pages
     = false
  /\ FlowAnalyzer.identifyKeyPages pages noiseResult incomingLinks
     = FlowAnalyzer.selectedPages pages noiseResult incomingLinks.
Proof.
  intros Hwf.
  pose proof (selectedPages_size pages noiseResult incomingLinks Hwf) as H.
  simpl in H.
  pose proof (targetNodeCount_bounds (OrderedMap.size pages)) as Ht.
  pose proof (tooFewKeyPages_false pages noiseResult incomingLinks Hwf) as Hf.
  repeat split.
  - lia.
  - exact Hf.
  - unfold FlowAnalyzer.identifyKeyPages. now rewrite Hf.
Qed.

Lemma safety_check_never_widens_witness :
  let pages := Samples.imageLinkShop in
  let noiseResult := NoiseReducer.reduceNoise pages in
  let incomingLinks := FlowAnalyzer.buildIncomingLinksMap pages noiseResult in
  Nat.min (OrderedMap.size pages) 10
  <= OrderedSet.size
       (FlowAnalyzer.selectedPages pages noiseResult incomingLinks)
  /\ FlowAnalyzer.tooFewKeyPages
       (FlowAnalyzer.selectedPages pages noiseResult incomingLinks) pages
     = false
  /\ FlowAnalyzer.identifyKeyPages pages noiseResult incomingLinks
     = FlowAnalyzer.selectedPages pages noiseResult incomingLinks.
Proof.
  intros pages noiseResult incomingLinks.
  apply (safety_check_never_widens pages noiseResult incomingLinks).
  repeat constructor; simpl; intuition discriminate.
Defined.



(** C4 at a crawl of 97 pages that starts on its least important page: the
    thirty best pages are selected, the start page is added to them, and the
    selector returns 31 key pages. *)
Theorem key_pages_exceed_maximum :
  NoDup (OrderedMap.keys Samples.deepStart)
  /\ OrderedMap.size Samples.deepStart = 97
  /\ FlowAnalyzer.targetNodeCount (OrderedMap.size Samples.deepStart) = 30
  /\ OrderedSet.size (keyPagesOf Samples.deepStart) = 31.
Proof.
  split.
  - assert (E : OrderedSet.ofList (OrderedMap.keys Samples.deepStart)
                = OrderedMap.keys Samples.deepStart)
      by (vm_compute; reflexivity).
    rewrite <- E. apply OrderedSet_addAll_NoDup. constructor.
  - vm_compute. repeat split.
Qed.

(* ================================================================== *)
(** ** Flow graph *)

(** C6 at a shop whose front page links to the catalogue first through an
    image without text and then through the text "Shop": the two links make
    one edge of weight 2, and its label is the empty text of the first
    link, not "Shop". *)
Theorem edge_label_stays_empty (now : Z) :
  edges (FlowAnalyzer.analyze now Samples.imageLinkShop "https://shop.com/")
  = [ mkFlowEdge "https://shop.com/" "https://shop.com/products" 2 "" ].
Proof.
  vm_compute. reflexivity.
Qed.

(** C7 at a site whose page names hold a double colon: the one edge of the
    flow starts at the front page and ends at a url cut at the double
    colon, which is the id of no node of the flow. *)
Theorem edge_target_is_no_node (now : Z) :
  let flow :=
    FlowAnalyzer.analyze now Samples.moduleDocs "https://metacpan.org/" in
  map id (nodes flow)
  = [ "https://metacpan.org/pod/Moose::Manual"; "https://metacpan.org/" ]%string
  /\ map (fun e => (source e, target e)) (edges flow)
     = [ ("https://metacpan.org/", "https://metacpan.org/pod/Moose") ]%string
  /\ ~ In "https://metacpan.org/pod/Moose"%string (map id (nodes flow)).
Proof.
  vm_compute. repeat split.
  intros [H | [H | []]]; discriminate H.
Qed.

(* ================================================================== *)
(** ** URL normalizer *)

(** C8 at a url whose path ends in two slashes: one slash is taken off, and
    normalizing the result takes off the other, so the second result is not
    the first.  This holds whatever the collation of the locale is. *)
Theorem normalize_twice_differs
        (localeCompare : string -> string -> comparison) :
  UrlUtils.normalize localeCompare "https://a.com/p//" = "https://a.com/p/"%string
  /\ UrlUtils.normalize localeCompare
       (UrlUtils.normalize localeCompare "https://a.com/p//")
     = "https://a.com/p"%string
  /\ UrlUtils.normalize localeCompare
       (UrlUtils.normalize localeCompare "https://a.com/p//")
     <> UrlUtils.normalize localeCompare "https://a.com/p//".
Proof.
  vm_compute. repeat split. discriminate.
Qed.

(* ================================================================== *)
(** * Further properties of the analysis core *)

(** ** More on ordered maps *)

Lemma OrderedMap_set_In {V : Type} (k k' : string) (v x : V)
      (m : OrderedMap.t V) :
  In (k', x) (OrderedMap.set k v m) -> (k' = k /\ x = v) \/ In (k', x) m.
Proof.
  induction m as [| [k0 v0] m IH]; simpl.
  - intros [H | []]. inversion H. now left.
  - destruct (String.eqb k k0) eqn:E; simpl.
    + apply String.eqb_eq in E. subst k0.
      intros [H | H]; [inversion H; now left | right; now right].
    + intros [H | H]; [right; now left |].
      destruct (IH H) as [Hl | Hr]; [now left | right; now right].
Qed.

Lemma OrderedMap_set_keys {V : Type} (k k' : string) (v : V)
      (m : OrderedMap.t V) :
  In k' (OrderedMap.keys (OrderedMap.set k v m))
  <-> k' = k \/ In k' (OrderedMap.keys m).
Proof.
  unfold OrderedMap.keys.
  induction m as [| [k0 v0] m IH]; simpl.
  - intuition.
  - destruct (String.eqb k k0) eqn:E; simpl.
    + apply String.eqb_eq in E. subst k0. intuition.
    + rewrite IH. intuition.
Qed.

(** ** What the noise reduction returns *)

Lemma removeLinks_In (noise : OrderedSet.t) (pages : Pages)
      (u : string) (page : PageMetadata) :
  In (u, page) (NoiseReducer.removeLinks noise pages) ->
  exists original,
    In (u, original) pages
    /\ page = withOutgoingLinks
                original
                (filter (fun link => negb (OrderedSet.has (href link) noise))
                        (outgoingLinks original)).
Proof.
  unfold NoiseReducer.removeLinks.
  assert (Hgen : forall (acc : Pages),
             In (u, page)
                (fold_left
                   (fun cleaned (entry : string * PageMetadata) =>
                      let '(url, page) := entry in
                      let cleanedLinks :=
                        filter (fun link =>
                                  negb (OrderedSet.has (href link) noise))
                               (outgoingLinks page) in
                      OrderedMap.set url (withOutgoingLinks page cleanedLinks)
                                     cleaned)
                   pages acc) ->
             In (u, page) acc
             \/ exists original,
                 In (u, original) pages
                 /\ page = withOutgoingLinks
                             original
                             (filter (fun link =>
                                        negb (OrderedSet.has (href link) noise))
                                     (outgoingLinks original))).
  { induction pages as [| [u0 p0] pages IH]; intros acc; simpl.
    - now left.
    - intros H. destruct (IH _ H) as [Hacc | [original [Hin Heq]]].
      + apply OrderedMap_set_In in Hacc.
        destruct Hacc as [[-> ->] | Hacc]; [| now left].
        right. exists p0. split; [now left | reflexivity].
      + right. exists original. split; [now right | exact Heq]. }
  intros H. destruct (Hgen OrderedMap.empty H) as [[] | Hex]. exact Hex.
Qed.

(** The two results of [reduceNoise] agree with themselves: in the
    aggressive case and in the fallback case alike the cleaned pages are the
    input pages without the links of the returned noise set. *)
Lemma reduceNoise_cleaned_by_noiseLinks (pages : Pages) :
  cleanedPages (NoiseReducer.reduceNoise pages)
  = NoiseReducer.removeLinks (noiseLinks (NoiseReducer.reduceNoise pages))
                             pages.
Proof.
  unfold NoiseReducer.reduceNoise.
  destruct (NoiseReducer.tooAggressive _ _); reflexivity.
Qed.

(** X1: noise removal only deletes.  The cleaned pages are the input pages,
    under the same keys and in the same order, each with the same url,
    title, depth and timestamp and with its links filtered: a link stays,
    in its place, exactly when its href is not in the returned noise set. *)
Theorem reduceNoise_only_deletes (pages : Pages) :
  NoDup (OrderedMap.keys pages) ->
  let result := NoiseReducer.reduceNoise pages in
  cleanedPages result
  = map (fun e : string * PageMetadata =>
           (fst e,
            mkPage (url (snd e)) (title (snd e)) (depth (snd e))
                   (filter (fun link =>
                              negb (OrderedSet.has (href link)
                                                   (noiseLinks result)))
                           (outgoingLinks (snd e)))
                   (timestamp (snd e))))
        pages.
Proof.
  intros Hwf result. subst result.
  rewrite reduceNoise_cleaned_by_noiseLinks.
  now rewrite removeLinks_entries.
Qed.

Lemma reduceNoise_only_deletes_witness :
  let pages := Samples.footerAndContent in
  let result := NoiseReducer.reduceNoise pages in
  cleanedPages result
  = map (fun e : string * PageMetadata =>
           (fst e,
            mkPage (url (snd e)) (title (snd e)) (depth (snd e))
                   (filter (fun link =>
                              negb (OrderedSet.has (href link)
                                                   (noiseLinks result)))
                           (outgoingLinks (snd e)))
                   (timestamp (snd e))))
        pages.
Proof.
  apply (reduceNoise_only_deletes Samples.footerAndContent).
  repeat constructor; simpl; tauto.
Defined.

Lemma OrderedSet_ofList_In (xs : list string) (y : string) :
  In y (OrderedSet.ofList xs) <-> In y xs.
Proof.
  unfold OrderedSet.ofList. rewrite OrderedSet_addAll_In.
  unfold OrderedSet.empty. simpl. tauto.
Qed.

(** X2: the returned noise set lies between the low-value links and the
    union of the three categories: every low-value href is in it, fallback
    or not, and every href in it is global navigation, structural noise or
    low-value. *)
Theorem noiseLinks_between (pages : Pages) (h : string) :
  let result := NoiseReducer.reduceNoise pages in
  (OrderedSet.has h (NoiseReducer.identifyLowValueLinks pages) = true ->
   OrderedSet.has h (noiseLinks result) = true)
  /\ (OrderedSet.has h (noiseLinks result) = true ->
      OrderedMap.has h (NoiseReducer.identifyGlobalNavigation pages) = true
      \/ OrderedSet.has h (NoiseReducer.identifyStructuralNoise pages) = true
      \/ OrderedSet.has h (NoiseReducer.identifyLowValueLinks pages) = true).
Proof.
  intros result. subst result. unfold NoiseReducer.reduceNoise.
  destruct (NoiseReducer.tooAggressive _ _);
    cbn [noiseLinks]; rewrite !OrderedSet_has_In, !OrderedSet_ofList_In.
  - tauto.
  - rewrite !in_app_iff. split; [tauto |].
    intros [Hg | [Hs | Hl]]; [left | tauto | tauto].
    unfold OrderedMap.has.
    destruct (OrderedMap.get h (NoiseReducer.identifyGlobalNavigation pages))
      eqn:E; [reflexivity |].
    apply OrderedMap_get_None in E. contradiction.
Qed.

Lemma noiseLinks_between_witness :
  OrderedSet.has "mailto:team@a.com"
                 (noiseLinks (NoiseReducer.reduceNoise Fixtures.contactSite))
  = true.
Proof.
  apply (proj1 (noiseLinks_between Fixtures.contactSite "mailto:team@a.com")).
  vm_compute. reflexivity.
Defined.

Lemma lowValue_In (pages : Pages) (page : PageMetadata) (link : Link) :
  In page (OrderedMap.values pages) ->
  In link (outgoingLinks page) ->
  existsb (fun pattern => pattern (href link)) NoiseReducer.lowValuePatterns
  = true ->
  In (href link) (NoiseReducer.identifyLowValueLinks pages).
Proof.
  intros Hp Hl Hm. unfold NoiseReducer.identifyLowValueLinks.
  apply (In_fold_addAll
           (fun page : PageMetadata =>
              map href
                  (filter (fun link =>
                             existsb (fun pattern => pattern (href link))
                                     NoiseReducer.lowValuePatterns)
                          (outgoingLinks page)))).
  right. apply in_flat_map. exists page. split; [assumption |].
  apply in_map. apply filter_In. now split.
Qed.

Lemma lowValue_in_noiseLinks (pages : Pages) (h : string) :
  In h (NoiseReducer.identifyLowValueLinks pages) ->
  In h (noiseLinks (NoiseReducer.reduceNoise pages)).
Proof.
  unfold NoiseReducer.reduceNoise.
  destruct (NoiseReducer.tooAggressive _ _);
    cbn [noiseLinks]; rewrite !OrderedSet_ofList_In.
  - tauto.
  - rewrite !in_app_iff. tauto.
Qed.

(** X3: no low-value link survives the noise reduction.  Whichever branch
    [reduceNoise] takes, a link of a cleaned page is a link of the input page
    stored under the same url, its href is not in the returned noise set, and
    no pattern of the low-value table (logout, social media, [mailto:],
    [javascript:], feeds, ...) matches its href. *)
Theorem cleaned_links_are_clean
        (pages : Pages) (u : string) (page : PageMetadata) (link : Link) :
  In (u, page) (cleanedPages (NoiseReducer.reduceNoise pages)) ->
  In link (outgoingLinks page) ->
  (exists original, In (u, original) pages /\ In link (outgoingLinks original))
  /\ OrderedSet.has (href link) (noiseLinks (NoiseReducer.reduceNoise pages))
     = false
  /\ existsb (fun pattern => pattern (href link)) NoiseReducer.lowValuePatterns
     = false.
Proof.
  intros Hpage Hlink.
  rewrite reduceNoise_cleaned_by_noiseLinks in Hpage.
  apply removeLinks_In in Hpage. destruct Hpage as [original [Hin ->]].
  cbn [outgoingLinks withOutgoingLinks] in Hlink.
  apply filter_In in Hlink. destruct Hlink as [Hlink Hnot].
  apply negb_true_iff in Hnot.
  split; [| split].
  - now exists original.
  - exact Hnot.
  - destruct (existsb (fun pattern => pattern (href link))
                      NoiseReducer.lowValuePatterns) eqn:E; [| reflexivity].
    exfalso. apply OrderedSet_has_not_In in Hnot. apply Hnot.
    apply lowValue_in_noiseLinks.
    apply (lowValue_In pages original link); try assumption.
    apply (in_map snd) in Hin. exact Hin.
Qed.

Lemma cleaned_links_are_clean_witness :
  OrderedSet.has "https://a.com/"
                 (noiseLinks (NoiseReducer.reduceNoise Fixtures.contactSite))
  = false
  /\ existsb (fun pattern => pattern "https://a.com/"%string)
             NoiseReducer.lowValuePatterns
     = false.
Proof.
  apply (cleaned_links_are_clean
           Fixtures.contactSite "https://a.com/pricing"
           (mkPage "https://a.com/pricing" "Pricing" 1
                   [ Samples.link "https://a.com/" "Home" HEADER;
                     Samples.link "https://a.com/" "Back" CONTENT ] 0)
           (Samples.link "https://a.com/" "Home" HEADER)).
  - vm_compute. tauto.
  - vm_compute. tauto.
Defined.

(* ================================================================== *)
(** ** Key pages and nodes *)

Lemma In_firstn {A : Type} (n : nat) (l : list A) (x : A) :
  In x (firstn n l) -> In x l.
Proof.
  intros H. rewrite <- (firstn_skipn n l). apply in_or_app. now left.
Qed.

Lemma pageScores_keys {V : Type} (f : string -> PageMetadata -> V)
      (pages : Pages) (acc : OrderedMap.t V) (k : string) :
  In k (OrderedMap.keys
          (fold_left
             (fun pageScores (entry : string * PageMetadata) =>
                let '(url, page) := entry in
                OrderedMap.set url (f url page) pageScores)
             pages acc)) ->
  In k (OrderedMap.keys acc) \/ In k (OrderedMap.keys pages).
Proof.
  revert acc. induction pages as [| [u p] pages IH]; intros acc; simpl.
  - now left.
  - intros H. destruct (IH _ H) as [Hacc | Hrest].
    + apply OrderedMap_set_keys in Hacc. destruct Hacc as [-> | Hacc];
        [right; now left | now left].
    + right. now right.
Qed.

Lemma sortedPages_incl (pages : Pages) (noiseResult : NoiseReductionResult)
      (incomingLinks : OrderedMap.t nat) (u : string) :
  In u (map fst (FlowAnalyzer.sortedPages pages noiseResult incomingLinks)) ->
  In u (OrderedMap.keys pages).
Proof.
  unfold FlowAnalyzer.sortedPages. intros H.
  eapply Permutation_in in H;
    [| apply Permutation_map, stableSort_Permutation].
  apply (pageScores_keys
           (fun url page =>
              FlowAnalyzer.calculatePageImportance
                url page pages incomingLinks noiseResult)) in H.
  destruct H as [[] | H]. exact H.
Qed.

Lemma selectedPages_incl (pages : Pages) (noiseResult : NoiseReductionResult)
      (incomingLinks : OrderedMap.t nat) (u : string) :
  In u (FlowAnalyzer.selectedPages pages noiseResult incomingLinks) ->
  In u (OrderedMap.keys pages).
Proof.
  unfold FlowAnalyzer.selectedPages.
  assert (Htop : forall n,
             In u (OrderedSet.addAll
                     (map fst
                          (firstn n (FlowAnalyzer.sortedPages
                                       pages noiseResult incomingLinks)))
                     OrderedSet.empty) ->
             In u (OrderedMap.keys pages)).
  { intros n H. apply OrderedSet_addAll_In in H. destruct H as [[] | H].
    rewrite <- firstn_map in H. apply In_firstn in H.
    now apply sortedPages_incl in H. }
  destruct (hd_error (OrderedMap.keys pages)) as [startPage |] eqn:Ehd;
    [destruct (JsString.truthy startPage) |]; try apply Htop.
  intros H. apply OrderedSet_add_In in H. destruct H as [-> | H].
  - destruct (OrderedMap.keys pages); [discriminate |].
    inversion Ehd. now left.
  - now apply Htop in H.
Qed.

Lemma identifyKeyPages_incl (pages : Pages)
      (noiseResult : NoiseReductionResult)
      (incomingLinks : OrderedMap.t nat) (u : string) :
  In u (FlowAnalyzer.identifyKeyPages pages noiseResult incomingLinks) ->
  In u (OrderedMap.keys pages).
Proof.
  unfold FlowAnalyzer.identifyKeyPages.
  destruct (FlowAnalyzer.tooFewKeyPages _ pages).
  - intros H. apply OrderedSet_addAll_In in H. destruct H as [H | H].
    + now apply selectedPages_incl in H.
    + rewrite <- firstn_map in H. apply In_firstn in H.
      now apply sortedPages_incl in H.
  - apply selectedPages_incl.
Qed.

Lemma selectedPages_NoDup (pages : Pages) (noiseResult : NoiseReductionResult)
      (incomingLinks : OrderedMap.t nat) :
  NoDup (FlowAnalyzer.selectedPages pages noiseResult incomingLinks).
Proof.
  unfold FlowAnalyzer.selectedPages.
  assert (Htop : forall n,
             NoDup (OrderedSet.addAll
                      (map fst
                           (firstn n (FlowAnalyzer.sortedPages
                                        pages noiseResult incomingLinks)))
                      OrderedSet.empty))
    by (intros n; apply OrderedSet_addAll_NoDup; constructor).
  destruct (hd_error (OrderedMap.keys pages)) as [startPage |];
    [destruct (JsString.truthy startPage) |]; try apply Htop.
  apply OrderedSet_add_NoDup, Htop.
Qed.

Lemma identifyKeyPages_NoDup (pages : Pages)
      (noiseResult : NoiseReductionResult)
      (incomingLinks : OrderedMap.t nat) :
  NoDup (FlowAnalyzer.identifyKeyPages pages noiseResult incomingLinks).
Proof.
  unfold FlowAnalyzer.identifyKeyPages.
  destruct (FlowAnalyzer.tooFewKeyPages _ pages).
  - apply OrderedSet_addAll_NoDup, selectedPages_NoDup.
  - apply selectedPages_NoDup.
Qed.

Lemma OrderedMap_has_keys {V : Type} (k : string) (m : OrderedMap.t V) :
  OrderedMap.has k m = true <-> In k (OrderedMap.keys m).
Proof.
  unfold OrderedMap.has.
  destruct (OrderedMap.get k m) eqn:E.
  - split; [| reflexivity]. intros _.
    destruct (in_dec string_dec k (OrderedMap.keys m)) as [Hin | Hnot];
      [assumption |].
    apply OrderedMap_get_None in Hnot. congruence.
  - apply OrderedMap_get_None in E. split; [discriminate | contradiction].
Qed.

(** X4: every key page is a crawled page.  Whatever noise result and
    incoming-link counts the selector is given, each url it returns is a
    key of the page map; on an empty page map it returns the empty set. *)
Theorem key_pages_are_crawled_pages
        (pages : Pages) (noiseResult : NoiseReductionResult)
        (incomingLinks : OrderedMap.t nat) :
  (forall u,
      OrderedSet.has
        u (FlowAnalyzer.identifyKeyPages pages noiseResult incomingLinks)
      = true ->
      OrderedMap.has u pages = true)
  /\ (pages = [] ->
      FlowAnalyzer.identifyKeyPages pages noiseResult incomingLinks = []).
Proof.
  split.
  - intros u H. apply OrderedSet_has_In in H.
    apply OrderedMap_has_keys. now apply identifyKeyPages_incl in H.
  - intros ->. destruct (FlowAnalyzer.identifyKeyPages [] noiseResult
                                                       incomingLinks)
      as [| u r] eqn:E; [reflexivity |].
    assert (H : In u (OrderedMap.keys (@nil (string * PageMetadata)))).
    { apply (identifyKeyPages_incl [] noiseResult incomingLinks).
      rewrite E. now left. }
    destruct H.
Qed.

Lemma key_pages_are_crawled_pages_witness :
  OrderedMap.has "https://a.com/blog" Fixtures.contactSite = true.
Proof.
  apply (proj1 (key_pages_are_crawled_pages
                  Fixtures.contactSite
                  (NoiseReducer.reduceNoise Fixtures.contactSite)
                  (FlowAnalyzer.buildIncomingLinksMap
                     Fixtures.contactSite
                     (NoiseReducer.reduceNoise Fixtures.contactSite)))).
  vm_compute. reflexivity.
Defined.

Section BuildNodes.
Variable pages : Pages.

Lemma buildNodes_fold (keyPages : list string) (acc : OrderedMap.t FlowNode) :
  NoDup (OrderedMap.keys acc ++ keyPages) ->
  fold_left
    (fun nodes (url : string) =>
       match OrderedMap.get url pages with
       | None => nodes
       | Some page =>
           let nodeId := url in
           let label := FlowAnalyzer.generateNodeLabel url (title page) in
           let type := FlowAnalyzer.inferNodeType url (title page) in
           let pathSegments := UrlUtils.getPathSegments url in
           OrderedMap.set nodeId
             (mkFlowNode nodeId label url type
                (mkNodeMetadata (depth page) (title page) pathSegments))
             nodes
       end)
    keyPages acc
  = acc ++ flat_map (nodeEntries pages) keyPages.
Proof.
  revert acc. induction keyPages as [| u keyPages IH]; intros acc H; simpl.
  - now rewrite app_nil_r.
  - unfold nodeEntries at 1.
    destruct (OrderedMap.get u pages) as [page |]; simpl.
    + rewrite OrderedMap_set_fresh.
      * rewrite IH; [now rewrite <- app_assoc |].
        unfold OrderedMap.keys in *. rewrite map_app. simpl.
        rewrite <- app_assoc. exact H.
      * apply NoDup_remove_2 in H. intros Hin. apply H.
        apply in_or_app. now left.
    + apply IH. now apply NoDup_remove_1 in H.
Qed.

Lemma nodeEntries_ids (keyPages : list string) :
  (forall u, In u keyPages -> In u (OrderedMap.keys pages)) ->
  map id (map snd (flat_map (nodeEntries pages) keyPages)) = keyPages
  /\ Forall (fun n =>
               node_url n = id n
               /\ exists page,
                   OrderedMap.get (id n) pages = Some page
                   /\ n = nodeFor (id n) page)
            (map snd (flat_map (nodeEntries pages) keyPages)).
Proof.
  induction keyPages as [| u keyPages IH]; intros Hin; simpl.
  - split; [reflexivity | constructor].
  - destruct IH as [IHid IHall]; [intros v Hv; apply Hin; now right |].
    unfold nodeEntries at 1 3.
    destruct (OrderedMap.get u pages) as [page |] eqn:E.
    + simpl. split.
      * now rewrite IHid.
      * constructor; [| exact IHall]. split; [reflexivity |].
        exists page. simpl. now split.
    + apply OrderedMap_get_None in E. exfalso. apply E, Hin. now left.
Qed.
End BuildNodes.

(** X5: the nodes of the flow are the key pages.  [analyze] returns one
    node per key page, in the order of selection; the id and the url of a
    node are the page's key, and its label, type, depth, title and path
    segments are computed from the page stored under that key. *)
Theorem analyze_nodes_are_key_pages
        (now : Z) (pages : Pages) (startUrl : string) :
  let flow := FlowAnalyzer.analyze now pages startUrl in
  map id (nodes flow) = keyPagesOf pages
  /\ Forall (fun n =>
               node_url n = id n
               /\ exists page,
                   OrderedMap.get (id n) pages = Some page
                   /\ n = nodeFor (id n) page)
            (nodes flow).
Proof.
  intros flow. subst flow.
  unfold FlowAnalyzer.analyze, keyPagesOf. cbn [nodes].
  set (noiseResult := NoiseReducer.reduceNoise pages).
  set (incomingLinks := FlowAnalyzer.buildIncomingLinksMap pages noiseResult).
  set (keyPages :=
         FlowAnalyzer.identifyKeyPages pages noiseResult incomingLinks).
  unfold FlowAnalyzer.buildNodes, OrderedMap.values.
  rewrite buildNodes_fold.
  - apply nodeEntries_ids. intros u. apply identifyKeyPages_incl.
  - apply identifyKeyPages_NoDup.
Qed.

(* ================================================================== *)
(** ** Edges *)

Lemma OrderedMap_get_modify {V : Type} (k k' : string) (f : V -> V)
      (m : OrderedMap.t V) :
  OrderedMap.get k (OrderedMap.modify k' f m)
  = if String.eqb k k' then option_map f (OrderedMap.get k m)
    else OrderedMap.get k m.
Proof.
  induction m as [| [k0 v0] m IH]; simpl.
  - now destruct (String.eqb k k').
  - destruct (String.eqb k' k0) eqn:E0; simpl.
    + apply String.eqb_eq in E0. subst k0.
      destruct (String.eqb k k'); reflexivity.
    + rewrite IH. destruct (String.eqb k k0) eqn:E1; [| reflexivity].
      apply String.eqb_eq in E1. subst k0.
      destruct (String.eqb k k') eqn:E2; [| reflexivity].
      apply String.eqb_eq in E2. subst k'.
      rewrite String.eqb_refl in E0. discriminate.
Qed.

Lemma OrderedMap_modify_keys {V : Type} (k : string) (f : V -> V)
      (m : OrderedMap.t V) :
  OrderedMap.keys (OrderedMap.modify k f m) = OrderedMap.keys m.
Proof.
  unfold OrderedMap.keys.
  induction m as [| [k0 v0] m IH]; simpl; [reflexivity |].
  destruct (String.eqb k k0); simpl; [reflexivity | now rewrite IH].
Qed.

Lemma OrderedMap_get_In {V : Type} (k : string) (v : V) (m : OrderedMap.t V) :
  NoDup (OrderedMap.keys m) -> In (k, v) m -> OrderedMap.get k m = Some v.
Proof.
  induction m as [| [k0 v0] m IH]; simpl; intros Hnd Hin; [contradiction |].
  inversion Hnd as [| ? ? Hnot Hnd']; subst.
  destruct Hin as [Heq | Hin].
  - inversion Heq; subst. now rewrite String.eqb_refl.
  - destruct (String.eqb k k0) eqn:E.
    + apply String.eqb_eq in E. subst k0. exfalso. apply Hnot.
      apply (in_map fst) in Hin. exact Hin.
    + now apply IH.
Qed.

Lemma OrderedMap_has_false {V : Type} (k : string) (m : OrderedMap.t V) :
  OrderedMap.has k m = false <-> OrderedMap.get k m = None.
Proof.
  unfold OrderedMap.has. destruct (OrderedMap.get k m); split; congruence.
Qed.

(** The data of an edge after one more link with text [t]. *)
Lemma keepLabel_same (t : string) : keepLabel t t = t.
Proof.
  unfold keepLabel. now destruct (_ && _).
Qed.

Section EdgeMap.
Variable keyPages : OrderedSet.t.

Lemma buildEdgeMap_links (sourceUrl : string) (links : list Link)
      (acc : OrderedMap.t FlowAnalyzer.EdgeData) :
  fold_left (FlowAnalyzer.recordEdge keyPages sourceUrl) links acc
  = fold_left
      (fun m (e : string * Link) =>
         FlowAnalyzer.recordEdge keyPages (fst e) m (snd e))
      (map (pair sourceUrl)
           (filter (fun link => OrderedSet.has (href link) keyPages) links))
      acc.
Proof.
  revert acc. induction links as [| link links IH]; intros acc; simpl.
  - reflexivity.
  - destruct (OrderedSet.has (href link) keyPages) eqn:E; simpl.
    + apply IH.
    + rewrite <- IH. f_equal.
      unfold FlowAnalyzer.recordEdge. now rewrite E.
Qed.

Lemma buildEdgeMap_fold (cleaned : Pages)
      (acc : OrderedMap.t FlowAnalyzer.EdgeData) :
  fold_left
    (fun edgeMap (entry : string * PageMetadata) =>
       let '(sourceUrl, page) := entry in
       if negb (OrderedSet.has sourceUrl keyPages) then edgeMap
       else fold_left (FlowAnalyzer.recordEdge keyPages sourceUrl)
                      (outgoingLinks page) edgeMap)
    cleaned acc
  = fold_left
      (fun m (e : string * Link) =>
         FlowAnalyzer.recordEdge keyPages (fst e) m (snd e))
      (qualifyingLinks keyPages cleaned) acc.
Proof.
  unfold qualifyingLinks.
  revert acc. induction cleaned as [| [u p] cleaned IH]; intros acc; simpl.
  - reflexivity.
  - rewrite fold_left_app, <- IH.
    destruct (OrderedSet.has u keyPages); simpl.
    + now rewrite buildEdgeMap_links.
    + reflexivity.
Qed.

Lemma get_recordEdge (k sourceUrl : string) (link : Link)
      (m : OrderedMap.t FlowAnalyzer.EdgeData) :
  OrderedSet.has (href link) keyPages = true ->
  OrderedMap.get k (FlowAnalyzer.recordEdge keyPages sourceUrl m link)
  = if String.eqb (edgeKey sourceUrl (href link)) k
    then Some match OrderedMap.get k m with
              | Some d =>
                  FlowAnalyzer.mkEdgeData
                    (FlowAnalyzer.count d + 1)
                    (keepLabel (FlowAnalyzer.data_label d) (text link))
              | None => FlowAnalyzer.mkEdgeData 1 (text link)
              end
    else OrderedMap.get k m.
Proof.
  intros Hkey. unfold FlowAnalyzer.recordEdge. rewrite Hkey. cbn [negb].
  fold (edgeKey sourceUrl (href link)).
  rewrite OrderedMap_get_modify, (String.eqb_sym k).
  destruct (String.eqb (edgeKey sourceUrl (href link)) k) eqn:E.
  - apply String.eqb_eq in E. subst k.
    destruct (OrderedMap.has (edgeKey sourceUrl (href link)) m) eqn:Ehas;
      cbn [negb].
    + unfold OrderedMap.has in Ehas.
      destruct (OrderedMap.get (edgeKey sourceUrl (href link)) m) as [d |];
        [| discriminate].
      simpl. unfold keepLabel. now destruct (_ && _).
    + rewrite OrderedMap_get_set, String.eqb_refl.
      apply OrderedMap_has_false in Ehas. rewrite Ehas. simpl.
      rewrite Nat.ltb_irrefl, andb_false_r. reflexivity.
  - destruct (OrderedMap.has (edgeKey sourceUrl (href link)) m);
      cbn [negb]; [reflexivity |].
    now rewrite OrderedMap_get_set, (String.eqb_sym k), E.
Qed.

Lemma keys_recordEdge (sourceUrl : string) (link : Link)
      (m : OrderedMap.t FlowAnalyzer.EdgeData) :
  NoDup (OrderedMap.keys m) ->
  NoDup (OrderedMap.keys (FlowAnalyzer.recordEdge keyPages sourceUrl m link)).
Proof.
  intros Hnd. unfold FlowAnalyzer.recordEdge.
  destruct (OrderedSet.has (href link) keyPages); cbn [negb];
    [| exact Hnd].
  rewrite OrderedMap_modify_keys.
  destruct (OrderedMap.has (sourceUrl ++ "::" ++ href link) m) eqn:Ehas;
    cbn [negb]; [exact Hnd |].
  apply OrderedMap_has_false, OrderedMap_get_None in Ehas.
  rewrite OrderedMap_set_fresh by exact Ehas.
  unfold OrderedMap.keys. rewrite map_app. simpl.
  apply NoDup_app; [exact Hnd | repeat constructor; simpl; tauto |].
  intros a Ha [<- | []]. exact (Ehas Ha).
Qed.

(** What is stored under [k] after the links [es] were read. *)
Lemma get_after_links (k : string) (es : list (string * Link))
      (m : OrderedMap.t FlowAnalyzer.EdgeData) :
  Forall (fun e => OrderedSet.has (href (snd e)) keyPages = true) es ->
  OrderedMap.get
    k (fold_left (fun m (e : string * Link) =>
                    FlowAnalyzer.recordEdge keyPages (fst e) m (snd e))
                 es m)
  = match OrderedMap.get k m with
    | Some d =>
        Some (FlowAnalyzer.mkEdgeData
                (FlowAnalyzer.count d + List.length (textsFor k es))
                (fold_left keepLabel (textsFor k es)
                           (FlowAnalyzer.data_label d)))
    | None =>
        match textsFor k es with
        | [] => None
        | t :: later =>
            Some (FlowAnalyzer.mkEdgeData (S (List.length later))
                                          (fold_left keepLabel later t))
        end
    end.
Proof.
  intros Hall. revert m.
  induction Hall as [| [s link] es Hkey _ IH]; intros m.
  - simpl. destruct (OrderedMap.get k m) as [[c l] |]; simpl;
      [now rewrite Nat.add_0_r | reflexivity].
  - cbn [fold_left fst snd]. rewrite IH. simpl in Hkey.
    rewrite (get_recordEdge k s link m Hkey).
    unfold textsFor. cbn [filter fst snd].
    destruct (String.eqb (edgeKey s (href link)) k); cbn [map].
    + destruct (OrderedMap.get k m) as [d |]; cbn [fold_left List.length
        FlowAnalyzer.count FlowAnalyzer.data_label].
      * do 2 f_equal; lia.
      * do 2 f_equal; lia.
    + reflexivity.
Qed.
End EdgeMap.

Lemma qualifyingLinks_keys (keyPages : OrderedSet.t) (cleaned : Pages) :
  Forall (fun e : string * Link =>
            OrderedSet.has (fst e) keyPages = true
            /\ OrderedSet.has (href (snd e)) keyPages = true)
         (qualifyingLinks keyPages cleaned).
Proof.
  unfold qualifyingLinks. apply Forall_forall. intros [s link] Hin.
  apply in_flat_map in Hin. destruct Hin as [[u p] [_ Hin]].
  cbn [fst snd] in *.
  destruct (OrderedSet.has u keyPages) eqn:E; [| destruct Hin].
  apply in_map_iff in Hin. destruct Hin as [l [Heq Hl]].
  inversion Heq; subst. apply filter_In in Hl. now split.
Qed.

Lemma buildEdgeMap_keys_NoDup (keyPages : OrderedSet.t)
      (noiseResult : NoiseReductionResult) :
  NoDup (OrderedMap.keys (FlowAnalyzer.buildEdgeMap keyPages noiseResult)).
Proof.
  unfold FlowAnalyzer.buildEdgeMap. rewrite buildEdgeMap_fold.
  generalize (qualifyingLinks keyPages (cleanedPages noiseResult)).
  assert (Hgen : forall (es : list (string * Link)) m,
             NoDup (OrderedMap.keys m) ->
             NoDup (OrderedMap.keys
                      (fold_left
                         (fun m (e : string * Link) =>
                            FlowAnalyzer.recordEdge keyPages (fst e) m (snd e))
                         es m))).
  { induction es as [| e es IH]; intros m Hnd; simpl; [exact Hnd |].
    apply IH, keys_recordEdge, Hnd. }
  intros es. apply Hgen. constructor.
Qed.

(** The entries of the edge map: an entry stands for at least one
    qualifying link, counts the links read under its key and carries the
    label picked from their texts. *)
Lemma buildEdgeMap_entries (keyPages : OrderedSet.t)
      (noiseResult : NoiseReductionResult)
      (key : string) (data : FlowAnalyzer.EdgeData) :
  In (key, data) (FlowAnalyzer.buildEdgeMap keyPages noiseResult) ->
  let texts :=
    textsFor key (qualifyingLinks keyPages (cleanedPages noiseResult)) in
  texts <> []
  /\ FlowAnalyzer.count data = List.length texts
  /\ FlowAnalyzer.data_label data = pickLabel texts.
Proof.
  intros Hin texts.
  apply OrderedMap_get_In in Hin; [| apply buildEdgeMap_keys_NoDup].
  unfold FlowAnalyzer.buildEdgeMap in Hin.
  rewrite buildEdgeMap_fold, get_after_links in Hin.
  - cbn [OrderedMap.get OrderedMap.empty] in Hin. fold texts in Hin.
    destruct texts as [| t later]; [discriminate |].
    inversion Hin; subst. repeat split. discriminate.
  - eapply Forall_impl; [| apply qualifyingLinks_keys].
    intros e [_ H]. exact H.
Qed.

Lemma totalCount_app (m1 m2 : OrderedMap.t FlowAnalyzer.EdgeData) :
  totalCount (m1 ++ m2) = totalCount m1 + totalCount m2.
Proof.
  unfold totalCount. induction m1 as [| e m1 IH]; simpl; [reflexivity |].
  rewrite IH. lia.
Qed.

Lemma totalCount_modify (k : string)
      (f : FlowAnalyzer.EdgeData -> FlowAnalyzer.EdgeData)
      (m : OrderedMap.t FlowAnalyzer.EdgeData) :
  (forall d, FlowAnalyzer.count (f d) = FlowAnalyzer.count d + 1) ->
  OrderedMap.has k m = true ->
  totalCount (OrderedMap.modify k f m) = totalCount m + 1.
Proof.
  intros Hf. unfold OrderedMap.has, totalCount.
  induction m as [| [k0 d0] m IH]; simpl; [discriminate |].
  destruct (String.eqb k k0); simpl.
  - intros _. rewrite Hf. lia.
  - intros H. rewrite IH by exact H. lia.
Qed.

Lemma totalCount_recordEdge (keyPages : OrderedSet.t) (sourceUrl : string)
      (link : Link) (m : OrderedMap.t FlowAnalyzer.EdgeData) :
  OrderedSet.has (href link) keyPages = true ->
  totalCount (FlowAnalyzer.recordEdge keyPages sourceUrl m link)
  = totalCount m + 1.
Proof.
  intros Hkey. unfold FlowAnalyzer.recordEdge. rewrite Hkey. cbn [negb].
  destruct (OrderedMap.has (sourceUrl ++ "::" ++ href link) m) eqn:Ehas;
    cbn [negb].
  - rewrite totalCount_modify; [reflexivity | | exact Ehas].
    intros d. now destruct (_ && _).
  - rewrite totalCount_modify.
    + apply OrderedMap_has_false, OrderedMap_get_None in Ehas.
      rewrite OrderedMap_set_fresh by exact Ehas.
      rewrite totalCount_app. simpl. lia.
    + intros d. now destruct (_ && _).
    + unfold OrderedMap.has. now rewrite OrderedMap_get_set, String.eqb_refl.
Qed.

Lemma totalCount_links (keyPages : OrderedSet.t) (es : list (string * Link))
      (m : OrderedMap.t FlowAnalyzer.EdgeData) :
  Forall (fun e => OrderedSet.has (href (snd e)) keyPages = true) es ->
  totalCount
    (fold_left (fun m (e : string * Link) =>
                  FlowAnalyzer.recordEdge keyPages (fst e) m (snd e))
               es m)
  = totalCount m + List.length es.
Proof.
  intros Hall. revert m. induction Hall as [| e es Hkey _ IH]; intros m; simpl.
  - lia.
  - rewrite IH, totalCount_recordEdge by exact Hkey. lia.
Qed.

(** X6: an edge weighs what it counts.  Every edge that [buildEdges]
    returns has a weight of at least 1, and the weights add up to the number
    of qualifying link occurrences: the links on cleaned pages that are key
    pages, to key pages, each occurrence counted, repeated ones
    included. *)
Theorem edge_weights_count_link_occurrences
        (pages : Pages) (keyPages : OrderedSet.t)
        (noiseResult : NoiseReductionResult) :
  Forall (fun e => 1 <= weight e)
         (FlowAnalyzer.buildEdges pages keyPages noiseResult)
  /\ totalWeight (FlowAnalyzer.buildEdges pages keyPages noiseResult)
     = List.length (qualifyingLinks keyPages (cleanedPages noiseResult)).
Proof.
  unfold FlowAnalyzer.buildEdges. split.
  - apply Forall_forall. intros e Hin.
    apply in_map_iff in Hin. destruct Hin as [[key data] [<- Hin]].
    apply buildEdgeMap_entries in Hin. destruct Hin as [Hne [Hcount _]].
    cbn [weight]. rewrite Hcount.
    destruct (textsFor key _); [contradiction | simpl; lia].
  - transitivity (totalCount (FlowAnalyzer.buildEdgeMap keyPages noiseResult)).
    + generalize (FlowAnalyzer.buildEdgeMap keyPages noiseResult).
      intros m. unfold totalWeight, totalCount.
      induction m as [| [key data] m IH]; simpl; [reflexivity |].
      now rewrite IH.
    + unfold FlowAnalyzer.buildEdgeMap.
      rewrite buildEdgeMap_fold, totalCount_links; [reflexivity |].
      eapply Forall_impl; [| apply qualifyingLinks_keys].
      intros e [_ H]. exact H.
Qed.

Lemma keepLabel_cases (current t : string) :
  (t <> ""%string /\ String.length t < String.length current
   /\ keepLabel current t = t)
  \/ ((t = ""%string \/ String.length current <= String.length t)
      /\ keepLabel current t = current).
Proof.
  unfold keepLabel, JsString.truthy.
  destruct (String.eqb t "") eqn:E; simpl.
  - apply String.eqb_eq in E. right. split; [now left | reflexivity].
  - apply String.eqb_neq in E.
    assert (Hpos : (0 <? String.length t) = true).
    { apply Nat.ltb_lt. destruct t; [contradiction | simpl; lia]. }
    rewrite Hpos. simpl.
    destruct (Nat.ltb_spec (String.length t) (String.length current)).
    + now left.
    + right. split; [now right | reflexivity].
Qed.


(** What the fold of [keepLabel] over the later texts arrives at. *)
Lemma keepLabel_fold (later : list string) (current : string) :
  let r := fold_left keepLabel later current in
  (current = ""%string -> r = ""%string)
  /\ (current <> ""%string ->
      r <> ""%string
      /\ String.length r <= String.length current
      /\ forall t, In t later -> t <> ""%string ->
                   String.length r <= String.length t)
  /\ ((r = current
       /\ forall t, In t later ->
                    t = ""%string \/ String.length current <= String.length t)
      \/ (String.length r < String.length current
          /\ exists pre post,
              later = pre ++ r :: post
              /\ forall t, In t pre ->
                           t = ""%string \/ String.length r < String.length t)).
Proof.
  revert current. induction later as [| t later IH]; intros current; simpl.
  - split; [tauto |]. split.
    + intros H. split; [exact H |]. split; [lia | intros t []].
    + left. split; [reflexivity | intros t []].
  - destruct (keepLabel_cases current t) as [[Hne [Hlt Heq]] | [Hskip Heq]];
      rewrite Heq; clear Heq;
      [ destruct (IH t) as [IH1 [IH2 IH3]]
      | destruct (IH current) as [IH1 [IH2 IH3]] ]; clear IH;
      remember (fold_left keepLabel later _) as r eqn:Er; clear Er.
    + (* the label becomes [t] *)
      destruct (IH2 Hne) as [Hr [Hle Hall]].
      split; [| split].
      * intros ->. simpl in Hlt. lia.
      * intros _. split; [exact Hr |]. split; [lia |].
        intros x [<- | Hx] Hxne; [exact Hle | now apply Hall].
      * right. split; [lia |].
        destruct IH3 as [[-> Hrest] | [Hlt' [pre [post [Hsplit Hpre]]]]].
        -- exists [], later. split; [reflexivity | intros x []].
        -- exists (t :: pre), post. split; [simpl; f_equal; exact Hsplit |].
           intros x [<- | Hx]; [right; lia | now apply Hpre].
    + (* the label stays *)
      split; [exact IH1 | split].
      * intros Hcur. destruct (IH2 Hcur) as [Hr [Hle Hall]].
        split; [exact Hr |]. split; [exact Hle |].
        intros x [<- | Hx] Hxne; [| now apply Hall].
        destruct Hskip as [-> | Hge]; [contradiction | lia].
      * destruct IH3 as [[Hr Hrest] | [Hlt' [pre [post [Hsplit Hpre]]]]].
        -- left. split; [exact Hr |].
           intros x [<- | Hx]; [exact Hskip | now apply Hrest].
        -- right. split; [exact Hlt' |].
           exists (t :: pre), post. split; [simpl; f_equal; exact Hsplit |].
           intros x [<- | Hx]; [| now apply Hpre].
           destruct Hskip as [-> | Hge]; [now left | right; lia].
Qed.

(** X7: the label of an edge.  Let [texts] be the anchor texts of the
    links counted for an edge, in reading order.  The label is one of them,
    and no non-empty text before it is as short as it (first seen wins).
    When the first text is not empty the label is not empty and no
    non-empty text is shorter than it; when the first text is empty the
    label is empty, whatever the later texts are. *)
Theorem edge_label_is_shortest_after_first
        (keyPages : OrderedSet.t) (noiseResult : NoiseReductionResult)
        (key : string) (data : FlowAnalyzer.EdgeData) :
  In (key, data) (FlowAnalyzer.buildEdgeMap keyPages noiseResult) ->
  let texts :=
    textsFor key (qualifyingLinks keyPages (cleanedPages noiseResult)) in
  let label := FlowAnalyzer.data_label data in
  (exists pre post,
      texts = pre ++ label :: post
      /\ forall t, In t pre ->
                   t = ""%string \/ String.length label < String.length t)
  /\ (hd ""%string texts <> ""%string ->
      label <> ""%string
      /\ forall t, In t texts -> t <> ""%string ->
                   String.length label <= String.length t)
  /\ (hd ""%string texts = ""%string -> label = ""%string).
Proof.
  intros Hin texts label.
  destruct (buildEdgeMap_entries keyPages noiseResult key data Hin)
    as [Hne [_ Hlabel]].
  fold texts in Hne, Hlabel. fold label in Hlabel.
  destruct texts as [| t later]; [contradiction |].
  cbn [pickLabel hd] in *.
  destruct (keepLabel_fold later t) as [H1 [H2 H3]].
  rewrite <- Hlabel in H1, H2, H3. clear Hlabel.
  split; [| split].
  - destruct H3 as [[-> _] | [Hlt [pre [post [Hsplit Hpre]]]]].
    + exists [], later. split; [reflexivity | intros x []].
    + exists (t :: pre), post. split; [simpl; f_equal; exact Hsplit |].
      intros x [<- | Hx]; [right; exact Hlt | now apply Hpre].
  - intros Ht. destruct (H2 Ht) as [Hr [Hle Hall]].
    split; [exact Hr |].
    intros x [<- | Hx] Hxne; [exact Hle | now apply Hall].
  - exact H1.
Qed.

Lemma edge_label_is_shortest_after_first_witness :
  let keyPages := keyPagesOf Fixtures.contactSite in
  let noiseResult := NoiseReducer.reduceNoise Fixtures.contactSite in
  In "Read the blog"%string
     (textsFor "https://a.com/::https://a.com/blog"
               (qualifyingLinks keyPages (cleanedPages noiseResult)))
  /\ String.length "Blog" <= String.length "Read the blog".
Proof.
  intros keyPages noiseResult.
  split; [vm_compute; tauto |].
  assert (Hin : In ("https://a.com/::https://a.com/blog"%string,
                    FlowAnalyzer.mkEdgeData 2 "Blog")
                   (FlowAnalyzer.buildEdgeMap keyPages noiseResult))
    by (vm_compute; tauto).
  destruct (edge_label_is_shortest_after_first
              keyPages noiseResult _ _ Hin) as [_ [Hshort _]].
  assert (Hfirst : hd ""%string
                      (textsFor "https://a.com/::https://a.com/blog"
                         (qualifyingLinks keyPages (cleanedPages noiseResult)))
                   <> ""%string)
    by (vm_compute; discriminate).
  destruct (Hshort Hfirst) as [_ Hall].
  apply (Hall "Read the blog"%string); [vm_compute; tauto | discriminate].
Defined.

(** ** Edge keys *)

Lemma append_empty_r (s : string) : (s ++ "")%string = s.
Proof.
  induction s as [| c s IH]; simpl; [reflexivity | now rewrite IH].
Qed.

Lemma append_assoc (a b c : string) :
  ((a ++ b) ++ c)%string = (a ++ (b ++ c))%string.
Proof.
  induction a as [| x a IH]; simpl; [reflexivity | now rewrite IH].
Qed.

(** A string without the separator is one piece. *)
Lemma split_without_separator (s cur : string) :
  JsString.includes "::" s = false ->
  JsString.splitFrom "::" s 0 cur = [(cur ++ s)%string].
Proof.
  revert cur. induction s as [| c s IH]; intros cur H.
  - simpl. now rewrite append_empty_r.
  - cbn [JsString.includes] in H. apply orb_false_iff in H.
    destruct H as [Hstart Hrest].
    cbn [JsString.splitFrom]. rewrite Hstart.
    rewrite IH by exact Hrest. now rewrite append_assoc.
Qed.

(** The key of an edge splits into its two urls when the source url holds
    no double colon and does not end in a colon, and the target url holds no
    double colon. *)
Lemma split_edgeKey (s t cur : string) :
  JsString.includes "::" s = false ->
  JsString.endsWith ":" s = false ->
  JsString.includes "::" t = false ->
  JsString.splitFrom "::" (edgeKey s t) 0 cur = [(cur ++ s)%string; t].
Proof.
  unfold edgeKey. intros Hs Hend Ht. revert cur Hs Hend.
  induction s as [| c s IH]; intros cur Hs Hend.
  - cbn. rewrite append_empty_r. f_equal.
    now rewrite split_without_separator.
  - cbn [JsString.includes] in Hs. apply orb_false_iff in Hs.
    destruct Hs as [Hstart Hrest].
    cbn [JsString.endsWith] in Hend. apply orb_false_iff in Hend.
    destruct Hend as [Hwhole Hend].
    change (String c s ++ "::" ++ t)%string
      with (String c (s ++ "::" ++ t)%string).
    cbn [JsString.splitFrom].
    assert (Hno : JsString.startsWith "::" (String c (s ++ "::" ++ t)) = false).
    { cbn [JsString.startsWith] in Hstart |- *.
      destruct (Ascii.eqb ":" c) eqn:Ec; [| reflexivity]. simpl.
      destruct s as [| c' s'].
      - apply Ascii.eqb_eq in Ec. subst c. discriminate Hwhole.
      - simpl in Hstart |- *. exact Hstart. }
    rewrite Hno. rewrite IH by assumption. now rewrite append_assoc.
Qed.

Lemma analyze_node_ids (now : Z) (pages : Pages) (startUrl : string) :
  map id (nodes (FlowAnalyzer.analyze now pages startUrl)) = keyPagesOf pages.
Proof.
  unfold FlowAnalyzer.analyze, keyPagesOf. cbn [nodes].
  unfold FlowAnalyzer.buildNodes, OrderedMap.values.
  rewrite buildNodes_fold.
  - apply nodeEntries_ids. intros u. apply identifyKeyPages_incl.
  - apply identifyKeyPages_NoDup.
Qed.

Lemma buildEdgeMap_key_origin (keyPages : OrderedSet.t)
      (noiseResult : NoiseReductionResult)
      (key : string) (data : FlowAnalyzer.EdgeData) :
  In (key, data) (FlowAnalyzer.buildEdgeMap keyPages noiseResult) ->
  exists s link,
    In (s, link) (qualifyingLinks keyPages (cleanedPages noiseResult))
    /\ key = edgeKey s (href link).
Proof.
  intros Hin. apply buildEdgeMap_entries in Hin. destruct Hin as [Hne _].
  unfold textsFor in Hne.
  destruct (filter _ _) as [| [s link] rest] eqn:E; [contradiction |].
  assert (Hf : In (s, link)
                  (filter (fun e : string * Link =>
                             String.eqb (edgeKey (fst e) (href (snd e))) key)
                          (qualifyingLinks keyPages
                                           (cleanedPages noiseResult))))
    by (rewrite E; now left).
  apply filter_In in Hf. destruct Hf as [Hq Heq].
  apply String.eqb_eq in Heq. exists s, link. split; [exact Hq | now symmetry].
Qed.

(** X8: no dangling edge without double colons.  When no key page url holds
    a double colon or ends in a colon, every edge of the flow that [analyze]
    returns starts at the id of a node of the flow and ends at the id of a
    node of the flow. *)
Theorem edges_join_nodes_without_double_colon
        (now : Z) (pages : Pages) (startUrl : string) :
  (forall u, OrderedSet.has u (keyPagesOf pages) = true ->
             JsString.includes "::" u = false
             /\ JsString.endsWith ":" u = false) ->
  let flow := FlowAnalyzer.analyze now pages startUrl in
  Forall (fun e => In (source e) (map id (nodes flow))
                   /\ In (target e) (map id (nodes flow)))
         (edges flow).
Proof.
  intros Hurls flow. subst flow. rewrite analyze_node_ids.
  unfold FlowAnalyzer.analyze. cbn [edges]. fold (keyPagesOf pages).
  unfold FlowAnalyzer.buildEdges.
  apply Forall_forall. intros e He.
  apply in_map_iff in He. destruct He as [[key data] [<- Hin]].
  apply buildEdgeMap_key_origin in Hin.
  destruct Hin as [s [link [Hq ->]]].
  pose proof (qualifyingLinks_keys
                (keyPagesOf pages)
                (cleanedPages (NoiseReducer.reduceNoise pages))) as Hall.
  rewrite Forall_forall in Hall. destruct (Hall _ Hq) as [Hs Ht].
  cbn [fst snd] in Hs, Ht.
  destruct (Hurls _ Hs) as [Hs1 Hs2]. destruct (Hurls _ Ht) as [Ht1 _].
  unfold JsString.split. rewrite split_edgeKey by assumption.
  cbn [nth source target append].
  split; now apply OrderedSet_has_In.
Qed.

Lemma edges_join_nodes_without_double_colon_witness :
  let flow := FlowAnalyzer.analyze 0 Fixtures.contactSite "https://a.com/" in
  Forall (fun e => In (source e) (map id (nodes flow))
                   /\ In (target e) (map id (nodes flow)))
         (edges flow).
Proof.
  apply (edges_join_nodes_without_double_colon
           0 Fixtures.contactSite "https://a.com/").
  intros u H. apply OrderedSet_has_In in H. vm_compute in H.
  destruct H as [<- | [<- | [<- | []]]]; vm_compute; split; reflexivity.
Defined.

(* ================================================================== *)
(** ** Link frequencies: hub pages and global navigation *)

Lemma get_addTo (h k x : string) (m : OrderedMap.t OrderedSet.t) :
  OrderedMap.get h (addTo k x m)
  = if String.eqb h k
    then Some (OrderedSet.add x match OrderedMap.get k m with
                                | Some s => s
                                | None => OrderedSet.empty
                                end)
    else OrderedMap.get h m.
Proof.
  unfold addTo. rewrite OrderedMap_get_modify.
  destruct (String.eqb h k) eqn:E.
  - apply String.eqb_eq in E. subst h.
    unfold OrderedMap.has.
    destruct (OrderedMap.get k m) as [s |] eqn:Eg; cbn [negb].
    + now rewrite Eg.
    + now rewrite OrderedMap_get_set, String.eqb_refl.
  - destruct (OrderedMap.has k m); cbn [negb]; [reflexivity |].
    now rewrite OrderedMap_get_set, E.
Qed.

Lemma keys_addTo (k x : string) (m : OrderedMap.t OrderedSet.t) :
  NoDup (OrderedMap.keys m) -> NoDup (OrderedMap.keys (addTo k x m)).
Proof.
  intros Hnd. unfold addTo. rewrite OrderedMap_modify_keys.
  destruct (OrderedMap.has k m) eqn:Ehas; cbn [negb]; [exact Hnd |].
  apply OrderedMap_has_false, OrderedMap_get_None in Ehas.
  rewrite OrderedMap_set_fresh by exact Ehas.
  unfold OrderedMap.keys. rewrite map_app. simpl.
  apply NoDup_app; [exact Hnd | repeat constructor; simpl; tauto |].
  intros a Ha [<- | []]. exact (Ehas Ha).
Qed.

Lemma OrderedMap_modify_same {V : Type} (k : string) (f : V -> V) (v : V)
      (m : OrderedMap.t V) :
  OrderedMap.get k m = Some v -> f v = v -> OrderedMap.modify k f m = m.
Proof.
  intros Hget Hf. induction m as [| [k0 v0] m IH]; simpl in *; [reflexivity |].
  destruct (String.eqb k k0).
  - inversion Hget; subst. now rewrite Hf.
  - now rewrite IH.
Qed.

(** Adding a page to a set that holds it changes nothing. *)
Lemma addTo_present (k x : string) (s : OrderedSet.t)
      (m : OrderedMap.t OrderedSet.t) :
  OrderedMap.get k m = Some s -> In x s -> addTo k x m = m.
Proof.
  intros Hget Hin. unfold addTo, OrderedMap.has. rewrite Hget. cbn [negb].
  apply (OrderedMap_modify_same k _ s); [exact Hget |].
  unfold OrderedSet.add.
  now rewrite (proj2 (OrderedSet_has_In x s) Hin).
Qed.

Lemma get_fold_addTo (h : string) (es : list (string * string))
      (m : OrderedMap.t OrderedSet.t) :
  let xs := map snd (filter (fun e => String.eqb (fst e) h) es) in
  OrderedMap.get
    h (fold_left (fun m (e : string * string) => addTo (fst e) (snd e) m) es m)
  = match OrderedMap.get h m with
    | Some s => Some (OrderedSet.addAll xs s)
    | None =>
        match xs with
        | [] => None
        | _ :: _ => Some (OrderedSet.addAll xs OrderedSet.empty)
        end
    end.
Proof.
  revert m. induction es as [| [k x] es IH]; intros m; simpl.
  - now destruct (OrderedMap.get h m).
  - rewrite IH. rewrite get_addTo, (String.eqb_sym h k).
    destruct (String.eqb k h) eqn:E; simpl.
    + apply String.eqb_eq in E. subst k.
      now destruct (OrderedMap.get h m).
    + reflexivity.
Qed.

Lemma fold_addTo_keys_NoDup (es : list (string * string))
      (m : OrderedMap.t OrderedSet.t) :
  NoDup (OrderedMap.keys m) ->
  NoDup (OrderedMap.keys
           (fold_left (fun m (e : string * string) => addTo (fst e) (snd e) m)
                      es m)).
Proof.
  revert m. induction es as [| e es IH]; intros m Hnd; simpl; [exact Hnd |].
  apply IH, keys_addTo, Hnd.
Qed.

Lemma linkSources_keys_NoDup (pages : Pages) :
  NoDup (OrderedMap.keys (linkSources pages)).
Proof.
  apply fold_addTo_keys_NoDup. constructor.
Qed.

(** The map of sources that [identifyHubPages] builds. *)
Lemma hub_incoming_is_linkSources (pages : Pages) :
  fold_left
    (fun incoming (entry : string * PageMetadata) =>
       let '(sourceUrl, page) := entry in
       fold_left
         (fun incoming (link : Link) =>
            let incoming :=
              if negb (OrderedMap.has (href link) incoming)
              then OrderedMap.set (href link) OrderedSet.empty incoming
              else incoming in
            OrderedMap.modify (href link) (OrderedSet.add sourceUrl)
                              incoming)
         (outgoingLinks page) incoming)
    pages OrderedMap.empty
  = linkSources pages.
Proof.
  unfold linkSources, linkPairs. generalize (@OrderedMap.empty OrderedSet.t).
  induction pages as [| [u p] pages IH]; intros acc; simpl; [reflexivity |].
  rewrite fold_left_app, <- IH. f_equal.
  generalize acc. clear.
  induction (outgoingLinks p) as [| link links IHl]; intros acc; simpl;
    [reflexivity |].
  apply IHl.
Qed.

Lemma recordLink_linkFrequency (pageUrl : string)
      (stats : NoiseReducer.LinkStats) (seen : OrderedSet.t) (link : Link) :
  seenAreCounted pageUrl seen (NoiseReducer.linkFrequency stats) ->
  NoiseReducer.linkFrequency
    (fst (NoiseReducer.recordLink pageUrl (stats, seen) link))
  = addTo (href link) pageUrl (NoiseReducer.linkFrequency stats)
  /\ seenAreCounted
       pageUrl
       (snd (NoiseReducer.recordLink pageUrl (stats, seen) link))
       (NoiseReducer.linkFrequency
          (fst (NoiseReducer.recordLink pageUrl (stats, seen) link))).
Proof.
  intros Hseen. unfold NoiseReducer.recordLink.
  destruct (OrderedSet.has (href link) seen) eqn:Ehas; cbn [negb fst snd].
  - apply OrderedSet_has_In in Ehas.
    destruct (Hseen _ Ehas) as [s [Hget Hin]].
    split; [| exact Hseen].
    symmetry. now apply (addTo_present _ _ s).
  - assert (Hfreq :
      NoiseReducer.linkFrequency
        (fst (let '(freq, pos) :=
                if negb (OrderedMap.has (href link)
                                        (NoiseReducer.linkFrequency stats))
                then (OrderedMap.set (href link) OrderedSet.empty
                                     (NoiseReducer.linkFrequency stats),
                      OrderedMap.set (href link) []
                                     (NoiseReducer.linkPositionMap stats))
                else (NoiseReducer.linkFrequency stats,
                      NoiseReducer.linkPositionMap stats) in
              (NoiseReducer.mkLinkStats
                 (OrderedMap.modify (href link) (OrderedSet.add pageUrl) freq)
                 (if negb (OrderedMap.has (href link)
                                          (NoiseReducer.linkTextMap stats))
                     && JsString.truthy (text link)
                  then OrderedMap.set (href link) (text link)
                                      (NoiseReducer.linkTextMap stats)
                  else NoiseReducer.linkTextMap stats)
                 (OrderedMap.modify (href link)
                                    (fun ps => ps ++ [position link]) pos),
               OrderedSet.add (href link) seen)))
      = addTo (href link) pageUrl (NoiseReducer.linkFrequency stats)).
    { unfold addTo.
      now destruct (OrderedMap.has (href link)
                                   (NoiseReducer.linkFrequency stats)). }
    split; [exact Hfreq |].
    rewrite Hfreq. intros k Hk.
    assert (Hk' : k = href link \/ In k seen).
    { destruct (OrderedMap.has (href link)
                               (NoiseReducer.linkFrequency stats));
        cbn [negb snd] in Hk; now apply OrderedSet_add_In in Hk. }
    rewrite get_addTo.
    destruct (String.eqb k (href link)) eqn:E.
    + eexists. split; [reflexivity |]. apply OrderedSet_add_In. now left.
    + destruct Hk' as [-> | Hk']; [now rewrite String.eqb_refl in E |].
      now apply Hseen.
Qed.

Lemma recordLinks_linkFrequency (pageUrl : string) (links : list Link)
      (stats : NoiseReducer.LinkStats) (seen : OrderedSet.t) :
  seenAreCounted pageUrl seen (NoiseReducer.linkFrequency stats) ->
  NoiseReducer.linkFrequency
    (fst (fold_left (NoiseReducer.recordLink pageUrl) links (stats, seen)))
  = fold_left (fun m (e : string * string) => addTo (fst e) (snd e) m)
              (map (fun link => (href link, pageUrl)) links)
              (NoiseReducer.linkFrequency stats).
Proof.
  revert stats seen. induction links as [| link links IH];
    intros stats seen Hseen; cbn [fold_left map fst snd]; [reflexivity |].
  destruct (recordLink_linkFrequency pageUrl stats seen link Hseen)
    as [Hfreq Hseen'].
  destruct (NoiseReducer.recordLink pageUrl (stats, seen) link)
    as [stats' seen'].
  cbn [fst snd] in Hfreq, Hseen'.
  rewrite (IH stats' seen' Hseen'). now rewrite Hfreq.
Qed.

(** The map of pages per link that [identifyGlobalNavigation] builds is the
    map of sources that [identifyHubPages] builds. *)
Lemma linkFrequency_is_linkSources (pages : Pages) :
  NoiseReducer.linkFrequency
    (fold_left NoiseReducer.recordPage pages NoiseReducer.noLinkStats)
  = linkSources pages.
Proof.
  unfold linkSources, linkPairs.
  change (@OrderedMap.empty OrderedSet.t)
    with (NoiseReducer.linkFrequency NoiseReducer.noLinkStats).
  generalize NoiseReducer.noLinkStats.
  induction pages as [| [u p] pages IH]; intros stats; simpl; [reflexivity |].
  rewrite fold_left_app, IH. f_equal.
  apply recordLinks_linkFrequency. intros k [].
Qed.

Lemma hub_fold_In (total : nat) (entries : list (string * OrderedSet.t))
      (acc : OrderedSet.t) (h : string) :
  In h (fold_left
          (fun hubPages (entry : string * OrderedSet.t) =>
             let '(targetUrl, sources) := entry in
             let linkFrequency := (num (OrderedSet.size sources)
                                   / num total)%Q in
             if Qle_bool NoiseReducer.HUB_PAGE_THRESHOLD linkFrequency
             then OrderedSet.add targetUrl hubPages
             else hubPages)
          entries acc)
  <-> In h acc
      \/ exists s, In (h, s) entries
                   /\ Qle_bool NoiseReducer.HUB_PAGE_THRESHOLD
                               (num (OrderedSet.size s) / num total)
                      = true.
Proof.
  revert acc. induction entries as [| [k s] entries IH]; intros acc; simpl.
  - split; [now left | intros [H | [s [[] _]]]; exact H].
  - rewrite IH. clear IH.
    destruct (Qle_bool NoiseReducer.HUB_PAGE_THRESHOLD
                       (num (OrderedSet.size s) / num total)) eqn:E.
    + rewrite OrderedSet_add_In. split.
      * intros [[-> | H] | [s' [H Hc]]].
        -- right. exists s. split; [now left | exact E].
        -- now left.
        -- right. exists s'. split; [now right | exact Hc].
      * intros [H | [s' [[Heq | H] Hc]]].
        -- left. now right.
        -- inversion Heq; subst. left. now left.
        -- right. now exists s'.
    + split.
      * intros [H | [s' [H Hc]]]; [now left |].
        right. exists s'. split; [now right | exact Hc].
      * intros [H | [s' [[Heq | H] Hc]]]; [now left | |].
        -- inversion Heq; subst. congruence.
        -- right. now exists s'.
Qed.

Lemma identifyHubPages_In (pages : Pages) (h : string) :
  In h (NoiseReducer.identifyHubPages pages)
  <-> exists s, In (h, s) (linkSources pages)
                /\ Qle_bool NoiseReducer.HUB_PAGE_THRESHOLD
                            (num (OrderedSet.size s)
                             / num (OrderedMap.size pages))
                   = true.
Proof.
  unfold NoiseReducer.identifyHubPages. cbv zeta.
  rewrite hub_incoming_is_linkSources, hub_fold_In.
  unfold OrderedSet.empty. simpl. tauto.
Qed.

(** What [identifyGlobalNavigation] records for a link that passes the
    threshold. *)
Lemma globalNav_fold_In (total : nat) (stats : NoiseReducer.LinkStats)
      (entries : list (string * OrderedSet.t))
      (acc : OrderedMap.t NavigationInfo) (h : string) (info : NavigationInfo) :
  In (h, info)
     (fold_left
        (fun globalNavLinks (entry : string * OrderedSet.t) =>
           let '(link, appearingOn) := entry in
           let frequency := (num (OrderedSet.size appearingOn)
                             / num total)%Q in
           if Qle_bool NoiseReducer.GLOBAL_NAV_THRESHOLD frequency then
             let positions :=
               match OrderedMap.get link (NoiseReducer.linkPositionMap stats)
               with
               | Some ps => ps
               | None => []
               end in
             let isStructural :=
               NoiseReducer.isStructuralNavigation positions in
             OrderedMap.set link
               (mkNavigationInfo link frequency (OrderedSet.size appearingOn)
                  total
                  (match OrderedMap.get link (NoiseReducer.linkTextMap stats)
                   with
                   | Some t => if JsString.truthy t then t else ""%string
                   | None => ""%string
                   end)
                  positions isStructural true)
               globalNavLinks
           else globalNavLinks)
        entries acc) ->
  In (h, info) acc
  \/ exists s, In (h, s) entries
               /\ Qle_bool NoiseReducer.GLOBAL_NAV_THRESHOLD
                           (num (OrderedSet.size s) / num total)
                  = true
               /\ nav_url info = h
               /\ frequency info = (num (OrderedSet.size s) / num total)%Q
               /\ appearingOnPages info = OrderedSet.size s
               /\ nav_totalPages info = total
               /\ isGlobalNav info = true.
Proof.
  revert acc. induction entries as [| [k s] entries IH]; intros acc; simpl.
  - now left.
  - intros H. apply IH in H. clear IH.
    destruct H as [H | [s' [H Hrest]]].
    + destruct (Qle_bool NoiseReducer.GLOBAL_NAV_THRESHOLD
                         (num (OrderedSet.size s) / num total)) eqn:E.
      * apply OrderedMap_set_In in H. destruct H as [[-> ->] | H];
          [| now left].
        right. exists s. cbn. repeat split; [now left | exact E].
      * now left.
    + right. exists s'. split; [now right | exact Hrest].
Qed.

Lemma globalNav_fold_keys (total : nat) (stats : NoiseReducer.LinkStats)
      (entries : list (string * OrderedSet.t))
      (acc : OrderedMap.t NavigationInfo) (h : string) :
  (In h (OrderedMap.keys acc)
   \/ exists s, In (h, s) entries
                /\ Qle_bool NoiseReducer.GLOBAL_NAV_THRESHOLD
                            (num (OrderedSet.size s) / num total)
                   = true) ->
  In h (OrderedMap.keys
          (fold_left
             (fun globalNavLinks (entry : string * OrderedSet.t) =>
                let '(link, appearingOn) := entry in
                let frequency := (num (OrderedSet.size appearingOn)
                                  / num total)%Q in
                if Qle_bool NoiseReducer.GLOBAL_NAV_THRESHOLD frequency then
                  let positions :=
                    match OrderedMap.get link
                                         (NoiseReducer.linkPositionMap stats)
                    with
                    | Some ps => ps
                    | None => []
                    end in
                  let isStructural :=
                    NoiseReducer.isStructuralNavigation positions in
                  OrderedMap.set link
                    (mkNavigationInfo link frequency
                       (OrderedSet.size appearingOn) total
                       (match OrderedMap.get link
                                             (NoiseReducer.linkTextMap stats)
                        with
                        | Some t => if JsString.truthy t then t else ""%string
                        | None => ""%string
                        end)
                       positions isStructural true)
                    globalNavLinks
                else globalNavLinks)
             entries acc)).
Proof.
  revert acc. induction entries as [| [k s] entries IH]; intros acc; simpl.
  - intros [H | [s [[] _]]]. exact H.
  - intros H. apply IH. clear IH.
    destruct (Qle_bool NoiseReducer.GLOBAL_NAV_THRESHOLD
                       (num (OrderedSet.size s) / num total)) eqn:E.
    + destruct H as [H | [s' [[Heq | H] Hc]]].
      * left. apply OrderedMap_set_keys. now right.
      * inversion Heq; subst. left. apply OrderedMap_set_keys. now left.
      * right. now exists s'.
    + destruct H as [H | [s' [[Heq | H] Hc]]].
      * now left.
      * inversion Heq; subst. congruence.
      * right. now exists s'.
Qed.

(** X9: every hub page is global navigation.  Both detectors count the
    pages that link to a href, and a share of at least 0.9 is a share of at
    least 0.85: a url in the hub-page set is a key of the global-navigation
    map, so its flat +40 is always followed by the 0.7 penalty of the
    score. *)
Theorem hub_pages_are_global_navigation (pages : Pages) (h : string) :
  OrderedSet.has h (NoiseReducer.identifyHubPages pages) = true ->
  OrderedMap.has h (NoiseReducer.identifyGlobalNavigation pages) = true.
Proof.
  intros H. apply OrderedSet_has_In, identifyHubPages_In in H.
  destruct H as [s [Hin Hc]].
  apply OrderedMap_has_keys.
  unfold NoiseReducer.identifyGlobalNavigation. cbv zeta.
  apply globalNav_fold_keys. right. exists s.
  rewrite linkFrequency_is_linkSources. split; [exact Hin |].
  apply Qle_bool_iff. apply Qle_bool_iff in Hc.
  eapply Qle_trans; [| exact Hc].
  unfold NoiseReducer.GLOBAL_NAV_THRESHOLD, NoiseReducer.HUB_PAGE_THRESHOLD.
  discriminate.
Qed.

Lemma hub_pages_are_global_navigation_witness :
  OrderedMap.has "https://a.com/about"
                 (NoiseReducer.identifyGlobalNavigation Samples.aboutSite)
  = true.
Proof.
  apply (hub_pages_are_global_navigation Samples.aboutSite).
  vm_compute. reflexivity.
Defined.

Lemma OrderedSet_add_idempotent (x : string) (s : OrderedSet.t) :
  OrderedSet.add x (OrderedSet.add x s) = OrderedSet.add x s.
Proof.
  unfold OrderedSet.add at 1.
  assert (H : OrderedSet.has x (OrderedSet.add x s) = true)
    by (apply OrderedSet_has_In, OrderedSet_add_In; now left).
  now rewrite H.
Qed.

Lemma OrderedSet_addAll_app (xs ys : list string) (s : OrderedSet.t) :
  OrderedSet.addAll (xs ++ ys) s
  = OrderedSet.addAll ys (OrderedSet.addAll xs s).
Proof.
  unfold OrderedSet.addAll. apply fold_left_app.
Qed.

(** The sources one page contributes for [h]: itself, once, if it links to
    [h]. *)
Lemma addAll_page_sources (h u : string) (links : list Link)
      (s : OrderedSet.t) :
  OrderedSet.addAll
    (map snd (filter (fun e : string * string => String.eqb (fst e) h)
                     (map (fun link => (href link, u)) links)))
    s
  = if existsb (fun link => String.eqb (href link) h) links
    then OrderedSet.add u s
    else s.
Proof.
  revert s. induction links as [| link links IH]; intros s; simpl;
    [reflexivity |].
  destruct (String.eqb (href link) h); simpl.
  - unfold OrderedSet.addAll in *. simpl. rewrite IH.
    destruct (existsb _ links); [apply OrderedSet_add_idempotent | reflexivity].
  - apply IH.
Qed.

(** With distinct page keys, the sources collected for [h] are the pages
    that link to [h], in crawl order. *)
Lemma sources_are_linking_pages (h : string) (pages : Pages)
      (s : OrderedSet.t) :
  NoDup (s ++ OrderedMap.keys pages) ->
  OrderedSet.addAll
    (map snd (filter (fun e : string * string => String.eqb (fst e) h)
                     (linkPairs pages)))
    s
  = s ++ map fst (pagesLinkingTo h pages).
Proof.
  unfold linkPairs, pagesLinkingTo.
  revert s. induction pages as [| [u p] pages IH]; intros s Hnd; simpl.
  - now rewrite app_nil_r.
  - rewrite filter_app, map_app, OrderedSet_addAll_app, addAll_page_sources.
    destruct (existsb _ (outgoingLinks p)); simpl.
    + assert (Hu : OrderedSet.has u s = false).
      { apply OrderedSet_has_not_In. apply NoDup_remove_2 in Hnd.
        intros Hin. apply Hnd. apply in_or_app. now left. }
      unfold OrderedSet.add. rewrite Hu.
      rewrite IH; [now rewrite <- app_assoc |].
      rewrite <- app_assoc. exact Hnd.
    + apply IH. now apply NoDup_remove_1 in Hnd.
Qed.

Lemma linkSources_get (pages : Pages) (h : string) :
  NoDup (OrderedMap.keys pages) ->
  OrderedMap.get h (linkSources pages)
  = match pagesLinkingTo h pages with
    | [] => None
    | _ :: _ => Some (map fst (pagesLinkingTo h pages))
    end.
Proof.
  intros Hnd. unfold linkSources. rewrite get_fold_addTo.
  cbn [OrderedMap.get OrderedMap.empty].
  pose proof (sources_are_linking_pages h pages [] Hnd) as Hsrc.
  cbn [app] in Hsrc. unfold OrderedSet.empty.
  remember (map snd (filter (fun e : string * string => String.eqb (fst e) h)
                            (linkPairs pages))) as xs eqn:Exs.
  clear Exs.
  destruct (pagesLinkingTo h pages) as [| e es]; destruct xs as [| x xs].
  - reflexivity.
  - exfalso.
    assert (Hin : In x (OrderedSet.addAll (x :: xs) []))
      by (apply OrderedSet_addAll_In; right; now left).
    rewrite Hsrc in Hin. destruct Hin.
  - discriminate Hsrc.
  - now rewrite Hsrc.
Qed.

Lemma linkSources_entry (pages : Pages) (h : string) (s : OrderedSet.t) :
  NoDup (OrderedMap.keys pages) ->
  In (h, s) (linkSources pages)
  <-> pagesLinkingTo h pages <> [] /\ s = map fst (pagesLinkingTo h pages).
Proof.
  intros Hnd. split.
  - intros Hin. apply OrderedMap_get_In in Hin;
      [| apply linkSources_keys_NoDup].
    rewrite linkSources_get in Hin by exact Hnd.
    destruct (pagesLinkingTo h pages); [discriminate |].
    inversion Hin. split; [discriminate | reflexivity].
  - intros [Hne ->].
    pose proof (linkSources_get pages h Hnd) as Hget.
    destruct (pagesLinkingTo h pages) as [| e es] eqn:El; [contradiction |].
    clear Hne. revert Hget. generalize (linkSources pages).
    intros m. induction m as [| [k v] m IH]; simpl; [discriminate |].
    destruct (String.eqb h k) eqn:E.
    + apply String.eqb_eq in E. subst k. intros Hget. inversion Hget. now left.
    + intros Hget. right. now apply IH.
Qed.

(** X10: hub pages by their share.  With distinct page keys, a url is in
    the hub-page set exactly when at least one page links to it and the pages
    that link to it (each counted once, whatever the number of its links,
    the target itself included if it links to itself) are at least 0.9 of
    all pages. *)
Theorem hub_page_iff_linked_from_most_pages (pages : Pages) (h : string) :
  NoDup (OrderedMap.keys pages) ->
  OrderedSet.has h (NoiseReducer.identifyHubPages pages) = true
  <-> pagesLinkingTo h pages <> []
      /\ (NoiseReducer.HUB_PAGE_THRESHOLD
          <= num (List.length (pagesLinkingTo h pages))
             / num (OrderedMap.size pages))%Q.
Proof.
  intros Hnd. rewrite OrderedSet_has_In, identifyHubPages_In. split.
  - intros [s [Hin Hc]]. apply (linkSources_entry pages h s Hnd) in Hin.
    destruct Hin as [Hne ->]. split; [exact Hne |].
    apply Qle_bool_iff in Hc. unfold OrderedSet.size in Hc.
    now rewrite length_map in Hc.
  - intros [Hne Hc]. exists (map fst (pagesLinkingTo h pages)). split.
    + now apply linkSources_entry.
    + apply Qle_bool_iff. unfold OrderedSet.size. now rewrite length_map.
Qed.

Lemma hub_page_iff_linked_from_most_pages_witness :
  OrderedSet.has "https://a.com/about"
                 (NoiseReducer.identifyHubPages Samples.aboutSite) = true
  <-> pagesLinkingTo "https://a.com/about" Samples.aboutSite <> []
      /\ (NoiseReducer.HUB_PAGE_THRESHOLD
          <= num (List.length
                    (pagesLinkingTo "https://a.com/about" Samples.aboutSite))
             / num (OrderedMap.size Samples.aboutSite))%Q.
Proof.
  apply (hub_page_iff_linked_from_most_pages Samples.aboutSite).
  repeat constructor; simpl; intuition discriminate.
Defined.

(** X11: global navigation by its share.  With distinct page keys, a href
    is a key of the global-navigation map exactly when at least one page
    links to it and the pages on which it appears are at least 0.85 of all
    pages. *)
Theorem global_navigation_iff_on_most_pages (pages : Pages) (h : string) :
  NoDup (OrderedMap.keys pages) ->
  OrderedMap.has h (NoiseReducer.identifyGlobalNavigation pages) = true
  <-> pagesLinkingTo h pages <> []
      /\ (NoiseReducer.GLOBAL_NAV_THRESHOLD
          <= num (List.length (pagesLinkingTo h pages))
             / num (OrderedMap.size pages))%Q.
Proof.
  intros Hnd. rewrite OrderedMap_has_keys.
  unfold NoiseReducer.identifyGlobalNavigation. cbv zeta.
  rewrite linkFrequency_is_linkSources. split.
  - intros Hin. unfold OrderedMap.keys in Hin.
    apply in_map_iff in Hin. destruct Hin as [[k info] [Hk Hin]].
    cbn in Hk. subst k.
    apply globalNav_fold_In in Hin. destruct Hin as [[] | [s [Hin [Hc _]]]].
    apply (linkSources_entry pages h s Hnd) in Hin.
    destruct Hin as [Hne ->]. split; [exact Hne |].
    apply Qle_bool_iff in Hc. unfold OrderedSet.size in Hc.
    now rewrite length_map in Hc.
  - intros [Hne Hc]. apply globalNav_fold_keys. right.
    exists (map fst (pagesLinkingTo h pages)). split.
    + now apply linkSources_entry.
    + apply Qle_bool_iff. unfold OrderedSet.size. now rewrite length_map.
Qed.

Lemma global_navigation_iff_on_most_pages_witness :
  OrderedMap.has "https://a.com/about"
                 (NoiseReducer.identifyGlobalNavigation Samples.aboutSite)
  = true
  <-> pagesLinkingTo "https://a.com/about" Samples.aboutSite <> []
      /\ (NoiseReducer.GLOBAL_NAV_THRESHOLD
          <= num (List.length
                    (pagesLinkingTo "https://a.com/about" Samples.aboutSite))
             / num (OrderedMap.size Samples.aboutSite))%Q.
Proof.
  apply (global_navigation_iff_on_most_pages Samples.aboutSite).
  repeat constructor; simpl; intuition discriminate.
Defined.

Lemma OrderedMap_get_Some_In {V : Type} (k : string) (v : V)
      (m : OrderedMap.t V) :
  OrderedMap.get k m = Some v -> In (k, v) m.
Proof.
  induction m as [| [k0 v0] m IH]; simpl; [discriminate |].
  destruct (String.eqb k k0) eqn:E.
  - apply String.eqb_eq in E. subst k0. intros H. inversion H. now left.
  - intros H. right. now apply IH.
Qed.

Lemma share_at_most_one (a t : nat) :
  0 < a -> a <= t -> (num a / num t <= 1)%Q.
Proof.
  intros Ha Hat. apply Qle_shift_div_r.
  - unfold Qlt, num. cbn -[Z.mul Z.of_nat]. lia.
  - unfold Qle, num. cbn -[Z.mul Z.of_nat]. lia.
Qed.

(** X12: the evidence kept for a global-navigation link.  With distinct
    page keys, the record stored under a href names that href, is flagged
    as global navigation, counts the pages on which the href appears and all
    pages, and its frequency is the quotient of the two, at least 0.85 and
    at most 1. *)
Theorem global_navigation_info_counts_pages
        (pages : Pages) (h : string) (info : NavigationInfo) :
  NoDup (OrderedMap.keys pages) ->
  OrderedMap.get h (NoiseReducer.identifyGlobalNavigation pages) = Some info ->
  nav_url info = h
  /\ isGlobalNav info = true
  /\ appearingOnPages info = List.length (pagesLinkingTo h pages)
  /\ nav_totalPages info = OrderedMap.size pages
  /\ frequency info
     = (num (appearingOnPages info) / num (nav_totalPages info))%Q
  /\ (NoiseReducer.GLOBAL_NAV_THRESHOLD <= frequency info)%Q
  /\ (frequency info <= 1)%Q.
Proof.
  intros Hnd Hget. apply OrderedMap_get_Some_In in Hget.
  unfold NoiseReducer.identifyGlobalNavigation in Hget. cbv zeta in Hget.
  rewrite linkFrequency_is_linkSources in Hget.
  apply globalNav_fold_In in Hget.
  destruct Hget as [[] | [s [Hin [Hc [Hurl [Hfreq [Happ [Htot Hflag]]]]]]]].
  apply (linkSources_entry pages h s Hnd) in Hin. destruct Hin as [Hne ->].
  unfold OrderedSet.size in *. rewrite length_map in *.
  apply Qle_bool_iff in Hc.
  repeat split; try assumption.
  - now rewrite Happ, Htot.
  - now rewrite Hfreq.
  - rewrite Hfreq. apply share_at_most_one.
    + destruct (pagesLinkingTo h pages); [contradiction | simpl; lia].
    + unfold pagesLinkingTo, OrderedMap.size. apply filter_length_le.
Qed.

Lemma global_navigation_info_counts_pages_witness :
  exists info,
    OrderedMap.get "https://a.com/about"
                   (NoiseReducer.identifyGlobalNavigation Samples.aboutSite)
    = Some info
    /\ appearingOnPages info = 2 /\ nav_totalPages info = 2.
Proof.
  eexists. split; [vm_compute; reflexivity |].
  pose proof (global_navigation_info_counts_pages
                Samples.aboutSite "https://a.com/about" _
                ltac:(repeat constructor; simpl; intuition discriminate)
                eq_refl) as H.
  destruct H as [_ [_ [Happ [Htot _]]]].
  split; [exact Happ | exact Htot].
Defined.

(* ================================================================== *)
(** ** Bounds of the importance score *)

Lemma addIf_nonneg (hit : bool) (points score : Q) :
  (0 <= points)%Q -> (0 <= score)%Q ->
  (0 <= FlowAnalyzer.addIf hit points score)%Q.
Proof.
  intros Hp Hs. unfold FlowAnalyzer.addIf. destruct hit; [| exact Hs].
  replace 0%Q with (0 + 0)%Q by reflexivity. now apply Qplus_le_compat.
Qed.

Lemma addIf_mono (hit : bool) (points s1 s2 : Q) :
  (s1 <= s2)%Q ->
  (FlowAnalyzer.addIf hit points s1 <= FlowAnalyzer.addIf hit points s2)%Q.
Proof.
  intros H. unfold FlowAnalyzer.addIf. destruct hit; [| exact H].
  apply Qplus_le_compat; [exact H | apply Qle_refl].
Qed.

Lemma num_nonneg (n : nat) : (0 <= num n)%Q.
Proof.
  unfold Qle, num. cbn -[Z.mul Z.of_nat]. lia.
Qed.

Lemma depth_term_nonneg (d : Z) : (0 <= inject_Z (6 - Z.min d 6) * 10)%Q.
Proof.
  unfold Qle, Qmult, inject_Z. cbn [Qnum Qden]. lia.
Qed.

Lemma depth_term_antitone (d1 d2 : Z) :
  (d1 <= d2)%Z ->
  (inject_Z (6 - Z.min d2 6) * 10 <= inject_Z (6 - Z.min d1 6) * 10)%Q.
Proof.
  intros H. unfold Qle, Qmult, inject_Z. cbn [Qnum Qden]. lia.
Qed.

Lemma Qplus_nonneg (a b : Q) : (0 <= a)%Q -> (0 <= b)%Q -> (0 <= a + b)%Q.
Proof.
  intros Ha Hb. replace 0%Q with (0 + 0)%Q by reflexivity.
  now apply Qplus_le_compat.
Qed.

(** X13: every page scores at least the base.  The additive factors are
    never negative (a depth beyond 6 counts as 6), the penalty only scales
    them, and the base of 10 is added last: no score is below 10. *)
Theorem score_is_at_least_the_base
        (u : string) (page : PageMetadata) (allPages : Pages)
        (incomingLinks : OrderedMap.t nat)
        (noiseResult : NoiseReductionResult) :
  (10 <= FlowAnalyzer.calculatePageImportance
           u page allPages incomingLinks noiseResult)%Q.
Proof.
  unfold FlowAnalyzer.calculatePageImportance. cbv zeta.
  match goal with
  | |- (10 <= (if _ then ?x * 0.7 else ?x) + 10)%Q =>
      assert (Hx : (0 <= x)%Q)
  end.
  { repeat (apply addIf_nonneg; [discriminate |]).
    assert (H2 : forall s : Q,
               (0 <= s)%Q ->
               (0 <= s + inject_Z (6 - Z.min (depth page) 6) * 10)%Q)
      by (intros s Hs; apply Qplus_nonneg; [exact Hs | apply depth_term_nonneg]).
    assert (H1 : (0 <= if negb (OrderedSet.has u (hubPages noiseResult))
                       then 0 + num match OrderedMap.get u incomingLinks with
                                    | Some n => n
                                    | None => 0
                                    end * 15
                       else 0 + 40)%Q).
    { destruct (negb _); [| discriminate].
      apply Qplus_nonneg; [discriminate |].
      apply Qmult_le_0_compat; [apply num_nonneg | discriminate]. }
    destruct (OrderedMap.get u (cleanedPages noiseResult)) as [cp |];
      [destruct (0 <? List.length (outgoingLinks cp)) |]; try (apply H2, H1).
    apply Qplus_nonneg; [apply H2, H1 |].
    apply Qmult_le_0_compat; [apply num_nonneg | discriminate]. }
  destruct (OrderedMap.has u (globalNavigation noiseResult)).
  - rewrite <- (Qplus_0_l 10) at 1. apply Qplus_le_compat; [| apply Qle_refl].
    apply Qmult_le_0_compat; [exact Hx | discriminate].
  - rewrite <- (Qplus_0_l 10) at 1. apply Qplus_le_compat; [exact Hx |].
    apply Qle_refl.
Qed.

(** X14: a shallower page never scores less.  Of two page records with the
    same title, scored under the same url with the same noise result and
    incoming-link counts, the one at the smaller depth scores at least as
    much as the other. *)
Theorem score_is_antitone_in_depth
        (u : string) (p1 p2 : PageMetadata) (allPages : Pages)
        (incomingLinks : OrderedMap.t nat)
        (noiseResult : NoiseReductionResult) :
  title p1 = title p2 ->
  (depth p1 <= depth p2)%Z ->
  (FlowAnalyzer.calculatePageImportance
     u p2 allPages incomingLinks noiseResult
   <= FlowAnalyzer.calculatePageImportance
        u p1 allPages incomingLinks noiseResult)%Q.
Proof.
  intros Htitle Hdepth.
  unfold FlowAnalyzer.calculatePageImportance. cbv zeta. rewrite Htitle.
  match goal with
  | |- ((if _ then ?x * 0.7 else ?x) + 10
        <= (if _ then ?y * 0.7 else ?y) + 10)%Q =>
      assert (Hxy : (x <= y)%Q)
  end.
  { repeat apply addIf_mono.
    assert (H2 : forall s : Q,
               (s + inject_Z (6 - Z.min (depth p2) 6) * 10
                <= s + inject_Z (6 - Z.min (depth p1) 6) * 10)%Q).
    { intros s. apply Qplus_le_compat; [apply Qle_refl |].
      now apply depth_term_antitone. }
    destruct (OrderedMap.get u (cleanedPages noiseResult)) as [cp |];
      [destruct (0 <? List.length (outgoingLinks cp)) |]; try apply H2.
    apply Qplus_le_compat; [apply H2 | apply Qle_refl]. }
  apply Qplus_le_compat; [| apply Qle_refl].
  destruct (OrderedMap.has u (globalNavigation noiseResult)); [| exact Hxy].
  apply Qmult_le_compat_r; [exact Hxy | discriminate].
Qed.

Lemma score_is_antitone_in_depth_witness :
  let noiseResult := NoiseReducer.reduceNoise Fixtures.contactSite in
  let incomingLinks :=
    FlowAnalyzer.buildIncomingLinksMap Fixtures.contactSite noiseResult in
  (FlowAnalyzer.calculatePageImportance
     "https://a.com/blog" (mkPage "https://a.com/blog" "Blog" 4 [] 0)
     Fixtures.contactSite incomingLinks noiseResult
   <= FlowAnalyzer.calculatePageImportance
        "https://a.com/blog" (mkPage "https://a.com/blog" "Blog" 1 [] 0)
        Fixtures.contactSite incomingLinks noiseResult)%Q.
Proof.
  intros noiseResult incomingLinks.
  apply (score_is_antitone_in_depth
           "https://a.com/blog"
           (mkPage "https://a.com/blog" "Blog" 1 [] 0)
           (mkPage "https://a.com/blog" "Blog" 4 [] 0)).
  - reflexivity.
  - simpl. lia.
Defined.

(* ================================================================== *)
(** ** Node labels and path segments *)

Lemma splitFrom_not_nil (sep s : string) (skip : nat) (cur : string) :
  JsString.splitFrom sep s skip cur <> [].
Proof.
  revert skip cur. induction s as [| c s IH]; intros skip cur; simpl.
  - discriminate.
  - destruct skip; [| apply IH].
    destruct (JsString.startsWith sep (String c s)); [discriminate | apply IH].
Qed.

Lemma startsWith_char (c d : ascii) (r : string) :
  JsString.startsWith (String c "") (String d r) = Ascii.eqb c d.
Proof.
  simpl. now rewrite andb_true_r.
Qed.

Lemma includes_char_snoc (c d : ascii) (s : string) :
  JsString.includes (String c "") s = false ->
  Ascii.eqb c d = false ->
  JsString.includes (String c "") (s ++ String d "") = false.
Proof.
  intros Hs Hd. induction s as [| x s IH].
  - cbn. now rewrite Hd.
  - change (String x s ++ String d "")%string
      with (String x (s ++ String d "")%string).
    cbn [JsString.includes] in Hs |- *.
    rewrite startsWith_char in Hs |- *.
    apply orb_false_iff in Hs. destruct Hs as [Hx Hrest].
    rewrite Hx. simpl. now apply IH.
Qed.

(** No piece of a split by one character holds that character. *)
Lemma split_char_pieces (c : ascii) (s cur : string) :
  JsString.includes (String c "") cur = false ->
  Forall (fun piece => JsString.includes (String c "") piece = false)
         (JsString.splitFrom (String c "") s 0 cur).
Proof.
  revert cur. induction s as [| d s IH]; intros cur Hcur.
  - simpl. constructor; [exact Hcur | constructor].
  - cbn [JsString.splitFrom]. rewrite startsWith_char.
    destruct (Ascii.eqb c d) eqn:E.
    + simpl. constructor; [exact Hcur |]. apply IH. reflexivity.
    + apply IH. now apply includes_char_snoc.
Qed.

(** A split by one character gives the whole string, or two pieces and
    more. *)
Lemma split_char_one_or_more (c : ascii) (s cur : string) :
  JsString.splitFrom (String c "") s 0 cur = [(cur ++ s)%string]
  \/ exists a b rest,
      JsString.splitFrom (String c "") s 0 cur = a :: b :: rest.
Proof.
  revert cur. induction s as [| d s IH]; intros cur.
  - left. simpl. now rewrite append_empty_r.
  - cbn [JsString.splitFrom]. rewrite startsWith_char.
    destruct (Ascii.eqb c d).
    + right. simpl.
      destruct (JsString.splitFrom (String c "") s 0 "") as [| b rest] eqn:E.
      * now apply splitFrom_not_nil in E.
      * now exists cur, b, rest.
    + destruct (IH (cur ++ String d "")%string) as [H | H].
      * left. rewrite H. now rewrite append_assoc.
      * now right.
Qed.


Lemma capitalize_not_empty (w : string) :
  w <> ""%string -> FlowAnalyzer.capitalize w <> ""%string.
Proof.
  destruct w; [contradiction | discriminate].
Qed.


(** X15: path segments.  [getPathSegments] never returns an empty segment
    nor a segment that holds a slash. *)
Theorem getPathSegments_are_proper (u : string) :
  Forall (fun seg => seg <> ""%string
                     /\ JsString.includes "/" seg = false)
         (UrlUtils.getPathSegments u).
Proof.
  unfold UrlUtils.getPathSegments.
  destruct (URL.parse u) as [urlObj |]; [| constructor].
  apply Forall_forall. intros seg Hin.
  apply filter_In in Hin. destruct Hin as [Hin Hlen].
  split.
  - intros ->. discriminate Hlen.
  - pose proof (split_char_pieces "/" (URL.pathname urlObj) "" eq_refl) as H.
    rewrite Forall_forall in H. now apply H.
Qed.

Lemma join_cons (sep p : string) (ps : list string) :
  ps <> [] ->
  JsString.join sep (p :: ps) = (p ++ sep ++ JsString.join sep ps)%string.
Proof. destruct ps; [congruence | reflexivity]. Qed.










(* ================================================================== *)
(** ** Text outline *)

Lemma filter_length_mono {A : Type} (f g : A -> bool) (l : list A) :
  (forall x, In x l -> f x = true -> g x = true) ->
  List.length (filter f l) <= List.length (filter g l).
Proof.
  induction l as [| x l IH]; intros H; simpl; [lia |].
  assert (IH' : List.length (filter f l) <= List.length (filter g l))
    by (apply IH; intros y Hy; apply H; now right).
  destruct (f x) eqn:Ef.
  - rewrite (H x (or_introl eq_refl) Ef). simpl. lia.
  - destruct (g x); simpl; lia.
Qed.

Lemma filter_length_strict {A : Type} (f g : A -> bool) (l : list A) (a : A) :
  (forall x, In x l -> f x = true -> g x = true) ->
  In a l -> f a = false -> g a = true ->
  List.length (filter f l) < List.length (filter g l).
Proof.
  induction l as [| x l IH]; intros H Ha Hfa Hga; [destruct Ha |].
  simpl. destruct Ha as [-> | Ha].
  - rewrite Hfa, Hga. simpl.
    assert (List.length (filter f l) <= List.length (filter g l))
      by (apply filter_length_mono; intros y Hy; apply H; now right).
    lia.
  - assert (IH' : List.length (filter f l) < List.length (filter g l))
      by (apply IH; try assumption; intros y Hy; apply H; now right).
    destruct (f x) eqn:Ef.
    + rewrite (H x (or_introl eq_refl) Ef). simpl. lia.
    + destruct (g x); simpl; lia.
Qed.

Section Trace.
Variable flow : UserFlow.

Lemma unvisited_mono (v v' : OrderedSet.t) :
  incl v v' -> unvisited flow v' <= unvisited flow v.
Proof.
  intros Hincl. unfold unvisited. apply filter_length_mono.
  intros n _ Hn. apply negb_true_iff in Hn. apply negb_true_iff.
  apply OrderedSet_has_not_In. apply OrderedSet_has_not_In in Hn.
  intros Hin. apply Hn, Hincl, Hin.
Qed.

Lemma unvisited_add (node : FlowNode) (v : OrderedSet.t) :
  In node (nodes flow) ->
  OrderedSet.has (id node) v = false ->
  unvisited flow (OrderedSet.add (id node) v) < unvisited flow v.
Proof.
  intros Hin Hnot. unfold unvisited.
  apply (filter_length_strict _ _ _ node).
  - intros n _ Hn. apply negb_true_iff in Hn. apply negb_true_iff.
    apply OrderedSet_has_not_In. apply OrderedSet_has_not_In in Hn.
    intros Hv. apply Hn. apply OrderedSet_add_In. now right.
  - exact Hin.
  - apply negb_false_iff. apply OrderedSet_has_In.
    apply OrderedSet_add_In. now left.
  - now rewrite Hnot.
Qed.

Lemma edgesFrom_mono (v v' : OrderedSet.t) :
  incl v v' -> edgesFrom flow v <= edgesFrom flow v'.
Proof.
  intros Hincl. unfold edgesFrom. apply filter_length_mono.
  intros e _ He. apply OrderedSet_has_In. apply OrderedSet_has_In in He.
  now apply Hincl.
Qed.

Lemma edgesFrom_le (v : OrderedSet.t) :
  edgesFrom flow v <= List.length (edges flow).
Proof.
  unfold edgesFrom. apply filter_length_le.
Qed.

Lemma edgesFrom_add (x : string) (v : OrderedSet.t) :
  OrderedSet.has x v = false ->
  edgesFrom flow (OrderedSet.add x v)
  = edgesFrom flow v
    + List.length (filter (fun e => String.eqb (source e) x) (edges flow)).
Proof.
  intros Hnot. unfold edgesFrom.
  induction (edges flow) as [| e es IH]; simpl; [reflexivity |].
  destruct (String.eqb (source e) x) eqn:E.
  - apply String.eqb_eq in E. rewrite E, Hnot.
    assert (H : OrderedSet.has x (OrderedSet.add x v) = true)
      by (apply OrderedSet_has_In, OrderedSet_add_In; now left).
    rewrite H. simpl. lia.
  - apply String.eqb_neq in E.
    assert (H : OrderedSet.has (source e) (OrderedSet.add x v)
                = OrderedSet.has (source e) v).
    { destruct (OrderedSet.has (source e) v) eqn:Ev.
      - apply OrderedSet_has_In, OrderedSet_add_In. right.
        now apply OrderedSet_has_In.
      - apply OrderedSet_has_not_In. intros Hin.
        apply OrderedSet_add_In in Hin. destruct Hin as [Heq | Hin];
          [contradiction |].
        apply OrderedSet_has_not_In in Ev. contradiction. }
    rewrite H. destruct (OrderedSet.has (source e) v); simpl; lia.
Qed.

(** A trace with more fuel than there are nodes to enter returns: it only
    adds to the entered nodes, and adds at most one line for each edge that
    leaves a node it enters. *)
Lemma tracePathFromNode_returns (fuel : nat) :
  forall (node : FlowNode) (indent : nat) (lines : list string)
         (visited : OrderedSet.t),
    In node (nodes flow) ->
    unvisited flow visited < fuel ->
    exists lines' visited',
      TextFlowGenerator.tracePathFromNode fuel flow node indent
                                          (lines, visited)
      = Some (lines', visited')
      /\ incl visited visited'
      /\ List.length lines' + edgesFrom flow visited
         <= List.length lines + edgesFrom flow visited'.
Proof.
  induction fuel as [| fuel IH]; intros node indent lines visited Hin Hfuel;
    [lia |].
  cbn [TextFlowGenerator.tracePathFromNode].
  destruct (OrderedSet.has (id node) visited) eqn:Ehas.
  - exists lines, visited. split; [reflexivity |].
    split; [apply incl_refl | lia].
  - pose proof (unvisited_add node visited Hin Ehas) as Hless.
    pose proof (edgesFrom_add (id node) visited Ehas) as Hedges.
    set (v0 := OrderedSet.add (id node) visited) in *.
    assert (Hv0 : incl visited v0).
    { intros x Hx. apply OrderedSet_add_In. now right. }
    set (outgoing :=
           filter (fun e => String.eqb (source e) (id node)) (edges flow))
      in *.
    assert (Hloop : forall (es : list FlowEdge) (l : list string)
                           (v : OrderedSet.t),
               unvisited flow v < fuel ->
               exists l' v',
                 fold_left
                   (fun (acc : option TextFlowGenerator.TraceState)
                        (edge : FlowEdge) =>
                      match acc with
                      | None => None
                      | Some (lines, visited) =>
                          match find (fun n => String.eqb (id n) (target edge))
                                     (nodes flow) with
                          | Some target =>
                              let targetLabel := label target in
                              let prefix :=
                                (TextFlowGenerator.repeatString "  " indent
                                   ++ "↓")%string in
                              let label :=
                                if JsString.truthy (edge_label edge)
                                then (" [" ++ edge_label edge ++ "]")%string
                                else ""%string in
                              TextFlowGenerator.tracePathFromNode
                                fuel flow target (indent + 1)
                                (lines ++ [(prefix ++ " " ++ targetLabel
                                              ++ label)%string],
                                 visited)
                          | None => Some (lines, visited)
                          end
                      end)
                   es (Some (l, v))
                 = Some (l', v')
                 /\ incl v v'
                 /\ List.length l' + edgesFrom flow v
                    <= List.length l + List.length es + edgesFrom flow v').
    { induction es as [| e es IHes]; intros l v Hv.
      - exists l, v. split; [reflexivity |].
        split; [apply incl_refl | simpl; lia].
      - cbn [fold_left].
        destruct (find (fun n => String.eqb (id n) (target e)) (nodes flow))
          as [t |] eqn:Efind.
        + apply find_some in Efind. destruct Efind as [Ht _].
          destruct (IH t (indent + 1)
                       (l ++ [((TextFlowGenerator.repeatString "  " indent
                                  ++ "↓")
                                 ++ " " ++ label t
                                 ++ (if JsString.truthy (edge_label e)
                                     then " [" ++ edge_label e ++ "]"
                                     else ""))%string])
                       v Ht Hv)
            as [l1 [v1 [Hrun [Hincl1 Hlen1]]]].
          cbv zeta. rewrite Hrun.
          destruct (IHes l1 v1) as [l' [v' [Hrest [Hincl' Hlen']]]].
          { pose proof (unvisited_mono v v1 Hincl1). lia. }
          exists l', v'. split; [exact Hrest |].
          split; [eapply incl_tran; eassumption |].
          rewrite length_app in Hlen1. simpl in Hlen1 |- *. lia.
        + destruct (IHes l v Hv) as [l' [v' [Hrest [Hincl' Hlen']]]].
          exists l', v'. split; [exact Hrest |].
          split; [exact Hincl' | simpl; lia]. }
    destruct (Hloop outgoing lines v0) as [l' [v' [Hrun [Hincl Hlen]]]];
      [lia |].
    exists l', v'. split; [exact Hrun |].
    split; [eapply incl_tran; eassumption |].
    fold outgoing in Hedges. lia.
Qed.
End Trace.

Lemma trace_loop_None {A : Type}
      (step : option TextFlowGenerator.TraceState -> A ->
              option TextFlowGenerator.TraceState) (es : list A) :
  (forall e, step None e = None) -> fold_left step es None = None.
Proof.
  intros H. induction es as [| e es IH]; simpl; [reflexivity |].
  now rewrite H.
Qed.

(** More fuel does not change what a trace returns. *)
Lemma tracePathFromNode_fuel (flow : UserFlow) (fuel : nat) :
  forall (fuel' : nat) (node : FlowNode) (indent : nat)
         (st r : TextFlowGenerator.TraceState),
    fuel <= fuel' ->
    TextFlowGenerator.tracePathFromNode fuel flow node indent st = Some r ->
    TextFlowGenerator.tracePathFromNode fuel' flow node indent st = Some r.
Proof.
  induction fuel as [| fuel IH]; intros fuel' node indent st r Hle Hrun;
    [discriminate |].
  destruct fuel' as [| fuel']; [lia |].
  cbn [TextFlowGenerator.tracePathFromNode] in *.
  destruct st as [lines visited].
  destruct (OrderedSet.has (id node) visited); [exact Hrun |].
  revert Hrun.
  generalize (Some (lines, OrderedSet.add (id node) visited)).
  generalize (filter (fun e => String.eqb (source e) (id node)) (edges flow)).
  intros es. induction es as [| e es IHes]; intros acc; cbn [fold_left];
    [trivial |].
  destruct acc as [[l v] |].
  - destruct (find (fun n => String.eqb (id n) (target e)) (nodes flow))
      as [t |]; [| apply IHes].
    cbv zeta.
    destruct (TextFlowGenerator.tracePathFromNode
                fuel flow t (indent + 1) _) as [r1 |] eqn:E1.
    + assert (Hle' : fuel <= fuel') by lia.
      rewrite (IH fuel' t (indent + 1) _ r1 Hle' E1). apply IHes.
    + intros Hrun. rewrite trace_loop_None in Hrun; [discriminate |].
      intros e0. reflexivity.
  - intros Hrun. rewrite trace_loop_None in Hrun; [discriminate |].
    intros e0. reflexivity.
Qed.

Lemma unvisited_empty (flow : UserFlow) :
  unvisited flow OrderedSet.empty = List.length (nodes flow).
Proof.
  unfold unvisited, OrderedSet.empty.
  induction (nodes flow) as [| n ns IH]; simpl in *; [reflexivity |].
  f_equal. exact IH.
Qed.

Lemma edgesFrom_empty (flow : UserFlow) :
  edgesFrom flow OrderedSet.empty = 0.
Proof.
  unfold edgesFrom, OrderedSet.empty.
  induction (edges flow) as [| e es IH]; simpl; [reflexivity | exact IH].
Qed.

(** A trace only appends to the lines it is given. *)
Lemma tracePathFromNode_extends (flow : UserFlow) (fuel : nat) :
  forall (node : FlowNode) (indent : nat) (lines lines' : list string)
         (visited visited' : OrderedSet.t),
    TextFlowGenerator.tracePathFromNode fuel flow node indent
                                        (lines, visited)
    = Some (lines', visited') ->
    exists added, lines' = lines ++ added.
Proof.
  induction fuel as [| fuel IH];
    intros node indent lines lines' visited visited' Hrun; [discriminate |].
  cbn [TextFlowGenerator.tracePathFromNode] in Hrun.
  destruct (OrderedSet.has (id node) visited).
  - inversion Hrun. exists []. now rewrite app_nil_r.
  - revert Hrun.
    generalize (OrderedSet.add (id node) visited).
    generalize (filter (fun e => String.eqb (source e) (id node))
                       (edges flow)).
    intros es. revert lines.
    induction es as [| e es IHes]; intros lines v; cbn [fold_left].
    + intros Hrun. inversion Hrun. exists []. now rewrite app_nil_r.
    + destruct (find (fun n => String.eqb (id n) (target e)) (nodes flow))
        as [t |]; [| apply IHes].
      cbv zeta.
      destruct (TextFlowGenerator.tracePathFromNode
                  fuel flow t (indent + 1) _) as [[l1 v1] |] eqn:E1.
      * apply IH in E1. destruct E1 as [added1 ->].
        intros Hrun. apply IHes in Hrun. destruct Hrun as [added ->].
        eexists. rewrite <- !app_assoc. reflexivity.
      * intros Hrun. rewrite trace_loop_None in Hrun; [discriminate |].
        intros e0. reflexivity.
Qed.

Lemma traceEntries_return (flow : UserFlow) (fuel : nat)
      (entries : list FlowNode) :
  List.length (nodes flow) < fuel ->
  incl entries (nodes flow) ->
  forall (lines : list string) (index : nat),
  exists rest index',
    fold_left (TextFlowGenerator.traceEntry fuel flow) entries
              (Some (lines, index))
    = Some (lines ++ rest, index')
    /\ fold_left (TextFlowGenerator.traceEntry
                    (S (List.length (nodes flow))) flow)
                 entries (Some (lines, index))
       = Some (lines ++ rest, index')
    /\ List.length rest
       <= List.length entries * (2 + List.length (edges flow)).
Proof.
  intros Hfuel. induction entries as [| entry entries IH];
    intros Hincl lines index.
  - exists [], index. rewrite app_nil_r. simpl. repeat split; lia.
  - cbn [fold_left TextFlowGenerator.traceEntry].
    assert (Hentry : In entry (nodes flow)) by (apply Hincl; now left).
    destruct (tracePathFromNode_returns
                flow (S (List.length (nodes flow))) entry 1
                (lines ++ [("Flow " ++ natToString (index + 1) ++ ": "
                              ++ label entry)%string])
                OrderedSet.empty Hentry)
      as [l1 [v1 [Hrun [_ Hlen]]]].
    { rewrite unvisited_empty. lia. }
    rewrite Hrun.
    assert (Hle : S (List.length (nodes flow)) <= fuel) by lia.
    rewrite (tracePathFromNode_fuel flow _ fuel _ _ _ _ Hle Hrun).
    rewrite edgesFrom_empty in Hlen.
    pose proof (edgesFrom_le flow v1) as Hv1.
    apply tracePathFromNode_extends in Hrun. destruct Hrun as [added ->].
    rewrite !length_app in Hlen. simpl in Hlen.
    destruct (IH ltac:(intros x Hx; apply Hincl; now right)
                 (((lines ++ [("Flow " ++ natToString (index + 1) ++ ": "
                                 ++ label entry)%string])
                     ++ added) ++ [""%string])
                 (index + 1))
      as [rest [index' [Hrest [Hrest' Hbound]]]].
    exists ([("Flow " ++ natToString (index + 1) ++ ": "
                ++ label entry)%string]
              ++ added ++ [""%string] ++ rest), index'.
    rewrite Hrest, Hrest'. rewrite <- !app_assoc.
    split; [reflexivity | split; [reflexivity |]].
    rewrite !length_app. simpl. lia.
Qed.

(** X17: the text outline always comes out.  Whatever the flow, cyclic or
    not, the traces return (a trace enters a node at most once), and more
    fuel than the number of nodes changes nothing.  The outline opens with
    the twelve header lines, and after them holds at most two lines per
    entry node and, per entry node, one line per edge of the flow. *)
Theorem generateTextOutline_returns (flow : UserFlow) :
  exists rest,
    TextFlowGenerator.generateTextOutline flow
    = Some (JsString.join TextFlowGenerator.newline
                          (TextFlowGenerator.headerLines flow ++ rest))
    /\ (forall fuel,
          List.length (nodes flow) < fuel ->
          TextFlowGenerator.outlineLines fuel flow
          = Some (TextFlowGenerator.headerLines flow ++ rest))
    /\ List.length rest
       <= List.length (TextFlowGenerator.entryNodes flow)
          * (2 + List.length (edges flow)).
Proof.
  assert (Hincl : incl (TextFlowGenerator.entryNodes flow) (nodes flow)).
  { intros n Hn. unfold TextFlowGenerator.entryNodes in Hn.
    now apply filter_In in Hn. }
  destruct (traceEntries_return
              flow (S (List.length (nodes flow)))
              (TextFlowGenerator.entryNodes flow) ltac:(lia) Hincl
              (TextFlowGenerator.headerLines flow) 0)
    as [rest [index' [Hrun [_ Hbound]]]].
  exists rest. split; [| split].
  - unfold TextFlowGenerator.generateTextOutline,
      TextFlowGenerator.outlineLines.
    now rewrite Hrun.
  - intros fuel Hfuel.
    destruct (traceEntries_return
                flow fuel (TextFlowGenerator.entryNodes flow) Hfuel Hincl
                (TextFlowGenerator.headerLines flow) 0)
      as [rest' [index'' [Hrun' [Hsame _]]]].
    unfold TextFlowGenerator.outlineLines. rewrite Hrun'.
    rewrite Hsame in Hrun. injection Hrun as Heq Hidx. now subst.
  - exact Hbound.
Qed.

Lemma generateTextOutline_returns_witness :
  TextFlowGenerator.outlineLines
    9 (FlowAnalyzer.analyze 0 Fixtures.contactSite "https://a.com/")
  = TextFlowGenerator.outlineLines
      4 (FlowAnalyzer.analyze 0 Fixtures.contactSite "https://a.com/").
Proof.
  destruct (generateTextOutline_returns
              (FlowAnalyzer.analyze 0 Fixtures.contactSite "https://a.com/"))
    as [rest [_ [Hfuel _]]].
  rewrite (Hfuel 9), (Hfuel 4); [reflexivity | |]; vm_compute; lia.
Defined.

Lemma replaceNonAlphanumeric_length (s : string) :
  String.length (TextFlowGenerator.replaceNonAlphanumeric s) = String.length s.
Proof.
  induction s as [| c s IH]; simpl; [reflexivity | now rewrite IH].
Qed.

Lemma replaceNonAlphanumeric_chars (s : string) :
  Forall (fun c => URL.isAlnum c = true \/ c = "_"%char)
         (list_ascii_of_string (TextFlowGenerator.replaceNonAlphanumeric s)).
Proof.
  induction s as [| c s IH]; simpl; constructor; [| exact IH].
  destruct (URL.isAlnum c) eqn:E; [now left | now right].
Qed.

Lemma substring_prefix_length (n : nat) (s : string) :
  String.length (String.substring 0 n s) = Nat.min n (String.length s).
Proof.
  revert s. induction n as [| n IH]; intros s.
  - now destruct s.
  - destruct s as [| c s]; simpl; [reflexivity | now rewrite IH].
Qed.

Lemma substring_prefix_chars (P : ascii -> Prop) (n : nat) (s : string) :
  Forall P (list_ascii_of_string s) ->
  Forall P (list_ascii_of_string (String.substring 0 n s)).
Proof.
  revert s. induction n as [| n IH]; intros s H.
  - destruct s; constructor.
  - destruct s as [| c s]; simpl; [constructor |].
    simpl in H. inversion H; subst. constructor; [assumption | now apply IH].
Qed.

(** X18: a sanitized id is an identifier.  [sanitizeId] returns ["node_"]
    followed by as many characters as the id has, 30 at most, each of them a
    letter, a digit or an underscore. *)
Theorem sanitizeId_is_an_identifier (i : string) :
  exists body,
    TextFlowGenerator.sanitizeId i = ("node_" ++ body)%string
    /\ String.length body = Nat.min 30 (String.length i)
    /\ Forall (fun c => URL.isAlnum c = true \/ c = "_"%char)
              (list_ascii_of_string body).
Proof.
  exists (String.substring 0 30 (TextFlowGenerator.replaceNonAlphanumeric i)).
  split; [reflexivity | split].
  - now rewrite substring_prefix_length, replaceNonAlphanumeric_length.
  - apply substring_prefix_chars, replaceNonAlphanumeric_chars.
Qed.

(* ================================================================== *)
(** ** Formatter *)

Lemma natToString_injective (a b : nat) :
  natToString a = natToString b -> a = b.
Proof.
  unfold natToString. intros H.
  apply DecimalNat.Unsigned.to_uint_inj.
  assert (Hs : Some (Nat.to_uint a) = Some (Nat.to_uint b)).
  { rewrite <- (NilEmpty.usu (Nat.to_uint a)),
            <- (NilEmpty.usu (Nat.to_uint b)).
    now rewrite H. }
  now inversion Hs.
Qed.

Lemma NoDup_map_injective {A B : Type} (f : A -> B) (l : list A) :
  (forall a b, f a = f b -> a = b) -> NoDup l -> NoDup (map f l).
Proof.
  intros Hinj Hnd. induction Hnd as [| x l Hnot Hnd IH]; simpl; constructor.
  - intros Hin. apply in_map_iff in Hin. destruct Hin as [y [Hy Hin]].
    apply Hinj in Hy. now subst.
  - exact IH.
Qed.

Lemma mapWithIndex_map {A B C : Type} (f : A -> nat -> B) (g : B -> C)
      (h : A -> C) (index : nat) (xs : list A) :
  (forall x i, g (f x i) = h x) ->
  map g (FlowFormatter.mapWithIndex f index xs) = map h xs.
Proof.
  intros H. revert index. induction xs as [| x xs IH]; intros index; simpl;
    [reflexivity |].
  now rewrite H, IH.
Qed.

Lemma mapWithIndex_ids {A B : Type} (f : A -> nat -> B) (g : B -> string)
      (name : nat -> string) (index : nat) (xs : list A) :
  (forall x i, g (f x i) = name i) ->
  map g (FlowFormatter.mapWithIndex f index xs)
  = map name (seq index (List.length xs)).
Proof.
  intros H. revert index. induction xs as [| x xs IH]; intros index; simpl;
    [reflexivity |].
  now rewrite H, IH.
Qed.

Lemma mapWithIndex_length {A B : Type} (f : A -> nat -> B) (index : nat)
      (xs : list A) :
  List.length (FlowFormatter.mapWithIndex f index xs) = List.length xs.
Proof.
  revert index. induction xs as [| x xs IH]; intros index; simpl;
    [reflexivity | now rewrite IH].
Qed.

(** X19: the formatter keeps the graph.  The output has the nodes of the
    flow in their order, with the same ids, and its edges in their order,
    with the same source, target, weight and label; the edge ids
    [edge-0], [edge-1], ... are pairwise distinct, and [totalEdges] is the
    number of edges of the flow. *)
Theorem format_keeps_the_graph
        (toISOString : Z -> string) (roundedAverage : Z -> nat -> Q)
        (flow : UserFlow) (duration : Z) :
  let out := FlowFormatter.format toISOString roundedAverage flow duration in
  map vis_id (graph_nodes out) = map id (nodes flow)
  /\ map visEdgeContent (graph_edges out) = map edgeContent (edges flow)
  /\ NoDup (map vis_edge_id (graph_edges out))
  /\ totalEdges (statistics out) = List.length (edges flow).
Proof.
  intros out. subst out. unfold FlowFormatter.format.
  cbn [graph_nodes graph_edges statistics totalEdges].
  split; [| split; [| split]].
  - rewrite map_map. reflexivity.
  - apply mapWithIndex_map. reflexivity.
  - rewrite (mapWithIndex_ids _ _ (fun i => ("edge-" ++ natToString i)%string))
      by reflexivity.
    apply NoDup_map_injective; [| apply seq_NoDup].
    intros a b H. simpl in H. apply natToString_injective.
    now inversion H.
  - apply mapWithIndex_length.
Qed.

Lemma typeCount_countNode (name : string) (st : FlowFormatter.DepthStats)
      (node : FlowNode) :
  typeCount name (FlowFormatter.byType (FlowFormatter.countNode st node))
  = typeCount name (FlowFormatter.byType st)
    + if String.eqb (nodeTypeName (type node)) name then 1 else 0.
Proof.
  unfold FlowFormatter.countNode, typeCount. cbn [FlowFormatter.byType].
  rewrite OrderedMap_get_set, (String.eqb_sym name).
  destruct (String.eqb (nodeTypeName (type node)) name) eqn:E; [| lia].
  apply String.eqb_eq in E. now rewrite E.
Qed.

Lemma countNodes_stats (ns : list FlowNode) (st : FlowFormatter.DepthStats) :
  let final := fold_left FlowFormatter.countNode ns st in
  (forall name,
      typeCount name (FlowFormatter.byType final)
      = typeCount name (FlowFormatter.byType st)
        + List.length (nodesNamed name ns))
  /\ (FlowFormatter.runningMaxDepth st
      <= FlowFormatter.runningMaxDepth final)%Z
  /\ (forall n, In n ns ->
                (node_depth (metadata n)
                 <= FlowFormatter.runningMaxDepth final)%Z)
  /\ (FlowFormatter.runningMaxDepth final = FlowFormatter.runningMaxDepth st
      \/ exists n, In n ns
                   /\ node_depth (metadata n)
                      = FlowFormatter.runningMaxDepth final).
Proof.
  revert st. induction ns as [| node ns IH]; intros st; cbn [fold_left].
  - split; [intros name; simpl; lia |].
    split; [lia |]. split; [intros n [] | now left].
  - destruct (IH (FlowFormatter.countNode st node)) as [Hc [Hm [Ha Hw]]].
    cbv zeta. split; [| split; [| split]].
    + intros name. rewrite Hc, typeCount_countNode. unfold nodesNamed.
      cbn [filter].
      destruct (String.eqb (nodeTypeName (type node)) name); simpl; lia.
    + cbn [FlowFormatter.countNode FlowFormatter.runningMaxDepth] in Hm. lia.
    + intros n [<- | Hn]; [| now apply Ha].
      cbn [FlowFormatter.countNode FlowFormatter.runningMaxDepth] in Hm. lia.
    + destruct Hw as [Heq | [n [Hn Hd]]].
      * cbn [FlowFormatter.countNode FlowFormatter.runningMaxDepth] in Heq.
        destruct (Z.max_spec (FlowFormatter.runningMaxDepth st)
                             (node_depth (metadata node)))
          as [[_ Hmax] | [_ Hmax]]; rewrite Hmax in Heq.
        -- right. exists node. split; [now left | now symmetry].
        -- now left.
      * right. exists n. split; [now right | exact Hd].
Qed.

(** X20: the statistics of the formatter.  For every type name the count
    under it (0 when the name is absent) is the number of nodes of that
    type; [maxDepth] is never negative and no node is deeper; it is the
    depth of some node unless it is 0. *)
Theorem format_statistics_count_the_nodes
        (toISOString : Z -> string) (roundedAverage : Z -> nat -> Q)
        (flow : UserFlow) (duration : Z) :
  let stats :=
    statistics
      (FlowFormatter.format toISOString roundedAverage flow duration) in
  (forall name,
      typeCount name (nodesByType stats)
      = List.length (nodesNamed name (nodes flow)))
  /\ (0 <= maxDepth stats)%Z
  /\ (forall n, In n (nodes flow) ->
                (node_depth (metadata n) <= maxDepth stats)%Z)
  /\ (maxDepth stats = 0%Z
      \/ exists n, In n (nodes flow)
                   /\ node_depth (metadata n) = maxDepth stats).
Proof.
  intros stats. subst stats. unfold FlowFormatter.format.
  cbn [statistics nodesByType maxDepth].
  destruct (countNodes_stats (nodes flow) (FlowFormatter.mkDepthStats [] 0 0))
    as [Hc [Hm [Ha Hw]]].
  split; [| split; [| split]].
  - intros name. now rewrite Hc.
  - exact Hm.
  - exact Ha.
  - exact Hw.
Qed.

Lemma format_statistics_count_the_nodes_witness :
  let flow :=
    FlowAnalyzer.analyze 0 Fixtures.contactSite "https://a.com/" in
  (1 <= maxDepth
          (statistics
             (FlowFormatter.format (fun _ => ""%string) (fun _ _ => 0%Q)
                                   flow 0)))%Z.
Proof.
  intros flow.
  destruct (format_statistics_count_the_nodes
              (fun _ => ""%string) (fun _ _ => 0%Q) flow 0)
    as [_ [_ [Hdeep _]]].
  apply (Hdeep (nodeFor "https://a.com/blog"
                        (mkPage "https://a.com/blog" "Blog" 1 [] 0))).
  vm_compute. tauto.
Defined.

(* ================================================================== *)
(** ** Noise categories *)

Lemma categoriesOf_pushCategory (h tag link : string)
      (m : OrderedMap.t (list string)) :
  categoriesOf h (NoiseReducer.pushCategory tag m link)
  = if String.eqb h link then categoriesOf h m ++ [tag] else categoriesOf h m.
Proof.
  unfold NoiseReducer.pushCategory, categoriesOf.
  rewrite OrderedMap_get_modify.
  destruct (String.eqb h link) eqn:E.
  - apply String.eqb_eq in E. subst link.
    unfold OrderedMap.has.
    destruct (OrderedMap.get h m) as [tags |] eqn:Eg; cbn [negb].
    + now rewrite Eg.
    + now rewrite OrderedMap_get_set, String.eqb_refl.
  - destruct (OrderedMap.has link m); cbn [negb]; [reflexivity |].
    now rewrite OrderedMap_get_set, E.
Qed.

Lemma categoriesOf_pushAll (h tag : string) (links : list string)
      (m : OrderedMap.t (list string)) :
  NoDup links ->
  categoriesOf h (fold_left (NoiseReducer.pushCategory tag) links m)
  = categoriesOf h m ++ if OrderedSet.has h links then [tag] else [].
Proof.
  intros Hnd. revert m. induction Hnd as [| link links Hnot Hnd IH];
    intros m; cbn [fold_left].
  - unfold OrderedSet.has. simpl. now rewrite app_nil_r.
  - rewrite IH, categoriesOf_pushCategory.
    unfold OrderedSet.has. cbn [existsb].
    destruct (String.eqb h link) eqn:E; cbn [orb].
    + apply String.eqb_eq in E. subst link.
      apply OrderedSet_has_not_In in Hnot. unfold OrderedSet.has in Hnot.
      rewrite Hnot. now rewrite app_nil_r.
    + reflexivity.
Qed.

Lemma OrderedMap_set_keys_NoDup {V : Type} (k : string) (v : V)
      (m : OrderedMap.t V) :
  NoDup (OrderedMap.keys m) -> NoDup (OrderedMap.keys (OrderedMap.set k v m)).
Proof.
  intros Hnd.
  destruct (in_dec string_dec k (OrderedMap.keys m)) as [Hin | Hnot].
  - assert (Hkeys : OrderedMap.keys (OrderedMap.set k v m) = OrderedMap.keys m).
    { clear Hnd. unfold OrderedMap.keys in *.
      induction m as [| [k0 v0] m IH]; simpl in *; [destruct Hin |].
      destruct (String.eqb k k0) eqn:E; simpl; [reflexivity |].
      f_equal. apply IH. destruct Hin as [Heq | Hin]; [| exact Hin].
      subst k0. now rewrite String.eqb_refl in E. }
    now rewrite Hkeys.
  - rewrite OrderedMap_set_fresh by exact Hnot.
    unfold OrderedMap.keys. rewrite map_app. simpl.
    apply NoDup_app; [exact Hnd | repeat constructor; simpl; tauto |].
    intros a Ha [<- | []]. exact (Hnot Ha).
Qed.

Lemma identifyGlobalNavigation_keys_NoDup (pages : Pages) :
  NoDup (OrderedMap.keys (NoiseReducer.identifyGlobalNavigation pages)).
Proof.
  unfold NoiseReducer.identifyGlobalNavigation. cbv zeta.
  generalize (NoiseReducer.linkFrequency
                (fold_left NoiseReducer.recordPage pages
                           NoiseReducer.noLinkStats)).
  intros entries.
  assert (Hgen : forall acc : OrderedMap.t NavigationInfo,
             NoDup (OrderedMap.keys acc) ->
             NoDup
               (OrderedMap.keys
                  (fold_left
                     (fun globalNavLinks (entry : string * OrderedSet.t) =>
                        let '(link, appearingOn) := entry in
                        if Qle_bool NoiseReducer.GLOBAL_NAV_THRESHOLD
                                    (num (OrderedSet.size appearingOn)
                                     / num (OrderedMap.size pages))
                        then
                          OrderedMap.set link
                            (mkNavigationInfo link
                               (num (OrderedSet.size appearingOn)
                                / num (OrderedMap.size pages))
                               (OrderedSet.size appearingOn)
                               (OrderedMap.size pages)
                               (match OrderedMap.get
                                        link
                                        (NoiseReducer.linkTextMap
                                           (fold_left NoiseReducer.recordPage
                                                      pages
                                                      NoiseReducer.noLinkStats))
                                with
                                | Some t =>
                                    if JsString.truthy t then t else ""%string
                                | None => ""%string
                                end)
                               (match OrderedMap.get
                                        link
                                        (NoiseReducer.linkPositionMap
                                           (fold_left NoiseReducer.recordPage
                                                      pages
                                                      NoiseReducer.noLinkStats))
                                with
                                | Some ps => ps
                                | None => []
                                end)
                               (NoiseReducer.isStructuralNavigation
                                  (match OrderedMap.get
                                           link
                                           (NoiseReducer.linkPositionMap
                                              (fold_left
                                                 NoiseReducer.recordPage
                                                 pages
                                                 NoiseReducer.noLinkStats))
                                   with
                                   | Some ps => ps
                                   | None => []
                                   end))
                               true)
                            globalNavLinks
                        else globalNavLinks)
                     entries acc))).
  { induction entries as [| [k s] entries IH]; intros acc Hnd; simpl;
      [exact Hnd |].
    apply IH. destruct (Qle_bool _ _); [| exact Hnd].
    now apply OrderedMap_set_keys_NoDup. }
  apply Hgen. constructor.
Qed.

Lemma identifyStructuralNoise_NoDup (pages : Pages) :
  NoDup (NoiseReducer.identifyStructuralNoise pages).
Proof.
  unfold NoiseReducer.identifyStructuralNoise.
  apply (NoDup_fold_addAll
           (fun page : PageMetadata =>
              map href
                  (filter (fun link =>
                             existsb (LinkPosition_eqb (position link))
                                     NoiseReducer.noisePositions)
                          (outgoingLinks page)))).
  constructor.
Qed.

Lemma OrderedSet_has_keys {V : Type} (h : string) (m : OrderedMap.t V) :
  OrderedSet.has h (OrderedMap.keys m) = OrderedMap.has h m.
Proof.
  destruct (OrderedMap.has h m) eqn:E.
  - apply OrderedSet_has_In. now apply OrderedMap_has_keys.
  - apply OrderedSet_has_not_In. intros Hin.
    apply OrderedMap_has_keys in Hin. congruence.
Qed.

(** X21: the categories of a link.  For every href, [noiseCategories]
    lists exactly the categories the href belongs to, in the order
    global navigation, structural, low value; this holds in the fallback
    case too, where the map still names links that are no longer in the
    returned noise set. *)
Theorem noiseCategories_name_the_detectors (pages : Pages) (h : string) :
  categoriesOf h (noiseCategories (NoiseReducer.reduceNoise pages))
  = (if OrderedMap.has h (NoiseReducer.identifyGlobalNavigation pages)
     then ["global_navigation"%string] else [])
    ++ (if OrderedSet.has h (NoiseReducer.identifyStructuralNoise pages)
        then ["structural"%string] else [])
    ++ (if OrderedSet.has h (NoiseReducer.identifyLowValueLinks pages)
        then ["low_value"%string] else []).
Proof.
  assert (Hcat :
    noiseCategories (NoiseReducer.reduceNoise pages)
    = fold_left (NoiseReducer.pushCategory "low_value")
        (NoiseReducer.identifyLowValueLinks pages)
        (fold_left (NoiseReducer.pushCategory "structural")
           (NoiseReducer.identifyStructuralNoise pages)
           (fold_left (NoiseReducer.pushCategory "global_navigation")
              (OrderedMap.keys (NoiseReducer.identifyGlobalNavigation pages))
              OrderedMap.empty))).
  { unfold NoiseReducer.reduceNoise.
    destruct (NoiseReducer.tooAggressive _ _); reflexivity. }
  rewrite Hcat.
  rewrite categoriesOf_pushAll by apply identifyLowValueLinks_NoDup.
  rewrite categoriesOf_pushAll by apply identifyStructuralNoise_NoDup.
  rewrite categoriesOf_pushAll by apply identifyGlobalNavigation_keys_NoDup.
  rewrite OrderedSet_has_keys. cbn [categoriesOf OrderedMap.get
                                     OrderedMap.empty app].
  now rewrite <- app_assoc.
Qed.

(* ================================================================== *)
(** ** The URL utilities *)

(** *** Characters of a string *)

Lemma allChars_cons (ok : ascii -> bool) (c : ascii) (s : string) :
  allChars ok (String c s) = ok c && allChars ok s.
Proof. reflexivity. Qed.

Lemma allChars_app (ok : ascii -> bool) (a b : string) :
  allChars ok (a ++ b)%string = allChars ok a && allChars ok b.
Proof.
  induction a as [| c a IH]; [reflexivity |].
  simpl append. now rewrite !allChars_cons, IH, andb_assoc.
Qed.

Lemma allChars_forall (ok : ascii -> bool) (s : string) :
  allChars ok s = true
  <-> forall c, In c (list_ascii_of_string s) -> ok c = true.
Proof. unfold allChars. apply forallb_forall. Qed.

Lemma allChars_weaken (ok ok' : ascii -> bool) (s : string) :
  (forall c, ok c = true -> ok' c = true) ->
  allChars ok s = true -> allChars ok' s = true.
Proof.
  intros Himp H. apply allChars_forall. intros c Hc.
  apply Himp. now apply (proj1 (allChars_forall ok s) H).
Qed.

Lemma allChars_both (ok ok' : ascii -> bool) (s : string) :
  allChars ok s = true -> allChars ok' s = true ->
  allChars (fun c => ok c && ok' c) s = true.
Proof.
  intros H H'. apply allChars_forall. intros c Hc.
  rewrite (proj1 (allChars_forall ok s) H c Hc).
  now rewrite (proj1 (allChars_forall ok' s) H' c Hc).
Qed.

Lemma allChars_join (ok : ascii -> bool) (sep : string)
      (pieces : list string) :
  allChars ok sep = true ->
  Forall (fun piece => allChars ok piece = true) pieces ->
  allChars ok (JsString.join sep pieces) = true.
Proof.
  intros Hsep Hall. induction Hall as [| p ps Hp Hps IH]; [reflexivity |].
  destruct ps as [| q qs]; [exact Hp |].
  change (JsString.join sep (p :: q :: qs))
    with (p ++ sep ++ JsString.join sep (q :: qs))%string.
  now rewrite !allChars_app, Hp, Hsep, IH.
Qed.

Lemma includes_char_inString (d : ascii) (s : string) :
  JsString.includes (String d "") s = URL.inString d s.
Proof.
  unfold URL.inString. induction s as [| c s IH]; [reflexivity |].
  simpl. now rewrite IH, andb_true_r.
Qed.

Lemma noneOf_char (d c : ascii) :
  noneOf (String d "") c = negb (Ascii.eqb c d).
Proof. unfold noneOf, URL.inString. simpl. now rewrite orb_false_r. Qed.

Lemma allChars_noneOf_includes (d : ascii) (s : string) :
  allChars (noneOf (String d "")) s
  = negb (JsString.includes (String d "") s).
Proof.
  rewrite includes_char_inString. unfold URL.inString.
  induction s as [| c s IH]; [reflexivity |].
  rewrite allChars_cons, IH, noneOf_char. simpl.
  rewrite negb_orb. now rewrite (Ascii.eqb_sym d c).
Qed.

(** *** [upTo] *)

Lemma upTo_spec (stops s a b : string) :
  URL.upTo stops s = (a, b) ->
  s = (a ++ b)%string
  /\ allChars (noneOf stops) a = true
  /\ (b = ""%string
      \/ exists c r, b = String c r /\ URL.inString c stops = true).
Proof.
  revert a b. induction s as [| c s IH]; intros a b H; simpl in H.
  - injection H as <- <-. repeat split. now left.
  - destruct (URL.inString c stops) eqn:E.
    + injection H as <- <-. repeat split. right. now exists c, s.
    + destruct (URL.upTo stops s) as [a' b'] eqn:Eu.
      injection H as <- <-.
      destruct (IH a' b' eq_refl) as [-> [Ha Hb]].
      repeat split; [| exact Hb].
      rewrite allChars_cons, Ha. unfold noneOf. now rewrite E.
Qed.

Lemma upTo_app (stops a b : string) :
  allChars (noneOf stops) a = true ->
  (b = ""%string
   \/ exists c r, b = String c r /\ URL.inString c stops = true) ->
  URL.upTo stops (a ++ b) = (a, b).
Proof.
  intros Ha Hb. induction a as [| c a IH].
  - simpl. destruct Hb as [-> | [c [r [-> Hc]]]]; [reflexivity |].
    simpl. now rewrite Hc.
  - rewrite allChars_cons in Ha. apply andb_prop in Ha as [Hc Ha].
    simpl. unfold noneOf in Hc. apply negb_true_iff in Hc. rewrite Hc.
    now rewrite (IH Ha).
Qed.

(** *** Splitting at one character *)

Lemma splitFrom_char_cons (d c : ascii) (r cur : string) :
  JsString.splitFrom (String d "") (String c r) 0 cur
  = if Ascii.eqb c d
    then cur :: JsString.splitFrom (String d "") r 0 ""
    else JsString.splitFrom (String d "") r 0 (cur ++ String c "").
Proof.
  simpl. rewrite andb_true_r. now rewrite (Ascii.eqb_sym d c).
Qed.

Lemma splitFrom_char_app (d : ascii) (a b cur : string) :
  allChars (noneOf (String d "")) a = true ->
  JsString.splitFrom (String d "") (a ++ b) 0 cur
  = JsString.splitFrom (String d "") b 0 (cur ++ a).
Proof.
  revert cur. induction a as [| c a IH]; intros cur Ha.
  - simpl. now rewrite append_empty_r.
  - rewrite allChars_cons, noneOf_char in Ha.
    apply andb_prop in Ha as [Hc Ha]. apply negb_true_iff in Hc.
    change (String c a ++ b)%string with (String c (a ++ b)).
    rewrite splitFrom_char_cons, Hc, (IH _ Ha).
    f_equal. now rewrite append_assoc.
Qed.

Lemma splitFrom_join_char (d : ascii) (p : string) (ps : list string)
      (cur : string) :
  Forall (fun piece => allChars (noneOf (String d "")) piece = true)
         (p :: ps) ->
  JsString.splitFrom (String d "") (JsString.join (String d "") (p :: ps))
                     0 cur
  = (cur ++ p)%string :: ps.
Proof.
  revert p cur. induction ps as [| q qs IH]; intros p cur Hall.
  - inversion Hall as [| ? ? Hp _]; subst.
    change (JsString.join (String d "") [p]) with p.
    rewrite <- (append_empty_r p) at 1.
    now rewrite (splitFrom_char_app d p "" cur Hp).
  - inversion Hall as [| ? ? Hp Hrest]; subst.
    change (JsString.join (String d "") (p :: q :: qs))
      with (p ++ String d (JsString.join (String d "") (q :: qs)))%string.
    rewrite (splitFrom_char_app d p _ cur Hp).
    rewrite splitFrom_char_cons, Ascii.eqb_refl.
    now rewrite (IH q "" Hrest).
Qed.

Lemma splitFrom_char_snoc (d : ascii) (s cur : string) :
  JsString.splitFrom (String d "") (s ++ String d "") 0 cur
  = JsString.splitFrom (String d "") s 0 cur ++ [""%string].
Proof.
  revert cur. induction s as [| c s IH]; intros cur.
  - simpl. now rewrite Ascii.eqb_refl.
  - change (String c s ++ String d "")%string
      with (String c (s ++ String d "")).
    rewrite !splitFrom_char_cons.
    destruct (Ascii.eqb c d); [simpl; f_equal; apply IH | apply IH].
Qed.

Lemma splitFrom_char_chars (ok : ascii -> bool) (d : ascii)
      (s cur : string) :
  allChars ok cur = true -> allChars ok s = true ->
  Forall (fun piece => allChars ok piece = true)
         (JsString.splitFrom (String d "") s 0 cur).
Proof.
  revert cur. induction s as [| c s IH]; intros cur Hcur Hs.
  - simpl. now constructor.
  - rewrite allChars_cons in Hs. apply andb_prop in Hs as [Hc Hs].
    rewrite splitFrom_char_cons. destruct (Ascii.eqb c d).
    + constructor; [exact Hcur | now apply IH].
    + apply IH; [| exact Hs].
      rewrite allChars_app, Hcur, allChars_cons, Hc. reflexivity.
Qed.

Lemma splitFrom_char_free (d : ascii) (s cur : string) :
  allChars (noneOf (String d "")) cur = true ->
  Forall (fun piece => allChars (noneOf (String d "")) piece = true)
         (JsString.splitFrom (String d "") s 0 cur).
Proof.
  revert cur. induction s as [| c s IH]; intros cur Hcur.
  - simpl. now constructor.
  - rewrite splitFrom_char_cons. destruct (Ascii.eqb c d) eqn:E.
    + constructor; [exact Hcur | now apply IH].
    + apply IH.
      rewrite allChars_app, Hcur, allChars_cons, noneOf_char, E. reflexivity.
Qed.

Lemma splitFrom_char_covers (ok : ascii -> bool) (d : ascii)
      (s cur : string) :
  ok d = true ->
  Forall (fun piece => allChars ok piece = true)
         (JsString.splitFrom (String d "") s 0 cur) ->
  allChars ok s = true.
Proof.
  intros Hd. revert cur. induction s as [| c s IH]; intros cur Hall;
    [reflexivity |].
  rewrite splitFrom_char_cons in Hall. rewrite allChars_cons.
  destruct (Ascii.eqb c d) eqn:E.
  - apply Ascii.eqb_eq in E. subst c. rewrite Hd.
    inversion Hall; subst. now apply (IH ""%string).
  - assert (Hs := IH _ Hall). rewrite Hs, andb_true_r.
    assert (Hcur : allChars ok (cur ++ String c "") = true).
    { clear IH Hs. revert Hall. generalize (cur ++ String c "")%string.
      induction s as [| e s IHs]; intros acc Hall.
      - simpl in Hall. now inversion Hall.
      - rewrite splitFrom_char_cons in Hall. destruct (Ascii.eqb e d).
        + now inversion Hall.
        + apply IHs in Hall. rewrite allChars_app in Hall.
          now apply andb_prop in Hall as [Hacc _]. }
    rewrite allChars_app, allChars_cons in Hcur.
    apply andb_prop in Hcur as [_ Hc]. now apply andb_prop in Hc as [Hc _].
Qed.


(** *** The form encoding *)

Lemma plusToSpace_append (a b : string) :
  URL.plusToSpace (a ++ b)
  = (URL.plusToSpace a ++ URL.plusToSpace b)%string.
Proof. induction a as [| c a IH]; simpl; [reflexivity | now rewrite IH]. Qed.

(** What the encoding writes for a character decodes to that character. *)
Lemma decode_encoded_char (c : ascii) (rest : string) :
  URL.percentDecode (URL.plusToSpace (URL.formEncodeChar c) ++ rest)
  = String c (URL.percentDecode rest).
Proof. destruct c as [[] [] [] [] [] [] [] []]; reflexivity. Qed.

Lemma formDecode_formEncode (s : string) :
  URL.formDecode (URL.formEncode s) = s.
Proof.
  unfold URL.formDecode. induction s as [| c s IH]; [reflexivity |].
  cbn [URL.formEncode].
  now rewrite plusToSpace_append, decode_encoded_char, IH.
Qed.

Lemma formEncodeChar_chars (c : ascii) :
  allChars formChar (URL.formEncodeChar c) = true.
Proof. destruct c as [[] [] [] [] [] [] [] []]; reflexivity. Qed.

Lemma formEncode_chars (s : string) :
  allChars formChar (URL.formEncode s) = true.
Proof.
  induction s as [| c s IH]; [reflexivity |].
  cbn [URL.formEncode]. now rewrite allChars_app, formEncodeChar_chars, IH.
Qed.

Lemma formChar_plain (c : ascii) :
  formChar c = true ->
  URL.queryCharOk c = true
  /\ noneOf "=" c = true /\ noneOf "&" c = true.
Proof.
  destruct c as [[] [] [] [] [] [] [] []]; vm_compute; intros H;
    first [repeat split; reflexivity | discriminate H].
Qed.

Lemma formEncode_free (stop : string) (s : string) :
  stop = "="%string \/ stop = "&"%string ->
  allChars (noneOf stop) (URL.formEncode s) = true.
Proof.
  intros Hstop. apply (allChars_weaken formChar); [| apply formEncode_chars].
  intros c Hc. destruct (formChar_plain c Hc) as [_ [H1 H2]].
  destruct Hstop as [-> | ->]; assumption.
Qed.

(** *** Query parameters *)

Lemma parsePair_pair (k v : string) :
  URL.parsePair (URL.formEncode k ++ "=" ++ URL.formEncode v) = (k, v).
Proof.
  unfold URL.parsePair.
  rewrite (upTo_app "=" (URL.formEncode k) ("=" ++ URL.formEncode v)%string).
  - cbn [append]. now rewrite !formDecode_formEncode.
  - apply formEncode_free. now left.
  - right. now exists "="%char, (URL.formEncode v).
Qed.

(** The pieces that [serializeParams] joins. *)
Lemma serialized_pieces_free (ps : list (string * string)) :
  Forall (fun piece => allChars (noneOf "&") piece = true)
         (map (fun kv => (URL.formEncode (fst kv) ++ "="
                            ++ URL.formEncode (snd kv))%string) ps).
Proof.
  apply Forall_map, Forall_forall. intros kv _.
  rewrite !allChars_app, !formEncode_free by now right. reflexivity.
Qed.

Lemma split_serializeParams (ps : list (string * string)) :
  ps <> [] ->
  JsString.split "&" (URL.serializeParams ps)
  = map (fun kv => (URL.formEncode (fst kv) ++ "="
                      ++ URL.formEncode (snd kv))%string) ps.
Proof.
  intros Hne. unfold JsString.split, URL.serializeParams.
  assert (Hfree := serialized_pieces_free ps).
  destruct ps as [| kv ps]; [congruence |].
  cbn [map] in *. rewrite (splitFrom_join_char "&"%char _ _ "" Hfree).
  reflexivity.
Qed.

(** Reading the parameters of a written query gives the list back. *)
Lemma searchParams_serializeParams (ps : list (string * string)) :
  map URL.parsePair
      (filter (fun piece => negb (String.eqb piece ""))
              (JsString.split "&" (URL.serializeParams ps)))
  = ps.
Proof.
  destruct ps as [| kv0 ps0]; [reflexivity |].
  rewrite split_serializeParams by discriminate.
  generalize (kv0 :: ps0). intros ps.
  induction ps as [| kv ps IH]; [reflexivity |].
  cbn [map].
  assert (Hpiece : negb (String.eqb (URL.formEncode (fst kv) ++ "="
                                       ++ URL.formEncode (snd kv)) "")
                   = true).
  { destruct (URL.formEncode (fst kv)); reflexivity. }
  cbn [filter]. rewrite Hpiece. cbn [map]. rewrite IH, parsePair_pair.
  now destruct kv.
Qed.

Lemma searchParams_queryOf (sch h : string) (prt : option N) (p : string)
      (f : option string) (ps : list (string * string)) :
  URL.searchParams (URL.mk sch h prt p (queryOf ps) f) = ps.
Proof.
  unfold URL.searchParams. cbn [URL.query].
  destruct ps as [| kv rest]; [reflexivity |].
  cbn [queryOf]. apply searchParams_serializeParams.
Qed.

Lemma queryOk_serializeParams (ps : list (string * string)) :
  ps <> [] ->
  Forall (fun kv => asciiPair kv = true) ps ->
  URL.queryOk (URL.serializeParams ps) = true.
Proof.
  intros Hne Hall. unfold URL.queryOk. apply andb_true_intro. split.
  - unfold URL.serializeParams.
    apply (allChars_join URL.queryCharOk); [reflexivity |].
    apply Forall_map, Forall_forall. intros kv _.
    assert (Hq : forall s, allChars URL.queryCharOk (URL.formEncode s) = true).
    { intros s. apply (allChars_weaken formChar); [| apply formEncode_chars].
      intros c Hc. now destruct (formChar_plain c Hc). }
    now rewrite !allChars_app, !Hq.
  - rewrite split_serializeParams by assumption.
    apply forallb_forall. intros piece Hin.
    apply in_map_iff in Hin as [kv [<- Hin]].
    rewrite Forall_forall in Hall. rewrite parsePair_pair.
    exact (Hall kv Hin).
Qed.

(** The parameters of a parsed query are ASCII text. *)
Lemma searchParams_ascii (u : URL.t) :
  match URL.query u with
  | Some q => URL.queryOk q = true
  | None => True
  end ->
  Forall (fun kv => asciiPair kv = true) (URL.searchParams u).
Proof.
  unfold URL.searchParams. destruct (URL.query u) as [q |]; [| constructor].
  unfold URL.queryOk. intros H. apply andb_prop in H as [_ Hpieces].
  apply Forall_map, Forall_forall. intros piece Hin.
  apply filter_In in Hin as [Hin _].
  rewrite forallb_forall in Hpieces. exact (Hpieces piece Hin).
Qed.

(** Appending the parameters one by one writes the query of the list. *)
Lemma appendParams_fold (sch h : string) (prt : option N) (p : string)
      (f : option string) (ps done : list (string * string)) :
  fold_left (fun u kv => URL.appendParam (fst kv) (snd kv) u) ps
            (URL.mk sch h prt p (queryOf done) f)
  = URL.mk sch h prt p (queryOf (done ++ ps)) f.
Proof.
  revert done. induction ps as [| kv ps IH]; intros done.
  - simpl. now rewrite app_nil_r.
  - cbn [fold_left]. unfold URL.appendParam at 2.
    rewrite (searchParams_queryOf sch h prt p f done).
    cbn [URL.scheme URL.host URL.port URL.path URL.fragment].
    assert (Hq : Some (URL.serializeParams (done ++ [(fst kv, snd kv)]))
                 = queryOf (done ++ [kv])).
    { destruct kv. now destruct done. }
    rewrite Hq, IH. now rewrite <- app_assoc.
Qed.

(** *** Sorting *)

Lemma insertSorted_Sorted {A : Type} (after : A -> A -> bool)
      (x : A) (l : list A) :
  (forall a b, after a b = true -> after b a = false) ->
  Sorted (fun a b => after a b = false) l ->
  Sorted (fun a b => after a b = false) (insertSorted after x l).
Proof.
  intros Hasym Hl. induction Hl as [| y r Hr IH Hhd]; simpl.
  - repeat constructor.
  - destruct (after x y) eqn:E.
    + constructor; [exact IH |].
      destruct r as [| z r]; simpl.
      * constructor. now apply Hasym.
      * destruct (after x z); constructor;
          [now inversion Hhd | now apply Hasym].
    + constructor; [now constructor | now constructor].
Qed.

Lemma stableSort_Sorted {A : Type} (after : A -> A -> bool) (l : list A) :
  (forall a b, after a b = true -> after b a = false) ->
  Sorted (fun a b => after a b = false) (stableSort after l).
Proof.
  intros Hasym. induction l as [| x l IH]; simpl; [constructor |].
  now apply insertSorted_Sorted.
Qed.

Lemma stableSort_of_Sorted {A : Type} (after : A -> A -> bool)
      (l : list A) :
  Sorted (fun a b => after a b = false) l -> stableSort after l = l.
Proof.
  intros Hl. induction Hl as [| x r Hr IH Hhd]; [reflexivity |].
  simpl. rewrite IH. destruct Hhd as [| y r Hxy]; [reflexivity |].
  simpl. now rewrite Hxy.
Qed.

Lemma stableSort_idempotent {A : Type} (after : A -> A -> bool)
      (l : list A) :
  (forall a b, after a b = true -> after b a = false) ->
  stableSort after (stableSort after l) = stableSort after l.
Proof.
  intros Hasym. now apply stableSort_of_Sorted, stableSort_Sorted.
Qed.

Lemma stableSort_Forall {A : Type} (after : A -> A -> bool)
      (P : A -> Prop) (l : list A) :
  Forall P l -> Forall P (stableSort after l).
Proof.
  intros H. apply Forall_forall. intros x Hx.
  rewrite Forall_forall in H. apply H.
  now apply (Permutation_in _ (stableSort_Permutation after l)).
Qed.

(** *** Paths *)

Lemma length_append (a b : string) :
  String.length (a ++ b) = String.length a + String.length b.
Proof. induction a as [| c a IH]; simpl; [reflexivity | now rewrite IH]. Qed.

Lemma endsWith_unfold (p s : string) :
  JsString.endsWith p s
  = String.eqb p s
    || match s with
       | EmptyString => false
       | String _ r => JsString.endsWith p r
       end.
Proof. now destruct s. Qed.

Lemma endsWith_app (p pre : string) :
  JsString.endsWith p (pre ++ p) = true.
Proof.
  induction pre as [| c pre IH].
  - simpl append. rewrite endsWith_unfold, String.eqb_refl. reflexivity.
  - simpl append. rewrite endsWith_unfold, IH. apply orb_true_r.
Qed.

Lemma endsWith_inv (p s : string) :
  JsString.endsWith p s = true -> exists pre, s = (pre ++ p)%string.
Proof.
  induction s as [| c s IH]; rewrite endsWith_unfold; intros H.
  - rewrite orb_false_r in H. apply String.eqb_eq in H. now exists ""%string.
  - apply orb_prop in H as [H | H].
    + apply String.eqb_eq in H. exists ""%string. now rewrite H.
    + destruct (IH H) as [pre ->]. now exists (String c pre).
Qed.

Lemma dropLast_snoc (s : string) (d : ascii) :
  JsString.dropLast (s ++ String d "") = s.
Proof.
  induction s as [| c s IH]; [reflexivity |].
  simpl append. simpl JsString.dropLast.
  destruct (s ++ String d "")%string eqn:E.
  - destruct s; discriminate.
  - now rewrite IH.
Qed.

Lemma snoc_injective (a b : string) (d : ascii) :
  (a ++ String d "")%string = (b ++ String d "")%string -> a = b.
Proof.
  intros H. rewrite <- (dropLast_snoc a d), <- (dropLast_snoc b d).
  now rewrite H.
Qed.

Lemma endsWith_slash_inv (p : string) :
  JsString.endsWith "/" p = true ->
  p = (JsString.dropLast p ++ "/")%string.
Proof.
  intros H. destruct (endsWith_inv _ _ H) as [pre ->].
  now rewrite dropLast_snoc.
Qed.

Lemma endsWith_double_slash (s : string) :
  JsString.endsWith "//" (s ++ "/") = JsString.endsWith "/" s.
Proof.
  destruct (JsString.endsWith "/" s) eqn:E.
  - destruct (endsWith_inv _ _ E) as [pre ->].
    rewrite append_assoc. apply endsWith_app.
  - destruct (JsString.endsWith "//" (s ++ "/")) eqn:E2; [| reflexivity].
    destruct (endsWith_inv _ _ E2) as [pre Hpre].
    change "//"%string with ("/" ++ "/")%string in Hpre.
    rewrite <- append_assoc in Hpre. apply snoc_injective in Hpre.
    subst s. now rewrite endsWith_app in E.
Qed.

Lemma trimmedPath_cases (p : string) :
  (trimmedPath p = p
   /\ (JsString.endsWith "/" p = false \/ String.length p <= 1))
  \/ (p = (trimmedPath p ++ "/")%string /\ trimmedPath p <> ""%string).
Proof.
  unfold trimmedPath.
  destruct (JsString.endsWith "/" p) eqn:E; cbn [andb]; [| left; auto].
  destruct (1 <? String.length p) eqn:L.
  - right. split; [now apply endsWith_slash_inv |].
    apply Nat.ltb_lt in L. intros Hd.
    apply endsWith_slash_inv in E. rewrite Hd in E. subst p. simpl in L. lia.
  - left. apply Nat.ltb_ge in L. auto.
Qed.

Lemma trimmedPath_startsWith (p : string) :
  JsString.startsWith "/" p = true ->
  JsString.startsWith "/" (trimmedPath p) = true.
Proof.
  intros H. destruct (trimmedPath_cases p) as [[-> _] | [Hp Hne]];
    [exact H |].
  rewrite Hp in H. destruct (trimmedPath p); [congruence | exact H].
Qed.

Lemma trimmedPath_pathOk (p : string) :
  URL.pathOk p = true -> URL.pathOk (trimmedPath p) = true.
Proof.
  intros H. destruct (trimmedPath_cases p) as [[-> _] | [Hp _]];
    [exact H |].
  rewrite Hp in H. unfold URL.pathOk in *.
  apply andb_prop in H as [Hchars Hsegs].
  fold (allChars URL.pathCharOk (trimmedPath p ++ "/")) in Hchars.
  rewrite allChars_app in Hchars. apply andb_prop in Hchars as [Hchars _].
  unfold JsString.split in *. rewrite splitFrom_char_snoc in Hsegs.
  rewrite forallb_app in Hsegs. apply andb_prop in Hsegs as [Hsegs _].
  apply andb_true_intro. split; assumption.
Qed.


Lemma trimmedPath_snoc (s : string) :
  s <> ""%string -> trimmedPath (s ++ "/") = s.
Proof.
  intros Hne. unfold trimmedPath.
  rewrite (endsWith_app "/" s), length_append.
  destruct s as [| c s]; [congruence |].
  simpl String.length. cbn [andb].
  replace (1 <? S (String.length s) + 1) with true
    by (symmetry; apply Nat.ltb_lt; lia).
  apply dropLast_snoc.
Qed.

Lemma trimmedPath_fixed (p : string) :
  JsString.endsWith "/" p = false -> trimmedPath p = p.
Proof. intros H. unfold trimmedPath. now rewrite H. Qed.

(** Trimming once more changes nothing, unless the path ended in two
    slashes that did not stand alone. *)
Lemma trimmedPath_idempotent_iff (p : string) :
  trimmedPath (trimmedPath p) = trimmedPath p
  <-> JsString.endsWith "//" p && (2 <? String.length p) = false.
Proof.
  destruct (trimmedPath_cases p) as [[Hfix Hwhy] | [Hp Hne]].
  - rewrite Hfix. split; [intros _ | intros _; exact Hfix].
    destruct Hwhy as [Hend | Hlen].
    + destruct (JsString.endsWith "//" p) eqn:E; [| reflexivity].
      destruct (endsWith_inv _ _ E) as [pre ->].
      change "//"%string with ("/" ++ "/")%string in Hend.
      rewrite <- append_assoc in Hend. now rewrite endsWith_app in Hend.
    + replace (2 <? String.length p) with false
        by (symmetry; apply Nat.ltb_ge; lia).
      apply andb_false_r.
  - remember (trimmedPath p) as s eqn:Es. clear Es. subst p.
    rewrite endsWith_double_slash, length_append. simpl String.length.
    replace (2 <? String.length s + 1) with (1 <? String.length s)
      by (destruct (1 <? String.length s) eqn:L; symmetry;
          [apply Nat.ltb_lt in L; apply Nat.ltb_lt; lia
          | apply Nat.ltb_ge in L; apply Nat.ltb_ge; lia]).
    unfold trimmedPath at 1.
    destruct (JsString.endsWith "/" s && (1 <? String.length s)) eqn:C.
    + split; [| discriminate]. intros Heq. exfalso.
      apply andb_prop in C as [C _].
      apply endsWith_slash_inv in C. rewrite Heq in C.
      assert (L := f_equal String.length C).
      rewrite length_append in L. simpl in L. lia.
    + tauto.
Qed.


(** *** Parsing what [href] writes *)

Lemma substring_all (s : string) :
  String.substring 0 (String.length s) s = s.
Proof. induction s as [| c s IH]; simpl; [reflexivity | now rewrite IH]. Qed.

Lemma stripScheme_http (rest : string) :
  URL.stripScheme ("http" ++ "://" ++ rest) = Some ("http"%string, rest).
Proof.
  unfold URL.stripScheme. cbn. now rewrite Nat.sub_0_r, substring_all.
Qed.

Lemma stripScheme_https (rest : string) :
  URL.stripScheme ("https" ++ "://" ++ rest) = Some ("https"%string, rest).
Proof.
  unfold URL.stripScheme. cbn. now rewrite Nat.sub_0_r, substring_all.
Qed.

Lemma stripScheme_scheme (s sch rest : string) :
  URL.stripScheme s = Some (sch, rest) ->
  sch = "http"%string \/ sch = "https"%string.
Proof.
  unfold URL.stripScheme.
  destruct (JsString.startsWith "https://" s);
    [intros H; injection H as <- _; now right |].
  destruct (JsString.startsWith "http://" s); [| discriminate].
  intros H; injection H as <- _; now left.
Qed.

Lemma hostChar_plain (c : ascii) :
  hostChar c = true ->
  noneOf "/?#" c = true /\ noneOf ":" c = true
  /\ JsString.isUpper c = false.
Proof.
  destruct c as [[] [] [] [] [] [] [] []]; vm_compute; intros H;
    first [repeat split; reflexivity | discriminate H].
Qed.

Lemma digit_plain (c : ascii) :
  URL.isDigit c = true -> noneOf "/?#" c = true.
Proof.
  destruct c as [[] [] [] [] [] [] [] []]; vm_compute; intros H;
    first [reflexivity | discriminate H].
Qed.

Lemma pathChar_no_stop (c : ascii) :
  URL.pathCharOk c = true -> noneOf "?#" c = true.
Proof.
  destruct c as [[] [] [] [] [] [] [] []]; vm_compute; intros H;
    first [reflexivity | discriminate H].
Qed.

Lemma queryChar_no_stop (c : ascii) :
  URL.queryCharOk c = true -> noneOf "#" c = true.
Proof.
  destruct c as [[] [] [] [] [] [] [] []]; vm_compute; intros H;
    first [reflexivity | discriminate H].
Qed.

Lemma hostOk_chars (h : string) :
  URL.hostOk h = true -> allChars hostChar h = true.
Proof.
  unfold URL.hostOk. intros H. apply andb_prop in H as [Hlabels _].
  apply (splitFrom_char_covers _ "."%char h ""); [reflexivity |].
  apply Forall_forall. intros label Hin.
  rewrite forallb_forall in Hlabels. specialize (Hlabels label Hin).
  unfold URL.hostLabelOk in Hlabels.
  apply andb_prop in Hlabels as [Hlabels _].
  apply andb_prop in Hlabels as [Hlabels _].
  apply andb_prop in Hlabels as [Hlabels _].
  apply andb_prop in Hlabels as [_ Hl].
  revert Hl. apply allChars_weaken. intros c Hc.
  unfold hostChar. now rewrite Hc.
Qed.

Lemma toLowerCase_fixed (s : string) :
  allChars (fun c => negb (JsString.isUpper c)) s = true ->
  JsString.toLowerCase s = s.
Proof.
  induction s as [| c s IH]; [reflexivity |].
  rewrite allChars_cons. intros H. apply andb_prop in H as [Hc Hs].
  simpl. rewrite (IH Hs). unfold JsString.lowerChar.
  apply negb_true_iff in Hc. now rewrite Hc.
Qed.

(** *** Ports *)

Lemma string_of_uint_digits (d : Decimal.uint) :
  allChars URL.isDigit (NilEmpty.string_of_uint d) = true.
Proof. induction d; simpl; [reflexivity | exact IHd ..]. Qed.

Lemma portDigits_not_empty (n : N) : URL.portDigits n <> ""%string.
Proof.
  unfold URL.portDigits. intros H.
  assert (Hnil : N.to_uint n = Decimal.Nil).
  { destruct (N.to_uint n); [reflexivity | discriminate H ..]. }
  assert (Hn := DecimalN.Unsigned.of_to n). rewrite Hnil in Hn.
  simpl in Hn. subst n. discriminate Hnil.
Qed.

Lemma parsePort_portDigits (sch : string) (n : N) :
  (n <= 65535)%N -> n <> URL.defaultPort sch ->
  URL.parsePort sch (":" ++ URL.portDigits n) = Some (Some n).
Proof.
  intros Hmax Hdefault. unfold URL.parsePort. cbn [append].
  destruct (URL.portDigits n) as [| c r] eqn:E;
    [now apply portDigits_not_empty in E |].
  rewrite <- E. unfold URL.portDigits.
  rewrite NilEmpty.usu, DecimalN.Unsigned.of_to.
  apply N.ltb_ge in Hmax. rewrite Hmax.
  apply N.eqb_neq in Hdefault. now rewrite Hdefault.
Qed.

Lemma parsePort_range (sch portPart : string) (n : N) :
  URL.parsePort sch portPart = Some (Some n) ->
  (n <= 65535)%N /\ n <> URL.defaultPort sch.
Proof.
  unfold URL.parsePort.
  destruct portPart as [| c [| d r]]; try discriminate.
  destruct (NilEmpty.uint_of_string (String d r)) as [u |]; [| discriminate].
  destruct (65535 <? N.of_uint u)%N eqn:Hmax; [discriminate |].
  destruct (N.of_uint u =? URL.defaultPort sch)%N eqn:Hdefault;
    [discriminate |].
  intros H. injection H as <-.
  split; [now apply N.ltb_ge | now apply N.eqb_neq].
Qed.

Lemma wellFormed_parts (u : URL.t) :
  wellFormed u = true ->
  (URL.scheme u = "http"%string \/ URL.scheme u = "https"%string)
  /\ URL.hostOk (URL.host u) = true
  /\ match URL.port u with
     | Some n => (n <= 65535)%N /\ n <> URL.defaultPort (URL.scheme u)
     | None => True
     end
  /\ URL.pathOk (URL.path u) = true
  /\ JsString.startsWith "/" (URL.path u) = true
  /\ match URL.query u with
     | Some q => URL.queryOk q = true
     | None => True
     end.
Proof.
  unfold wellFormed. intros H.
  apply andb_prop in H as [H Hq]. apply andb_prop in H as [H Hsl].
  apply andb_prop in H as [H Hp]. apply andb_prop in H as [H Hport].
  apply andb_prop in H as [Hsch Hh].
  repeat split; try assumption.
  - apply orb_prop in Hsch as [E | E]; apply String.eqb_eq in E; auto.
  - destruct (URL.port u) as [n |]; [| exact I].
    apply andb_prop in Hport as [Hmax Hdefault].
    split; [now apply N.leb_le |].
    apply negb_true_iff in Hdefault. now apply N.eqb_neq.
  - now destruct (URL.query u).
Qed.

Lemma parse_href (u : URL.t) :
  wellFormed u = true -> URL.parse (URL.href u) = Some u.
Proof.
  intros Hwf.
  destruct (wellFormed_parts u Hwf) as [Hsch [Hh [Hport [Hp [Hsl Hq]]]]].
  destruct u as [sch h prt p q f].
  cbn [URL.scheme URL.host URL.port URL.path URL.query URL.fragment] in *.
  unfold URL.href, URL.parse.
  cbn [URL.scheme URL.host URL.port URL.path URL.query URL.fragment].
  assert (Hstrip : forall rest,
             URL.stripScheme (sch ++ "://" ++ rest) = Some (sch, rest)).
  { intros rest. destruct Hsch as [-> | ->];
      [apply stripScheme_http | apply stripScheme_https]. }
  rewrite Hstrip.
  assert (Hhost := hostOk_chars h Hh).
  assert (Hpchars : allChars (noneOf "?#") p = true).
  { unfold URL.pathOk in Hp. apply andb_prop in Hp as [Hp _].
    revert Hp. apply allChars_weaken, pathChar_no_stop. }
  set (portText := match prt with
                   | Some n => (":" ++ URL.portDigits n)%string
                   | None => ""%string
                   end).
  assert (Hauthority : allChars (noneOf "/?#") (h ++ portText) = true).
  { rewrite allChars_app. apply andb_true_intro. split.
    - revert Hhost. apply allChars_weaken. intros c Hc.
      now destruct (hostChar_plain c Hc).
    - subst portText. destruct prt as [n |]; [| reflexivity].
      cbn [append]. rewrite allChars_cons. cbn [andb].
      change (noneOf "/?#" ":"%char) with true. cbn [andb].
      unfold URL.portDigits.
      apply (allChars_weaken URL.isDigit); [exact digit_plain |].
      apply string_of_uint_digits. }
  rewrite <- (append_assoc h portText).
  rewrite (upTo_app "/?#" (h ++ portText) _ Hauthority).
  2:{ right. destruct p as [| c p']; [discriminate |].
      rewrite startsWith_char in Hsl.
      apply Ascii.eqb_eq in Hsl. subst c.
      simpl. eexists _, _. split; [reflexivity | reflexivity]. }
  rewrite (upTo_app ":" h portText).
  2:{ revert Hhost. apply allChars_weaken. intros c Hc.
      now destruct (hostChar_plain c Hc) as [_ [H _]]. }
  2:{ subst portText. destruct prt as [n |]; [right | now left].
      cbn [append]. eexists _, _. split; reflexivity. }
  rewrite (toLowerCase_fixed h).
  2:{ revert Hhost. apply allChars_weaken. intros c Hc.
      destruct (hostChar_plain c Hc) as [_ [_ H]]. now rewrite H. }
  assert (Hparsed : URL.parsePort sch portText = Some prt).
  { subst portText. destruct prt as [n |]; [| reflexivity].
    destruct Hport as [Hmax Hdefault]. now apply parsePort_portDigits. }
  rewrite Hparsed.
  assert (Hnonempty : String.eqb p "" = false) by now destruct p.
  destruct q as [q |].
  - assert (Hqchars : allChars (noneOf "#") q = true).
    { unfold URL.queryOk in Hq. apply andb_prop in Hq as [Hq _].
      revert Hq. apply allChars_weaken, queryChar_no_stop. }
    rewrite (upTo_app "?#" p _ Hpchars).
    2:{ right. simpl. eexists _, _. split; reflexivity. }
    cbn [append].
    rewrite (upTo_app "#" q _ Hqchars).
    2:{ destruct f as [f |]; [right | now left].
        simpl. eexists _, _. split; reflexivity. }
    rewrite Hh, Hp, Hq, Hnonempty. now destruct f.
  - cbn [append].
    rewrite (upTo_app "?#" p _ Hpchars).
    2:{ destruct f as [f |]; [right | now left].
        simpl. eexists _, _. split; reflexivity. }
    rewrite Hh, Hp, Hnonempty. now destruct f.
Qed.

Lemma parse_wellFormed (s : string) (u : URL.t) :
  URL.parse s = Some u -> wellFormed u = true.
Proof.
  unfold URL.parse.
  destruct (URL.stripScheme s) as [[sch rest] |] eqn:Es; [| discriminate].
  destruct (URL.upTo "/?#" rest) as [authority afterHost] eqn:E1.
  destruct (URL.upTo ":" authority) as [hostPart portPart].
  destruct (URL.upTo "?#" afterHost) as [p afterPath] eqn:E2.
  destruct (match afterPath with
            | String "?" r => let '(q, f) := URL.upTo "#" r in (Some q, f)
            | _ => (None, afterPath)
            end) as [q frag].
  destruct (URL.parsePort sch portPart) as [prt |] eqn:Eport;
    [| discriminate].
  destruct (URL.hostOk (JsString.toLowerCase hostPart)) eqn:Hh;
    [| discriminate].
  destruct (URL.pathOk p) eqn:Hp; [| discriminate].
  cbn [andb].
  destruct (match q with Some q0 => URL.queryOk q0 | None => true end)
           eqn:Hq; [| discriminate].
  intros H. injection H as <-. unfold wellFormed.
  cbn [URL.scheme URL.host URL.port URL.path URL.query URL.fragment].
  rewrite Hh, Hq.
  assert (Hsch : String.eqb sch "http" || String.eqb sch "https" = true).
  { destruct (stripScheme_scheme _ _ _ Es) as [-> | ->]; reflexivity. }
  rewrite Hsch. cbn [andb]. rewrite andb_true_r.
  assert (Hprt : match prt with
                 | Some n =>
                     (n <=? 65535)%N && negb (n =? URL.defaultPort sch)%N
                 | None => true
                 end = true).
  { destruct prt as [n |]; [| reflexivity].
    destruct (parsePort_range _ _ _ Eport) as [Hmax Hdefault].
    apply N.leb_le in Hmax. apply N.eqb_neq in Hdefault.
    now rewrite Hmax, Hdefault. }
  rewrite Hprt. cbn [andb].
  destruct (String.eqb p "") eqn:Ep; [reflexivity |].
  rewrite Hp. cbn [andb].
  destruct (upTo_spec _ _ _ _ E1) as [_ [_ Hstop]].
  destruct Hstop as [-> | [c [r [-> Hc]]]].
  - simpl in E2. injection E2 as <- _. discriminate.
  - simpl in E2. destruct (URL.inString c "?#") eqn:Hc2.
    + injection E2 as <- _. discriminate.
    + destruct (URL.upTo "?#" r) as [a b]. injection E2 as <- _.
      unfold URL.inString in Hc, Hc2.
      cbn [existsb list_ascii_of_string] in Hc, Hc2.
      rewrite startsWith_char, (Ascii.eqb_sym "/" c).
      destruct (Ascii.eqb c "/"); [reflexivity |].
      cbn [orb] in Hc. congruence.
Qed.

(** *** [normalize] on a parsed URL *)

Lemma keyAfter_asymmetric (localeCompare : string -> string -> comparison) :
  (forall a b, localeCompare a b = Gt -> localeCompare b a <> Gt) ->
  forall a b : string * string,
    UrlUtils.keyAfter localeCompare a b = true ->
    UrlUtils.keyAfter localeCompare b a = false.
Proof.
  intros Hasym a b. unfold UrlUtils.keyAfter.
  destruct (localeCompare (fst a) (fst b)) eqn:E; try discriminate.
  intros _. specialize (Hasym _ _ E).
  destruct (localeCompare (fst b) (fst a)); congruence.
Qed.

Lemma sortedParams_ascii (localeCompare : string -> string -> comparison)
      (u : URL.t) :
  wellFormed u = true ->
  Forall (fun kv => asciiPair kv = true)
         (stableSort (UrlUtils.keyAfter localeCompare) (URL.searchParams u)).
Proof.
  intros Hwf. apply stableSort_Forall, searchParams_ascii.
  now destruct (wellFormed_parts u Hwf) as [_ [_ [_ [_ [_ Hq]]]]].
Qed.

(** [normalize] returns the href of the normal form. *)
Lemma normalize_parsed (localeCompare : string -> string -> comparison)
      (x : string) (u : URL.t) :
  URL.parse x = Some u ->
  UrlUtils.normalize localeCompare x = URL.href (normalized localeCompare u).
Proof.
  intros Hparse. assert (Hwf := parse_wellFormed _ _ Hparse).
  destruct (wellFormed_parts u Hwf) as [_ [_ [_ [_ [Hsl _]]]]].
  unfold UrlUtils.normalize. rewrite Hparse. cbv zeta.
  destruct u as [sch h prt p q f].
  unfold URL.clearHash, URL.clearSearch.
  cbn [URL.scheme URL.host URL.port URL.path URL.query URL.fragment] in *.
  change (URL.searchParams (URL.mk sch h prt p q None))
    with (URL.searchParams (URL.mk sch h prt p q f)).
  change (URL.mk sch h prt p None None)
    with (URL.mk sch h prt p (queryOf []) None).
  rewrite (appendParams_fold sch h prt p None _ []).
  cbn [List.app]. unfold URL.pathname, URL.setPathname.
  cbn [URL.scheme URL.host URL.port URL.path URL.query URL.fragment].
  fold (trimmedPath p). rewrite (trimmedPath_startsWith p Hsl).
  reflexivity.
Qed.

Lemma normalized_wellFormed (localeCompare : string -> string -> comparison)
      (u : URL.t) :
  wellFormed u = true -> wellFormed (normalized localeCompare u) = true.
Proof.
  intros Hwf. assert (Hascii := sortedParams_ascii localeCompare u Hwf).
  assert (Hparts := wellFormed_parts u Hwf).
  destruct Hparts as [_ [_ [_ [Hp [Hsl _]]]]].
  unfold wellFormed in *. unfold normalized.
  cbn [URL.scheme URL.host URL.port URL.path URL.query URL.fragment].
  apply andb_prop in Hwf as [Hwf _]. apply andb_prop in Hwf as [Hwf _].
  apply andb_prop in Hwf as [Hwf _]. rewrite Hwf.
  rewrite (trimmedPath_pathOk _ Hp), (trimmedPath_startsWith _ Hsl).
  cbn [andb].
  destruct (stableSort (UrlUtils.keyAfter localeCompare)
                       (URL.searchParams u)) as [| kv ps] eqn:E;
    [reflexivity |].
  cbn [queryOf]. apply queryOk_serializeParams; [discriminate | exact Hascii].
Qed.

Lemma normalize_parses (localeCompare : string -> string -> comparison)
      (x : string) (u : URL.t) :
  URL.parse x = Some u ->
  URL.parse (UrlUtils.normalize localeCompare x)
  = Some (normalized localeCompare u).
Proof.
  intros Hparse. rewrite (normalize_parsed _ _ _ Hparse).
  apply parse_href, normalized_wellFormed.
  exact (parse_wellFormed _ _ Hparse).
Qed.

Lemma href_injective (u v : URL.t) :
  wellFormed u = true -> wellFormed v = true ->
  URL.href u = URL.href v -> u = v.
Proof.
  intros Hu Hv H. apply parse_href in Hu, Hv. rewrite H in Hu. congruence.
Qed.

Lemma normalized_searchParams
      (localeCompare : string -> string -> comparison) (u : URL.t) :
  URL.searchParams (normalized localeCompare u)
  = stableSort (UrlUtils.keyAfter localeCompare) (URL.searchParams u).
Proof. unfold normalized. apply searchParams_queryOf. Qed.

Lemma normalized_twice (localeCompare : string -> string -> comparison)
      (u : URL.t) :
  (forall a b, localeCompare a b = Gt -> localeCompare b a <> Gt) ->
  normalized localeCompare (normalized localeCompare u)
  = URL.mk (URL.scheme u) (URL.host u) (URL.port u)
           (trimmedPath (trimmedPath (URL.path u)))
           (URL.query (normalized localeCompare u)) None.
Proof.
  intros Hasym. unfold normalized at 1.
  rewrite normalized_searchParams.
  rewrite stableSort_idempotent by now apply keyAfter_asymmetric.
  reflexivity.
Qed.

(** A normalized address is never empty, unless the string given is. *)
Lemma normalize_not_empty (localeCompare : string -> string -> comparison)
      (x : string) :
  x <> ""%string -> UrlUtils.normalize localeCompare x <> ""%string.
Proof.
  intros Hx. unfold UrlUtils.normalize.
  destruct (URL.parse x) as [u |]; [| exact Hx].
  cbv zeta. unfold URL.href.
  destruct (URL.scheme _); discriminate.
Qed.



(** X23: when [normalize] is idempotent.  Let the collation never put two
    names each after the other.  For an [http] or [https] address of the
    class that [URL.parse] covers, normalising the result again gives the
    result back exactly when the path of the address does not end in two
    slashes with something before them; one trailing slash is removed per
    call. *)
Theorem normalize_idempotent_iff
        (localeCompare : string -> string -> comparison)
        (x : string) (u : URL.t) :
  (forall a b, localeCompare a b = Gt -> localeCompare b a <> Gt) ->
  URL.parse x = Some u ->
  UrlUtils.normalize localeCompare (UrlUtils.normalize localeCompare x)
  = UrlUtils.normalize localeCompare x
  <-> JsString.endsWith "//" (URL.path u)
      && (2 <? String.length (URL.path u)) = false.
Proof.
  intros Hasym Hparse. assert (Hwf := parse_wellFormed _ _ Hparse).
  assert (Hwf1 := normalized_wellFormed localeCompare u Hwf).
  assert (Hwf2 := normalized_wellFormed localeCompare _ Hwf1).
  rewrite (normalize_parsed _ _ _ (normalize_parses localeCompare _ _ Hparse)).
  rewrite (normalize_parsed _ _ _ Hparse).
  rewrite <- trimmedPath_idempotent_iff. split.
  - intros H. apply (href_injective _ _ Hwf2 Hwf1) in H.
    rewrite (normalized_twice _ _ Hasym) in H.
    unfold normalized in H. now injection H.
  - intros H. rewrite (normalized_twice _ _ Hasym), H. reflexivity.
Qed.

Lemma normalize_idempotent_iff_witness :
  UrlUtils.normalize
    String.compare
    (UrlUtils.normalize String.compare
                        "http://localhost:3000/docs/?b=2&a=1%202#top")
  = UrlUtils.normalize String.compare
                       "http://localhost:3000/docs/?b=2&a=1%202#top".
Proof.
  assert (Hasym : forall a b,
             String.compare a b = Gt -> String.compare b a <> Gt).
  { intros a b H. rewrite String.compare_antisym, H. discriminate. }
  assert (Hparse :
    URL.parse "http://localhost:3000/docs/?b=2&a=1%202#top"
    = Some (URL.mk "http" "localhost" (Some 3000%N) "/docs/"
                   (Some "b=2&a=1%202"%string) (Some "top"%string)))
    by (vm_compute; reflexivity).
  apply (normalize_idempotent_iff String.compare _ _ Hasym Hparse).
  reflexivity.
Defined.

(** X24: the variants that [normalize] identifies.  Take two [http] or
    [https] addresses of the class that [URL.parse] covers, with the same
    scheme, host, port and query.  If their paths are equal, or if the path
    of one does not end in a slash and the path of the other is that path
    followed by one slash, they have the same normal form, whatever their
    fragments are. *)
Theorem normalize_identifies_variants
        (localeCompare : string -> string -> comparison)
        (x y : string) (u v : URL.t) :
  URL.parse x = Some u -> URL.parse y = Some v ->
  URL.scheme u = URL.scheme v ->
  URL.host u = URL.host v ->
  URL.port u = URL.port v ->
  URL.query u = URL.query v ->
  (URL.path v = URL.path u
   \/ (JsString.endsWith "/" (URL.path u) = false
       /\ URL.path v = (URL.path u ++ "/")%string)) ->
  UrlUtils.normalize localeCompare x = UrlUtils.normalize localeCompare y.
Proof.
  intros Hx Hy Hsch Hhost Hport Hq Hpath.
  rewrite (normalize_parsed _ _ _ Hx), (normalize_parsed _ _ _ Hy).
  f_equal. unfold normalized, URL.searchParams.
  rewrite Hsch, Hhost, Hport, Hq. f_equal.
  destruct Hpath as [-> | [Hend ->]]; [reflexivity |].
  rewrite (trimmedPath_fixed _ Hend). symmetry. apply trimmedPath_snoc.
  destruct (wellFormed_parts u (parse_wellFormed _ _ Hx))
    as [_ [_ [_ [_ [Hsl _]]]]].
  intros E. rewrite E in Hsl. discriminate.
Qed.

Lemma normalize_identifies_variants_witness :
  UrlUtils.normalize String.compare "https://my-site.com/docs?a=1#intro"
  = UrlUtils.normalize String.compare "https://my-site.com/docs/?a=1".
Proof.
  apply (normalize_identifies_variants
           String.compare _ _
           (URL.mk "https" "my-site.com" None "/docs" (Some "a=1"%string)
                   (Some "intro"%string))
           (URL.mk "https" "my-site.com" None "/docs/" (Some "a=1"%string)
                   None));
    try (vm_compute; reflexivity).
  right. split; reflexivity.
Defined.

(* ================================================================== *)
(** ** Repetitive links *)

(** The map that [identifyRepetitiveLinks] builds sends each text to the
    set of the hrefs that carry it. *)
Lemma repetitive_frequency_is_fold (pages : Pages) :
  fold_left
    (fun freq (page : PageMetadata) =>
       fold_left
         (fun freq (link : Link) =>
            let normalizedText :=
              JsString.trim (JsString.toLowerCase (text link)) in
            if negb (JsString.truthy normalizedText)
               || (String.length normalizedText <? 3)
            then freq
            else
              let freq :=
                if negb (OrderedMap.has normalizedText freq)
                then OrderedMap.set normalizedText OrderedSet.empty freq
                else freq in
              OrderedMap.modify normalizedText
                                (OrderedSet.add (href link)) freq)
         (outgoingLinks page) freq)
    (OrderedMap.values pages) OrderedMap.empty
  = fold_left (fun m (e : string * string) => addTo (fst e) (snd e) m)
              (textPairs pages) OrderedMap.empty.
Proof.
  unfold textPairs. generalize (@OrderedMap.empty OrderedSet.t).
  induction (OrderedMap.values pages) as [| p ps IH]; intros acc; simpl;
    [reflexivity |].
  rewrite fold_left_app, <- IH. f_equal.
  generalize acc. clear.
  induction (outgoingLinks p) as [| link links IHl]; intros acc; simpl;
    [reflexivity |].
  fold (normalizedText link). fold (shortText (normalizedText link)).
  destruct (shortText (normalizedText link)); simpl; apply IHl.
Qed.

Lemma repetitive_fold_In (total : nat) (entries : list (string * OrderedSet.t))
      (acc : OrderedSet.t) (h : string) :
  In h (fold_left
          (fun repetitiveLinks (entry : string * OrderedSet.t) =>
             let '(_, urls) := entry in
             let frequency := (num (OrderedSet.size urls) / num total)%Q in
             if Qle_bool NoiseReducer.HIGH_FREQUENCY_THRESHOLD frequency
             then OrderedSet.addAll urls repetitiveLinks
             else repetitiveLinks)
          entries acc)
  <-> In h acc
      \/ exists t urls,
          In (t, urls) entries
          /\ In h urls
          /\ Qle_bool NoiseReducer.HIGH_FREQUENCY_THRESHOLD
                      (num (OrderedSet.size urls) / num total)
             = true.
Proof.
  revert acc. induction entries as [| [k s] entries IH]; intros acc; simpl.
  - split; [now left | intros [H | [t [urls [[] _]]]]; exact H].
  - rewrite IH. clear IH.
    destruct (Qle_bool NoiseReducer.HIGH_FREQUENCY_THRESHOLD
                       (num (OrderedSet.size s) / num total)) eqn:E.
    + rewrite OrderedSet_addAll_In. split.
      * intros [[H | H] | [t [urls [H Hc]]]].
        -- now left.
        -- right. exists k, s. split; [now left | now split].
        -- right. exists t, urls. split; [now right | exact Hc].
      * intros [H | [t [urls [[Heq | H] Hc]]]].
        -- left. now left.
        -- inversion Heq; subst. left. now right.
        -- right. now exists t, urls.
    + split.
      * intros [H | [t [urls [H Hc]]]]; [now left |].
        right. exists t, urls. split; [now right | exact Hc].
      * intros [H | [t [urls [[Heq | H] Hc]]]]; [now left | |].
        -- inversion Heq; subst. destruct Hc. congruence.
        -- right. now exists t, urls.
Qed.

Lemma textFrequency_entry (pages : Pages) (t : string) (urls : OrderedSet.t) :
  In (t, urls)
     (fold_left (fun m (e : string * string) => addTo (fst e) (snd e) m)
                (textPairs pages) OrderedMap.empty)
  <-> hrefsWithText t pages <> [] /\ urls = hrefsWithText t pages.
Proof.
  assert (Hget := get_fold_addTo t (textPairs pages) OrderedMap.empty).
  cbv zeta in Hget. cbn [OrderedMap.get OrderedMap.empty] in Hget.
  assert (Hnd : NoDup (OrderedMap.keys
                         (fold_left
                            (fun m (e : string * string) =>
                               addTo (fst e) (snd e) m)
                            (textPairs pages) OrderedMap.empty)))
    by (apply fold_addTo_keys_NoDup; constructor).
  unfold hrefsWithText, OrderedSet.ofList.
  destruct (map snd (filter (fun e : string * string => String.eqb (fst e) t)
                            (textPairs pages))) as [| x xs] eqn:Exs.
  - split.
    + intros Hin. apply (OrderedMap_get_In _ _ _ Hnd) in Hin. congruence.
    + intros [Hne _]. now contradiction Hne.
  - split.
    + intros Hin. apply (OrderedMap_get_In _ _ _ Hnd) in Hin.
      rewrite Hget in Hin. injection Hin as <-. split; [| reflexivity].
      intros Hnil.
      assert (Hx : In x (OrderedSet.addAll (x :: xs) OrderedSet.empty))
        by (apply OrderedSet_addAll_In; right; now left).
      rewrite Hnil in Hx. destruct Hx.
    + intros [_ ->]. now apply OrderedMap_get_Some_In.
Qed.

(** X25: what makes a link repetitive.  A href is in the set that
    [identifyRepetitiveLinks] returns exactly when one of its links has a
    text of three characters or more (lower-cased and trimmed) such that
    the number of distinct hrefs carrying that text is at least 0.75 of the
    number of pages: the measure counts targets per text, not pages. *)
Theorem repetitive_links_share_a_text (pages : Pages) (h : string) :
  In h (NoiseReducer.identifyRepetitiveLinks pages)
  <-> exists t,
      In (t, h) (textPairs pages)
      /\ (NoiseReducer.HIGH_FREQUENCY_THRESHOLD
          <= num (OrderedSet.size (hrefsWithText t pages))
             / num (OrderedMap.size pages))%Q.
Proof.
  unfold NoiseReducer.identifyRepetitiveLinks. cbv zeta.
  rewrite repetitive_frequency_is_fold, repetitive_fold_In.
  assert (Hin : forall t,
             In h (hrefsWithText t pages) <-> In (t, h) (textPairs pages)).
  { intros t. unfold hrefsWithText. rewrite OrderedSet_ofList_In, in_map_iff.
    split.
    - intros [[t' h'] [Hh Hf]]. apply filter_In in Hf as [Hf Ht].
      cbn [fst snd] in *. apply String.eqb_eq in Ht. now subst.
    - intros H. exists (t, h). split; [reflexivity |].
      apply filter_In. split; [exact H | apply String.eqb_refl]. }
  split.
  - intros [[] | [t [urls [Hentry [Hh Hc]]]]].
    apply textFrequency_entry in Hentry as [_ ->].
    exists t. split; [now apply Hin | now apply Qle_bool_iff].
  - intros [t [Hpair Hc]]. right. exists t, (hrefsWithText t pages).
    apply Hin in Hpair. split; [| split].
    + apply textFrequency_entry. split; [| reflexivity].
      intros Hnil. rewrite Hnil in Hpair. destruct Hpair.
    + exact Hpair.
    + now apply Qle_bool_iff.
Qed.

(* ================================================================== *)
(** ** Crawl constraints *)

(** *** Domains and labels *)

Lemma splitFrom_char_sep (d : ascii) (a b cur : string) :
  JsString.splitFrom (String d "") (a ++ String d b) 0 cur
  = JsString.splitFrom (String d "") a 0 cur
    ++ JsString.splitFrom (String d "") b 0 "".
Proof.
  revert cur. induction a as [| c a IH]; intros cur.
  - simpl append. rewrite splitFrom_char_cons, Ascii.eqb_refl. reflexivity.
  - change (String c a ++ String d b)%string
      with (String c (a ++ String d b)).
    rewrite !splitFrom_char_cons.
    destruct (Ascii.eqb c d); [simpl; f_equal; apply IH | apply IH].
Qed.

Lemma join_splitFrom_char (d : ascii) (s cur : string) :
  JsString.join (String d "") (JsString.splitFrom (String d "") s 0 cur)
  = (cur ++ s)%string.
Proof.
  revert cur. induction s as [| c s IH]; intros cur.
  - simpl. now rewrite append_empty_r.
  - rewrite splitFrom_char_cons. destruct (Ascii.eqb c d) eqn:E.
    + apply Ascii.eqb_eq in E. subst c.
      rewrite join_cons by apply splitFrom_not_nil.
      now rewrite IH.
    + rewrite IH, append_assoc. reflexivity.
Qed.

Lemma join_app (sep : string) (ls ms : list string) :
  ls <> [] -> ms <> [] ->
  JsString.join sep (ls ++ ms)
  = (JsString.join sep ls ++ sep ++ JsString.join sep ms)%string.
Proof.
  intros Hl Hm. induction ls as [| l ls IH]; [congruence |].
  destruct ls as [| l' ls].
  - change ([l] ++ ms) with (l :: ms). now rewrite (join_cons sep l ms Hm).
  - change ((l :: l' :: ls) ++ ms) with (l :: ((l' :: ls) ++ ms)).
    rewrite join_cons by discriminate.
    rewrite IH by discriminate.
    rewrite (join_cons sep l (l' :: ls)) by discriminate.
    now rewrite !append_assoc.
Qed.

(** The domain test of the crawl rules accepts the domain and its
    subdomains, cut at the dots. *)
Lemma underDomain_labels (hostname domain : string) :
  CrawlConstraintsImpl.underDomain hostname domain = true
  <-> labelSuffix domain hostname.
Proof.
  unfold CrawlConstraintsImpl.underDomain, labelSuffix. split.
  - intros H. apply orb_prop in H as [H | H].
    + apply String.eqb_eq in H. subst. now exists [].
    + destruct (endsWith_inv _ _ H) as [pre ->].
      exists (JsString.split "." pre). unfold JsString.split.
      apply (splitFrom_char_sep "."%char).
  - intros [labels H].
    assert (Hh := join_splitFrom_char "."%char hostname "").
    assert (Hd := join_splitFrom_char "."%char domain "").
    simpl append in Hh, Hd. unfold JsString.split in H. rewrite H in Hh.
    destruct labels as [| l ls].
    + simpl List.app in Hh. rewrite Hd in Hh. subst.
      now rewrite String.eqb_refl.
    + rewrite join_app in Hh; [| discriminate | apply splitFrom_not_nil].
      rewrite Hd in Hh. rewrite <- Hh.
      change ("." ++ domain)%string with (String "." domain).
      rewrite endsWith_app. apply orb_true_r.
Qed.

Lemma existsb_false_forall {A : Type} (f : A -> bool) (l : list A) :
  existsb f l = false <-> forall x, In x l -> f x = false.
Proof.
  split.
  - intros H x Hx. destruct (f x) eqn:E; [| reflexivity].
    assert (Ht : existsb f l = true) by (apply existsb_exists; eauto).
    congruence.
  - intros H. destruct (existsb f l) eqn:E; [| reflexivity].
    apply existsb_exists in E as [x [Hx Hf]]. rewrite (H x Hx) in Hf.
    discriminate.
Qed.

Lemma nonempty_length {A : Type} (l : list A) :
  (0 <? List.length l) = true <-> l <> [].
Proof.
  destruct l; simpl; split; intros H;
    first [discriminate | reflexivity | congruence].
Qed.

(** A block-list stops a value when one of its entries accepts it. *)
Lemma block_rule {A : Type} (f : A -> bool) (Q : A -> Prop)
      (field : option (list A)) :
  (forall x, f x = false <-> Q x) ->
  match field with
  | Some l => existsb f l
  | None => false
  end = false
  <-> forall l, field = Some l -> forall x, In x l -> Q x.
Proof.
  intros HQ. destruct field as [l |].
  - rewrite existsb_false_forall. split.
    + intros H l' Hl x Hx. injection Hl as <-. now apply HQ, H.
    + intros H x Hx. now apply HQ, (H l eq_refl).
  - split; [discriminate | reflexivity].
Qed.

(** An allow-list lets a value through when it is empty or one of its
    entries accepts the value. *)
Lemma allow_rule {A : Type} (f : A -> bool) (P : A -> Prop)
      (field : option (list A)) :
  (forall x, f x = true <-> P x) ->
  match field with
  | Some l => (0 <? List.length l) && negb (existsb f l)
  | None => false
  end = false
  <-> forall l, field = Some l -> l <> [] -> exists x, In x l /\ P x.
Proof.
  intros HP. destruct field as [l |].
  - split.
    + intros H l' Hl Hne. injection Hl as <-.
      apply nonempty_length in Hne. rewrite Hne in H. cbn [andb] in H.
      apply negb_false_iff, existsb_exists in H as [x [Hx Hf]].
      exists x. split; [exact Hx | now apply HP].
    + intros H. destruct l as [| a l]; [reflexivity |].
      simpl Nat.ltb. cbn [andb]. apply negb_false_iff, existsb_exists.
      destruct (H (a :: l) eq_refl) as [x [Hx Hp]]; [discriminate |].
      exists x. split; [exact Hx | now apply HP].
  - split; [discriminate | reflexivity].
Qed.

Lemma underDomain_false (hostname domain : string) :
  CrawlConstraintsImpl.underDomain hostname domain = false
  <-> ~ labelSuffix domain hostname.
Proof.
  rewrite <- underDomain_labels.
  destruct (CrawlConstraintsImpl.underDomain hostname domain);
    split; congruence.
Qed.

(** X26: the crawl rules.  With constraints present and for an address
    that parses, [shouldCrawlUrl] answers yes exactly when all five rules
    agree, in whatever order they are read: the path ends in no excluded
    extension (letter case apart), the host lies under an allowed domain
    if any is listed and under no blocked domain, and the path matches an
    allowed pattern if any is listed and no blocked one.  To lie under a
    domain is to be the domain or to end in its labels: [nota.com] is not
    under [a.com]. *)
Theorem shouldCrawlUrl_rules
        (config : CrawlConfig.t) (constraints : Constraints.t)
        (url : string) (urlObj : URL.t) :
  read (CrawlConfig.constraints config) = Some constraints ->
  URL.parse url = Some urlObj ->
  CrawlConstraintsImpl.shouldCrawlUrl config url = true
  <-> (forall extensions,
          read (Constraints.excludeFileExtensions constraints)
          = Some extensions ->
          forall ext, In ext extensions ->
            JsString.endsWith (JsString.toLowerCase ext)
                              (JsString.toLowerCase (URL.path urlObj))
            = false)
      /\ (forall domains,
             read (Constraints.allowedDomains constraints) = Some domains ->
             domains <> [] ->
             exists domain,
               In domain domains /\ labelSuffix domain (URL.host urlObj))
      /\ (forall domains,
             read (Constraints.blockedDomains constraints) = Some domains ->
             forall domain, In domain domains ->
               ~ labelSuffix domain (URL.host urlObj))
      /\ (forall patterns : list RegExp,
             read (Constraints.allowedPathPatterns constraints)
             = Some patterns ->
             patterns <> [] ->
             exists pattern,
               In pattern patterns /\ pattern (URL.path urlObj) = true)
      /\ (forall patterns : list RegExp,
             read (Constraints.blockedPathPatterns constraints)
             = Some patterns ->
             forall pattern, In pattern patterns ->
               pattern (URL.path urlObj) = false).
Proof.
  intros Hcs Hparse. unfold CrawlConstraintsImpl.shouldCrawlUrl.
  rewrite Hcs, Hparse. cbv zeta. unfold URL.pathname, URL.hostname.
  rewrite <- (block_rule
                (fun ext =>
                   JsString.endsWith (JsString.toLowerCase ext)
                                     (JsString.toLowerCase (URL.path urlObj)))
                (fun ext =>
                   JsString.endsWith (JsString.toLowerCase ext)
                                     (JsString.toLowerCase (URL.path urlObj))
                   = false)
                (read (Constraints.excludeFileExtensions constraints)))
    by (intros x; reflexivity).
  rewrite <- (allow_rule
                (CrawlConstraintsImpl.underDomain (URL.host urlObj))
                (fun domain => labelSuffix domain (URL.host urlObj))
                (read (Constraints.allowedDomains constraints)))
    by (intros x; apply underDomain_labels).
  rewrite <- (block_rule
                (CrawlConstraintsImpl.underDomain (URL.host urlObj))
                (fun domain => ~ labelSuffix domain (URL.host urlObj))
                (read (Constraints.blockedDomains constraints)))
    by (intros x; apply underDomain_false).
  rewrite <- (allow_rule
                (fun pattern : RegExp => pattern (URL.path urlObj))
                (fun pattern : RegExp => pattern (URL.path urlObj) = true)
                (read (Constraints.allowedPathPatterns constraints)))
    by (intros x; reflexivity).
  rewrite <- (block_rule
                (fun pattern : RegExp => pattern (URL.path urlObj))
                (fun pattern : RegExp => pattern (URL.path urlObj) = false)
                (read (Constraints.blockedPathPatterns constraints)))
    by (intros x; reflexivity).
  repeat match goal with
         | |- context [if ?b then false else _] => destruct b
         end; intuition congruence.
Qed.

Lemma shouldCrawlUrl_rules_witness :
  exists domain,
    In domain ["a.com"%string] /\ labelSuffix domain "docs.a.com".
Proof.
  assert (Hcrawl : CrawlConstraintsImpl.shouldCrawlUrl
                     ConfigSamples.docsOnly "https://docs.a.com/guide"
                   = true) by reflexivity.
  apply (shouldCrawlUrl_rules
           ConfigSamples.docsOnly ConfigSamples.docsRules
           "https://docs.a.com/guide"
           (URL.mk "https" "docs.a.com" None "/guide" None None)
           eq_refl eq_refl) in Hcrawl.
  destruct Hcrawl as [_ [Hallowed _]].
  apply (Hallowed ["a.com"%string]); [reflexivity | discriminate].
Defined.

Lemma shouldCrawlUrl_parses (config : CrawlConfig.t)
      (constraints : Constraints.t) (url : string) :
  read (CrawlConfig.constraints config) = Some constraints ->
  CrawlConstraintsImpl.shouldCrawlUrl config url = true ->
  URL.parse url <> None.
Proof.
  intros Hcs. unfold CrawlConstraintsImpl.shouldCrawlUrl. rewrite Hcs.
  destruct (URL.parse url); [discriminate | discriminate].
Qed.

(** X27: following a link.  With constraints present, a link is followed
    exactly when it may be crawled, the address of the page it stands on
    parses, and either external links are switched on or the link is
    internal to that page in the sense of [UrlUtils.isInternal]. *)
Theorem shouldFollowLink_iff
        (config : CrawlConfig.t) (constraints : Constraints.t)
        (link fromUrl : string) :
  read (CrawlConfig.constraints config) = Some constraints ->
  CrawlConstraintsImpl.shouldFollowLink config link fromUrl = true
  <-> CrawlConstraintsImpl.shouldCrawlUrl config link = true
      /\ URL.parse fromUrl <> None
      /\ (read (Constraints.followExternalLinks constraints) = Some true
          \/ UrlUtils.isInternal link fromUrl = true).
Proof.
  intros Hcs. unfold CrawlConstraintsImpl.shouldFollowLink. rewrite Hcs.
  unfold UrlUtils.isInternal.
  destruct (URL.parse link) as [linkUrl |] eqn:Elink.
  - destruct (URL.parse fromUrl) as [fromUrlObj |] eqn:Efrom.
    + destruct (read (Constraints.followExternalLinks constraints))
        as [[|] |]; cbn [CrawlConstraintsImpl.falsy negb andb].
      * split; [intros H; repeat split; [exact H | discriminate | now left]
               | now intros [H _]].
      * destruct (String.eqb (URL.hostname linkUrl)
                             (URL.hostname fromUrlObj)); cbn [negb].
        -- split; [intros H; repeat split;
                   [exact H | discriminate | now right]
                  | now intros [H _]].
        -- split; [discriminate | intros [_ [_ [H | H]]]; discriminate].
      * destruct (String.eqb (URL.hostname linkUrl)
                             (URL.hostname fromUrlObj)); cbn [negb].
        -- split; [intros H; repeat split;
                   [exact H | discriminate | now right]
                  | now intros [H _]].
        -- split; [discriminate | intros [_ [_ [H | H]]]; discriminate].
    + split; [discriminate | intros [_ [H _]]; now contradiction H].
  - split; [discriminate |]. intros [H _].
    apply (shouldCrawlUrl_parses _ _ _ Hcs) in H. now contradiction H.
Qed.

Lemma shouldFollowLink_iff_witness :
  CrawlConstraintsImpl.shouldCrawlUrl
    ConfigSamples.docsOnly "https://docs.a.com/guide" = true
  /\ UrlUtils.isInternal "https://docs.a.com/guide" "https://docs.a.com/"
     = true.
Proof.
  assert (Hfollow : CrawlConstraintsImpl.shouldFollowLink
                      ConfigSamples.docsOnly "https://docs.a.com/guide"
                      "https://docs.a.com/"
                    = true) by reflexivity.
  apply (shouldFollowLink_iff ConfigSamples.docsOnly ConfigSamples.docsRules
                              _ _ eq_refl) in Hfollow.
  destruct Hfollow as [Hcrawl [_ [Hexternal | Hinternal]]];
    [discriminate Hexternal | now split].
Defined.

(** *** Validation *)

Lemma spread_idempotent {X : Type} (default given : Field X) :
  spread default (spread default given) = spread default given.
Proof. destruct given, default; reflexivity. Qed.

Lemma spreadConstraints_idempotent (defaults given : Constraints.t) :
  CrawlConfigValidator.spreadConstraints
    defaults (CrawlConfigValidator.spreadConstraints defaults given)
  = CrawlConfigValidator.spreadConstraints defaults given.
Proof.
  unfold CrawlConfigValidator.spreadConstraints.
  cbn -[spread]. now rewrite !spread_idempotent.
Qed.

Lemma orElse_idempotent {X : Type} (given : Field X) (fallback : X) :
  orElse (orElse given fallback) fallback = orElse given fallback.
Proof. destruct given; reflexivity. Qed.

Lemma copied_idempotent {X : Type} (given : Field X) :
  copied (copied given) = copied given.
Proof. destruct given; reflexivity. Qed.

(** What [validate] returns when it returns. *)
Lemma validate_inr (config validated : CrawlConfig.t) :
  CrawlConfigValidator.validate config = inr validated ->
  exists startUrl merged,
    read (CrawlConfig.startUrl config) = Some startUrl
    /\ JsString.truthy startUrl = true
    /\ URL.parse startUrl <> None
    /\ merged
       = match read (CrawlConfig.constraints config) with
         | Some given =>
             CrawlConfigValidator.spreadConstraints
               CrawlConfigValidator.DEFAULT_CONSTRAINTS given
         | None => CrawlConfigValidator.DEFAULT_CONSTRAINTS
         end
    /\ CrawlConfigValidator.validateConstraints merged = None
    /\ validated
       = CrawlConfig.mk
           (Value startUrl)
           (orElse (CrawlConfig.maxDepth config) (JsNumber.ofZ 3))
           (orElse (CrawlConfig.maxPages config) (JsNumber.ofZ 50))
           (copied (CrawlConfig.credentials config))
           (Value merged)
           (orElse (CrawlConfig.timeout config) (JsNumber.ofZ 30000))
           (orElse (CrawlConfig.userAgent config)
                   "IntelligentUserFlowMapper/1.0")
           (orElse (CrawlConfig.respectRobotsTxt config) true).
Proof.
  unfold CrawlConfigValidator.validate.
  destruct (read (CrawlConfig.startUrl config)) as [startUrl |];
    [| discriminate].
  destruct (JsString.truthy startUrl) eqn:Etruthy; [| discriminate].
  cbn [negb].
  destruct (URL.parse startUrl) eqn:Eparse; [| discriminate].
  cbv zeta.
  destruct (CrawlConfigValidator.validateConstraints _) eqn:Evalid;
    [discriminate |].
  intros H. injection H as <-.
  eexists startUrl, _. repeat split; try reflexivity; try assumption.
  rewrite Eparse. discriminate.
Qed.

(** X28: validation is idempotent.  A configuration that [validate]
    returns holds the start address it was given and always holds
    constraints, and [validate] returns it unchanged when it is validated
    again: the defaults fill what is absent and nothing else. *)
Theorem validate_is_idempotent (config validated : CrawlConfig.t) :
  CrawlConfigValidator.validate config = inr validated ->
  CrawlConfigValidator.validate validated = inr validated
  /\ read (CrawlConfig.startUrl validated)
     = read (CrawlConfig.startUrl config)
  /\ exists constraints,
      read (CrawlConfig.constraints validated) = Some constraints.
Proof.
  intros H.
  destruct (validate_inr _ _ H)
    as [startUrl [merged [Hstart [Htruthy [Hparse [Hmerged [Hvalid ->]]]]]]].
  split; [| split; [now rewrite Hstart | now exists merged]].
  unfold CrawlConfigValidator.validate.
  cbn [CrawlConfig.startUrl CrawlConfig.constraints CrawlConfig.maxDepth
       CrawlConfig.maxPages CrawlConfig.credentials CrawlConfig.timeout
       CrawlConfig.userAgent CrawlConfig.respectRobotsTxt read].
  rewrite Htruthy. cbn [negb].
  destruct (URL.parse startUrl); [| now contradiction Hparse].
  cbv zeta.
  assert (Hagain : CrawlConfigValidator.spreadConstraints
                     CrawlConfigValidator.DEFAULT_CONSTRAINTS merged
                   = merged).
  { rewrite Hmerged.
    destruct (read (CrawlConfig.constraints config));
      [apply spreadConstraints_idempotent | reflexivity]. }
  rewrite Hagain, Hvalid.
  now rewrite !orElse_idempotent, copied_idempotent.
Qed.

Lemma validate_is_idempotent_witness :
  exists validated,
    CrawlConfigValidator.validate ConfigSamples.noConcurrency
    = inr validated
    /\ CrawlConfigValidator.validate validated = inr validated.
Proof.
  destruct (CrawlConfigValidator.validate ConfigSamples.noConcurrency)
    as [message | validated] eqn:E; [discriminate E |].
  exists validated. split; [reflexivity |].
  now apply (validate_is_idempotent ConfigSamples.noConcurrency).
Defined.

Lemma below_false (limit : Field JsNumber.t) (bound : Z) :
  CrawlConfigValidator.below limit bound = false ->
  match read limit with
  | Some (JsNumber.Finite q) => (q == 0 \/ inject_Z bound <= q)%Q
  | Some (JsNumber.Infinity negative) => negative = false
  | _ => True
  end.
Proof.
  unfold CrawlConfigValidator.below.
  destruct (read limit) as [[q | negative |] |]; try exact (fun _ => I).
  - unfold JsNumber.truthy, JsNumber.lt, JsNumber.ofZ.
    destruct (Qeq_bool q 0) eqn:E0; cbn [negb andb].
    + intros _. left. now apply Qeq_bool_iff.
    + intros H. right. apply negb_false_iff in H. now apply Qle_bool_iff.
  - unfold JsNumber.truthy, JsNumber.lt, JsNumber.ofZ. cbn [andb].
    now intros ->.
Qed.

(** X29: the limits of a validated configuration.  In a configuration
    that [validate] returns, the concurrency and the links per page are 0,
    NaN or at least 1, and the crawl duration is 0, NaN or at least 1000:
    a limit of 0 passes, although the errors demand at least 1 and at least
    1000. *)
Theorem validated_limits (config validated : CrawlConfig.t) :
  CrawlConfigValidator.validate config = inr validated ->
  exists constraints,
    read (CrawlConfig.constraints validated) = Some constraints
    /\ (forall q,
           read (Constraints.maxConcurrency constraints)
           = Some (JsNumber.Finite q) ->
           (q == 0 \/ 1 <= q)%Q)
    /\ (forall q,
           read (Constraints.maxCrawlDurationMs constraints)
           = Some (JsNumber.Finite q) ->
           (q == 0 \/ 1000 <= q)%Q)
    /\ (forall q,
           read (Constraints.maxLinksPerPage constraints)
           = Some (JsNumber.Finite q) ->
           (q == 0 \/ 1 <= q)%Q)
    /\ read (Constraints.maxConcurrency constraints)
       <> Some (JsNumber.Infinity true)
    /\ read (Constraints.maxCrawlDurationMs constraints)
       <> Some (JsNumber.Infinity true)
    /\ read (Constraints.maxLinksPerPage constraints)
       <> Some (JsNumber.Infinity true).
Proof.
  intros H.
  destruct (validate_inr _ _ H)
    as [startUrl [merged [_ [_ [_ [_ [Hvalid ->]]]]]]].
  exists merged. split; [reflexivity |].
  unfold CrawlConfigValidator.validateConstraints in Hvalid.
  destruct (CrawlConfigValidator.below
              (Constraints.maxConcurrency merged) 1) eqn:E1;
    [discriminate |].
  destruct (CrawlConfigValidator.below
              (Constraints.maxCrawlDurationMs merged) 1000) eqn:E2;
    [discriminate |].
  destruct (CrawlConfigValidator.below
              (Constraints.maxLinksPerPage merged) 1) eqn:E3;
    [discriminate |].
  apply below_false in E1, E2, E3.
  repeat split.
  - intros q Hq. now rewrite Hq in E1.
  - intros q Hq. now rewrite Hq in E2.
  - intros q Hq. now rewrite Hq in E3.
  - intros Hq. rewrite Hq in E1. discriminate.
  - intros Hq. rewrite Hq in E2. discriminate.
  - intros Hq. rewrite Hq in E3. discriminate.
Qed.

Lemma validated_limits_witness :
  exists validated constraints,
    CrawlConfigValidator.validate ConfigSamples.noConcurrency
    = inr validated
    /\ read (CrawlConfig.constraints validated) = Some constraints
    /\ read (Constraints.maxConcurrency constraints)
       = Some (JsNumber.ofZ 0)
    /\ read (Constraints.maxCrawlDurationMs constraints)
       <> Some (JsNumber.Infinity true).
Proof.
  destruct (CrawlConfigValidator.validate ConfigSamples.noConcurrency)
    as [message | validated] eqn:E; [discriminate E |].
  destruct (validated_limits ConfigSamples.noConcurrency validated E)
    as [constraints [Hcs [_ [_ [_ [_ [Hduration _]]]]]]].
  exists validated, constraints.
  repeat split; [exact Hcs | | exact Hduration].
  vm_compute in E. injection E as <-.
  vm_compute in Hcs. injection Hcs as <-. reflexivity.
Defined.

(** *** The time limit *)

(** X30: the time limit, once passed, stays passed.  If
    [hasExceededTimeLimit] answers yes at one reading of the clock, it
    answers yes at every later reading, for the same start time. *)
Theorem hasExceededTimeLimit_is_monotone
        (config : CrawlConfig.t) (now later : Z) (startTime : JsNumber.t) :
  (now <= later)%Z ->
  CrawlConstraintsImpl.hasExceededTimeLimit config now startTime = true ->
  CrawlConstraintsImpl.hasExceededTimeLimit config later startTime = true.
Proof.
  intros Hle. unfold CrawlConstraintsImpl.hasExceededTimeLimit.
  destruct (read (CrawlConfig.constraints config)) as [constraints |];
    [| discriminate].
  destruct (read (Constraints.maxCrawlDurationMs constraints))
    as [limit |]; [| discriminate].
  destruct (JsNumber.truthy limit); [| discriminate]. cbn [negb].
  unfold JsNumber.gt, JsNumber.ofZ.
  destruct startTime as [s | negative |]; cbn [JsNumber.sub];
    [| exact (fun H => H) | exact (fun H => H)].
  destruct limit as [l | negative |]; cbn [JsNumber.lt];
    [| exact (fun H => H) | exact (fun H => H)].
  intros H. apply negb_true_iff in H. apply negb_true_iff.
  destruct (Qle_bool (inject_Z later - s) l) eqn:E; [| reflexivity].
  apply Qle_bool_iff in E.
  assert (Hnow : (inject_Z now - s <= l)%Q).
  { apply Qle_trans with (inject_Z later - s)%Q; [| exact E].
    apply Qplus_le_compat; [| apply Qle_refl].
    now rewrite <- Zle_Qle. }
  apply Qle_bool_iff in Hnow. congruence.
Qed.

Lemma hasExceededTimeLimit_is_monotone_witness :
  CrawlConstraintsImpl.hasExceededTimeLimit
    ConfigSamples.docsOnly 400000 (JsNumber.ofZ 0) = true.
Proof.
  apply (hasExceededTimeLimit_is_monotone
           ConfigSamples.docsOnly 300001 400000 (JsNumber.ofZ 0));
    [lia | reflexivity].
Defined.
